(** * rscp: the rcp/scp wire protocol, source and sink

    A shallow embedding of [package rscp]: the mode translation
    ([toPosixPerm], [toStdPerm]), the error values ([FatalError],
    [AccError]), the line protocol ([ack], [readLine], [sendError],
    [teeError], [parseSubj]) and the two state machines ([send] on the
    source side, [sink], [sinkDir], [sinkFile] on the sink side).

    Go strings and byte slices are byte sequences, [list ascii] here.
    The process environment (file system, standard input and output) is
    an explicit [world] value threaded through every operation. *)

From Stdlib Require Import ZArith Ascii String List Lia Bool DecimalString.
From stdpp Require Import base option list gmap strings.

Local Open Scope Z_scope.

(** ** Byte strings *)

Abbreviation gostring := (list ascii).

Definition lit (s : string) : list ascii := list_ascii_of_string s.

Definition NL : ascii := Ascii.ascii_of_nat 10.
Definition NUL : ascii := Ascii.ascii_of_nat 0.
Definition SOH : ascii := Ascii.ascii_of_nat 1.
Definition STX : ascii := Ascii.ascii_of_nat 2.

Definition ascii_eqb (a b : ascii) : bool := Ascii.eqb a b.

Definition bytes_eqb (a b : list ascii) : bool :=
  bool_decide (a = b).

(** ** Constants of the package and of Go's [os] package *)

Definition S_IWUSR : Z := 128.   (* 00200 *)
Definition S_IRWXU : Z := 448.   (* 00700 *)
Definition S_ISUID : Z := 2048.  (* 04000 *)
Definition S_ISGID : Z := 1024.  (* 02000 *)

Definition MaxErrLen : nat := 1024.

(** [os.FileMode] is a [uint32]; these are the bits of Go's [os] package. *)
Definition ModePerm : Z := 511.          (* 0777 *)
Definition ModeSetuid : Z := 8388608.    (* 1 << 23 *)
Definition ModeSetgid : Z := 4194304.    (* 1 << 22 *)
Definition ModeSticky : Z := 1048576.    (* 1 << 20 *)

Definition uint32 (x : Z) : Z := x mod 2 ^ 32.

(** ** Mode translation *)

Definition toPosixPerm (perm : Z) : Z :=
  let pp := Z.land perm ModePerm in
  let pp := if negb (Z.land perm ModeSetuid =? 0) then Z.lor pp S_ISUID else pp in
  let pp := if negb (Z.land perm ModeSetgid =? 0) then Z.lor pp S_ISGID else pp in
  pp.

Definition toStdPerm (posixPerm : Z) : Z :=
  let perm := Z.land (uint32 posixPerm) ModePerm in
  let perm := if negb (Z.land posixPerm S_ISUID =? 0) then Z.lor perm ModeSetuid else perm in
  let perm := if negb (Z.land posixPerm S_ISGID =? 0) then Z.lor perm ModeSetgid else perm in
  perm.

(** The bits that may cross the protocol, on either side. *)
Definition posix_bits : Z := Z.lor ModePerm (Z.lor S_ISUID S_ISGID).       (* 06777 *)
Definition std_bits : Z := Z.lor ModePerm (Z.lor ModeSetuid ModeSetgid).

Definition only_bits (mask x : Z) : Prop := Z.land x mask = x.

(** ** Errors

    Go's [error] values, as far as the package tells them apart:
    [io.EOF] (compared by identity), the errors of the [os] and
    [syscall] packages (of which [os.IsNotExist] singles out some),
    [errors.New], and the package's own [FatalError] and [AccError]. *)

Inductive error : Type :=
| EOF
| ErrShortWrite
| OsError (notExist : bool) (msg : list ascii)
| Plain (msg : list ascii)
| FatalError (msg : list ascii)
| AccError (Errors : list error).

(** [fmt.Sprintln] of a list of operands already rendered: separated by
    one space, closed by a newline. *)
Fixpoint Sprintln (ve : list (list ascii)) : list ascii :=
  match ve with
  | [] => [NL]
  | [v] => v ++ [NL]
  | v :: rest => v ++ lit " " ++ Sprintln rest
  end.

Fixpoint Error (e : error) : list ascii :=
  match e with
  | EOF => lit "EOF"
  | ErrShortWrite => lit "short write"
  | OsError _ msg => msg
  | Plain msg => msg
  | FatalError msg => msg
  | AccError errs => Sprintln (List.map Error errs)
  end.

Definition isFatal (err : option error) : bool :=
  match err with
  | Some (FatalError _) => true
  | _ => false
  end.

Definition IsNotExist (e : error) : bool :=
  match e with
  | OsError true _ => true
  | _ => false
  end.

Definition protocolErr : error := FatalError (lit "protocol error").

(** [len(errs) > 0] decides between [AccError{errs}] and [nil]. *)
Definition acc_or_nil (errs : list error) : option error :=
  match errs with
  | [] => None
  | _ => Some (AccError errs)
  end.

Definition opt_list (e : option error) : list error :=
  match e with
  | Some x => [x]
  | None => []
  end.

(** ** The environment *)

Record Timeval := { Sec : Z; Usec : Z }.
Record FileTimes := { Atime : Timeval; Mtime : Timeval }.

Inductive kind := Regular | Directory | Special.

Record node := Node {
  n_kind : kind;
  n_mode : Z;              (* permission part of the [os.FileMode] *)
  n_data : list ascii;
  n_times : FileTimes
}.

(** Operations the environment can be told to refuse. *)
Inductive fsop :=
| OpStat | OpOpen | OpFstat | OpTruncate | OpSync | OpChmod | OpUtimes | OpMkdir.

Global Instance fsop_eq_dec : EqDecision fsop.
Proof. solve_decision. Defined.

(** A byte source: the bytes still to come, then end of file or the
    read error [r_fail]. *)
Record reader := Reader { r_data : list ascii; r_fail : option (list ascii) }.

(** A byte sink: what has been written, and how many more bytes it takes
    before writes fail ([None]: it never fails). *)
Record writer := Writer { w_data : list ascii; w_room : option nat }.

Record world := World {
  fs : gmap (list ascii) node;
  stdin : reader;
  stdout : writer;
  umask : Z;
  disk_room : option nat;     (* bytes the file system still accepts *)
  read_limit : option nat;    (* offset from which reading a file fails *)
  denied : list fsop
}.

Record options := Options {
  iamRecursive : bool;
  targetDir : bool;
  preserveAttrs : bool
}.

Definition set_fs (w : world) (m : gmap (list ascii) node) : world :=
  World m (stdin w) (stdout w) (umask w) (disk_room w) (read_limit w) (denied w).
Definition set_stdin (w : world) (r : reader) : world :=
  World (fs w) r (stdout w) (umask w) (disk_room w) (read_limit w) (denied w).
Definition set_stdout (w : world) (o : writer) : world :=
  World (fs w) (stdin w) o (umask w) (disk_room w) (read_limit w) (denied w).
Definition set_disk (w : world) (m : gmap (list ascii) node) (room : option nat) : world :=
  World m (stdin w) (stdout w) (umask w) room (read_limit w) (denied w).

Definition refuses (w : world) (op : fsop) : bool := bool_decide (op ∈ denied w).

(** *** Standard input *)

Definition end_of_input (r : reader) : error :=
  match r_fail r with
  | None => EOF
  | Some msg => OsError false msg
  end.

(** [opts.in.Read(p)] with [len(p) = n], [n > 0]. *)
Definition in_Read (n : nat) (w : world) : (list ascii * option error) * world :=
  match r_data (stdin w) with
  | [] => (([], Some (end_of_input (stdin w))), w)
  | d => ((take n d, None), set_stdin w (Reader (drop n d) (r_fail (stdin w))))
  end.

(** [opts.in.Read] into a one-byte buffer. *)
Definition in_ReadByte (w : world) : (error + ascii) * world :=
  match r_data (stdin w) with
  | [] => (inl (end_of_input (stdin w)), w)
  | c :: d => (inr c, set_stdin w (Reader d (r_fail (stdin w))))
  end.

(** *** Standard output *)

(** [opts.out.Write(bs)]: number of bytes written and the error. *)
Definition out_Write (bs : list ascii) (w : world) : (nat * option error) * world :=
  let o := stdout w in
  match w_room o with
  | None => ((length bs, None), set_stdout w (Writer (w_data o ++ bs) None))
  | Some room =>
      if (length bs <=? room)%nat
      then ((length bs, None),
            set_stdout w (Writer (w_data o ++ bs) (Some (room - length bs)%nat)))
      else ((room, Some (OsError false (lit "write: broken pipe"))),
            set_stdout w (Writer (w_data o ++ take room bs) (Some 0%nat)))
  end.

(** [fmt.Fprint(opts.out, s)] and [fmt.Fprintf], once the text is formatted. *)
Definition out_Print (s : list ascii) (w : world) : option error * world :=
  let '((_, err), w') := out_Write s w in (err, w').

(** *** Files *)

Definition perm_bits : Z := Z.lor std_bits ModeSticky.

Definition created_mode (w : world) (perm : Z) : Z :=
  Z.land (Z.land perm perm_bits) (Z.lnot (Z.land (umask w) ModePerm)).

Definition zero_times : FileTimes := Build_FileTimes (Build_Timeval 0 0) (Build_Timeval 0 0).

Definition IsDir (st : node) : bool :=
  match n_kind st with Directory => true | _ => false end.
Definition IsRegular (st : node) : bool :=
  match n_kind st with Regular => true | _ => false end.
Definition Size (st : node) : Z := Z.of_nat (length (n_data st)).

Definition enoent (op name : list ascii) : error :=
  OsError true (op ++ lit " " ++ name ++ lit ": no such file or directory").
Definition refusal (op name : list ascii) : error :=
  OsError false (op ++ lit " " ++ name ++ lit ": permission denied").

(** [env.Os.Stat(name)] *)
Definition Stat (w : world) (name : list ascii) : error + node :=
  if refuses w OpStat then inl (refusal (lit "stat") name)
  else match fs w !! name with
       | Some st => inr st
       | None => inl (enoent (lit "stat") name)
       end.

(** [env.Os.OpenFile(name, os.O_WRONLY|os.O_CREATE, perm)]: an existing
    file is opened as it is, a missing one is created empty with
    [perm] less the umask. *)
Definition OpenFile (w : world) (name : list ascii) (perm : Z) : option error * world :=
  if refuses w OpOpen then (Some (refusal (lit "open") name), w)
  else match fs w !! name with
       | Some st =>
           if IsDir st
           then (Some (OsError false (lit "open " ++ name ++ lit ": is a directory")), w)
           else (None, w)
       | None =>
           (None, set_fs w (<[name := Node Regular (created_mode w perm) [] zero_times]> (fs w)))
       end.

(** [env.Os.Open(name)], for reading. *)
Definition Open (w : world) (name : list ascii) : option error :=
  if refuses w OpOpen then Some (refusal (lit "open") name)
  else match fs w !! name with
       | Some _ => None
       | None => Some (enoent (lit "open") name)
       end.

(** [f.Stat()] on the file opened as [name]. *)
Definition Fstat (w : world) (name : list ascii) : error + node :=
  if refuses w OpFstat then inl (refusal (lit "stat") name)
  else match fs w !! name with
       | Some st => inr st
       | None => inl (enoent (lit "stat") name)
       end.

(** [f.Write(bs)] at offset [off] of the file opened as [name]. *)
Definition file_Write (name : list ascii) (off : nat) (bs : list ascii) (w : world)
  : (nat * option error) * world :=
  match fs w !! name with
  | None => ((0%nat, Some (OsError false (lit "write: bad file descriptor"))), w)
  | Some st =>
      match n_kind st with
      | Special => ((length bs, None), w)
      | _ =>
          let n := match disk_room w with
                   | None => length bs
                   | Some room => Nat.min room (length bs)
                   end in
          let data := take off (n_data st) ++ take n bs ++ drop (off + n) (n_data st) in
          let st' := Node (n_kind st) (n_mode st) data (n_times st) in
          let room' := match disk_room w with
                       | None => None
                       | Some room => Some (room - n)%nat
                       end in
          ((n, if (n <? length bs)%nat
               then Some (OsError false (lit "write: no space left on device"))
               else None),
           set_disk w (<[name := st']> (fs w)) room')
      end
  end.

(** [f.Read(p)] with [len(p) = n] at offset [off] of the file opened
    as [name]. *)
Definition file_Read (name : list ascii) (off : nat) (n : nat) (w : world)
  : list ascii * option error :=
  match fs w !! name with
  | None => ([], Some (OsError false (lit "read: bad file descriptor")))
  | Some st =>
      let failing := match read_limit w with
                     | Some k => (k <=? off)%nat
                     | None => false
                     end in
      if failing then ([], Some (OsError false (lit "read: input/output error")))
      else
        let rest := drop off (n_data st) in
        let rest := match read_limit w with
                    | Some k => take (k - off) rest
                    | None => rest
                    end in
        match rest with
        | [] => ([], Some EOF)
        | _ => (take n rest, None)
        end
  end.

(** [f.Truncate(size)] *)
Definition Truncate (w : world) (name : list ascii) (size : Z) : option error * world :=
  if refuses w OpTruncate then (Some (refusal (lit "truncate") name), w)
  else match fs w !! name with
       | None => (Some (enoent (lit "truncate") name), w)
       | Some st =>
           if (size <? 0) || negb (IsRegular st)
           then (Some (OsError false (lit "truncate " ++ name ++ lit ": invalid argument")), w)
           else
             let n := Z.to_nat size in
             let data := take n (n_data st) ++ replicate (n - length (n_data st)) NUL in
             (None, set_fs w (<[name := Node (n_kind st) (n_mode st) data (n_times st)]> (fs w)))
       end.

(** [f.Sync()] *)
Definition Sync (w : world) (name : list ascii) : option error :=
  if refuses w OpSync then Some (refusal (lit "sync") name) else None.

(** [f.Chmod(perm)] and [env.Os.Chmod(name, perm)] *)
Definition Chmod (w : world) (name : list ascii) (perm : Z) : option error * world :=
  if refuses w OpChmod then (Some (refusal (lit "chmod") name), w)
  else match fs w !! name with
       | None => (Some (enoent (lit "chmod") name), w)
       | Some st =>
           (None, set_fs w (<[name := Node (n_kind st) (Z.land perm perm_bits)
                                          (n_data st) (n_times st)]> (fs w)))
       end.

(** [syscall.Utimes(name, {atime, mtime})] *)
Definition Utimes (w : world) (name : list ascii) (t : FileTimes) : option error * world :=
  if refuses w OpUtimes then (Some (refusal (lit "utimes") name), w)
  else match fs w !! name with
       | None => (Some (enoent (lit "utimes") name), w)
       | Some st =>
           (None, set_fs w (<[name := Node (n_kind st) (n_mode st) (n_data st) t]> (fs w)))
       end.

(** [env.Os.Mkdir(name, perm)] *)
Definition Mkdir (w : world) (name : list ascii) (perm : Z) : option error * world :=
  if refuses w OpMkdir then (Some (refusal (lit "mkdir") name), w)
  else match fs w !! name with
       | Some _ => (Some (OsError false (lit "mkdir " ++ name ++ lit ": file exists")), w)
       | None =>
           (None, set_fs w (<[name := Node Directory (created_mode w perm) [] zero_times]> (fs w)))
       end.

(** ** Functions of Go's library the package calls

    [fmt.Sscanf] with the two formats the sink uses, [path.Join], and the
    base name [os.FileInfo.Name] reports.  The package's functions are
    written over any implementation of them; [stdlib] further down is
    one that runs. *)

Record subj_scan := SubjScan {
  ss_n : Z; ss_err : option error;
  ss_perm : Z; ss_size : Z; ss_name : list ascii
}.

Record times_scan := TimesScan {
  ts_n : Z; ts_err : option error;
  ts_mtime_sec : Z; ts_mtime_usec : Z; ts_atime_sec : Z; ts_atime_usec : Z
}.

Class GoLib := {
  Sscanf_subj : list ascii -> subj_scan;      (* Sscanf(line, "%o %d %s", ...) *)
  Sscanf_times : list ascii -> times_scan;    (* Sscanf(line, "%d %d %d %d", ...) *)
  path_Join : list ascii -> list ascii -> list ascii;
  base_name : list ascii -> list ascii
}.

(** ** [io.Copy]

    The loop of Go's [io.Copy] over a reader and a writer acting on a
    state [St]: read a chunk of at most [copy_buf] bytes, write it, stop
    at the first error; end of file is not an error.  [fuel] bounds the
    number of chunks. *)

Definition copy_buf : nat := 32 * 1024.

Section IoCopy.
Context {St : Type}.
Variable Read : nat -> St -> (list ascii * option error) * St.
Variable Write : list ascii -> St -> (nat * option error) * St.

Definition read_outcome (er : option error) (written : Z) : option (Z * option error) :=
  match er with
  | None => None
  | Some EOF => Some (written, None)
  | Some e => Some (written, Some e)
  end.

Fixpoint io_Copy_loop (fuel : nat) (written : Z) (s : St) : (Z * option error) * St :=
  match fuel with
  | O => ((written, Some (OsError false (lit "copy: no progress"))), s)
  | S fuel' =>
      let '((bs, er), s1) := Read copy_buf s in
      match bs with
      | [] =>
          match read_outcome er written with
          | Some r => (r, s1)
          | None => io_Copy_loop fuel' written s1
          end
      | _ =>
          let '((nw, ew), s2) := Write bs s1 in
          let written' := written + Z.of_nat nw in
          match ew with
          | Some e => ((written', Some e), s2)
          | None =>
              if (nw <? length bs)%nat then ((written', Some ErrShortWrite), s2)
              else match read_outcome er written' with
                   | Some r => (r, s2)
                   | None => io_Copy_loop fuel' written' s2
                   end
          end
      end
  end.

(** [io.LimitReader(r, n)]: the state gains the count [N] of bytes left. *)
Definition LimitReader (n : nat) (s : Z * St) : (list ascii * option error) * (Z * St) :=
  let '(N, s0) := s in
  if N <=? 0 then (([], Some EOF), s)
  else
    let n' := if Z.of_nat n >? N then Z.to_nat N else n in
    let '((bs, er), s1) := Read n' s0 in
    ((bs, er), (N - Z.of_nat (length bs), s1)).

End IoCopy.

(** [ConstReader(c).Read]: fills the whole buffer. *)
Definition ConstReader (c : ascii) (n : nat) (w : world) : (list ascii * option error) * world :=
  ((replicate n c, None), w).

(** [ioutil.Discard.Write] *)
Definition Discard (bs : list ascii) (w : world) : (nat * option error) * world :=
  ((length bs, None), w).

(** The readers and writers of the package's copies.  Beside the world
    their state carries what the copy itself keeps: the count of a
    [LimitReader], the offset in an open file. *)
Definition discard_writer {A : Type} (bs : list ascii) (s : A * world)
  : (nat * option error) * (A * world) :=
  let '(r, w1) := Discard bs (snd s) in (r, (fst s, w1)).

Definition out_writer {A : Type} (bs : list ascii) (s : A * world)
  : (nat * option error) * (A * world) :=
  let '(r, w1) := out_Write bs (snd s) in (r, (fst s, w1)).

Definition in_reader {A : Type} (n : nat) (s : A * world)
  : (list ascii * option error) * (A * world) :=
  let '(r, w1) := in_Read n (snd s) in (r, (fst s, w1)).

(** The file opened as [name], written at the offset kept in the state. *)
Definition file_writer (name : list ascii) (bs : list ascii) (s : Z * (nat * world))
  : (nat * option error) * (Z * (nat * world)) :=
  let '(N, (off, w0)) := s in
  let '((nw, ew), w1) := file_Write name off bs w0 in
  ((nw, ew), (N, ((off + nw)%nat, w1))).

(** The file opened as [name], read at the offset kept in the state. *)
Definition file_reader (name : list ascii) (n : nat) (s : nat * world)
  : (list ascii * option error) * (nat * world) :=
  let '(bs, er) := file_Read name (fst s) n (snd s) in
  ((bs, er), ((fst s + length bs)%nat, snd s)).

(** The four copies of the package.  Each reads at least one byte per
    chunk or stops, so the fuel given is never used up. *)

(** [io.Copy(f, io.LimitReader(opts.in, size))], [f] opened as [name] at
    offset 0. *)
Definition copy_in_to_file (w : world) (name : list ascii) (size : Z)
  : (Z * option error) * world :=
  let '(r, (_, (_, w'))) :=
    io_Copy_loop (LimitReader in_reader) (file_writer name)
      (S (length (r_data (stdin w)))) 0 (size, (0%nat, w)) in
  (r, w').

(** [io.Copy(ioutil.Discard, io.LimitReader(opts.in, n))] *)
Definition copy_in_to_discard (w : world) (n : Z) : (Z * option error) * world :=
  let '(r, (_, w')) :=
    io_Copy_loop (LimitReader in_Read) discard_writer
      (S (length (r_data (stdin w)))) 0 (n, w) in
  (r, w').

Definition file_size (w : world) (name : list ascii) : nat :=
  match fs w !! name with
  | Some st => length (n_data st)
  | None => 0%nat
  end.

(** [io.Copy(opts.out, f)], [f] opened as [name] at offset 0. *)
Definition copy_file_to_out (w : world) (name : list ascii) : (Z * option error) * world :=
  let '(r, (_, w')) :=
    io_Copy_loop (file_reader name) out_writer (S (file_size w name)) 0 (0%nat, w) in
  (r, w').

(** [io.Copy(opts.out, io.LimitReader(ConstReader(0), n))] *)
Definition copy_zeros_to_out (w : world) (n : Z) : (Z * option error) * world :=
  let '(r, (_, w')) :=
    io_Copy_loop (LimitReader (ConstReader NUL)) out_writer (S (Z.to_nat n)) 0 (n, w) in
  (r, w').

(** ** The line protocol *)

(** [readLine]: bytes up to the first newline, which is consumed; the
    read error (end of file included) when the input ends first. *)
Fixpoint until_newline (l d : list ascii) : option (list ascii * list ascii) :=
  match d with
  | [] => None
  | ch :: d' => if ascii_eqb ch NL then Some (l, d') else until_newline (l ++ [ch]) d'
  end.

Definition readLine (w : world) : (error + list ascii) * world :=
  match until_newline [] (r_data (stdin w)) with
  | Some (l, rest) => (inr l, set_stdin w (Reader rest (r_fail (stdin w))))
  | None => (inl (end_of_input (stdin w)), set_stdin w (Reader [] (r_fail (stdin w))))
  end.

Definition ack (w : world) : option error * world :=
  match in_ReadByte w with
  | (inl err, w) => (Some (FatalError (Error err)), w)
  | (inr kind0, w) =>
      if ascii_eqb kind0 NUL then (None, w)
      else
        match readLine w with
        | (inl err, w) => (Some (FatalError (Error err)), w)
        | (inr l, w) =>
            if ascii_eqb kind0 SOH then (Some (Plain l), w)
            else if ascii_eqb kind0 STX then (Some (FatalError l), w)
            else (Some protocolErr, w)
        end
  end.

(** [strings.Replace(s, "\n", "; ", -1)] *)
Fixpoint Replace_newlines (s : list ascii) : list ascii :=
  match s with
  | [] => []
  | ch :: s' => (if ascii_eqb ch NL then lit "; " else [ch]) ++ Replace_newlines s'
  end.

(** The body of the line [sendError] emits. *)
Definition error_body (err : error) : list ascii :=
  let line := Replace_newlines (Error err) in
  if (MaxErrLen - 3 <? length line)%nat
  then take (MaxErrLen - 6) line ++ lit "..."
  else line.

Definition sendError (w : world) (err : error) : option error * world :=
  let line := error_body err in
  match out_Print ([SOH] ++ line ++ [NL]) w with
  | (Some e, w) => (Some (FatalError (Error e)), w)
  | (None, w) => (None, w)
  end.

Definition teeError (w : world) (err : error) : option error * world :=
  match sendError w err with
  | (Some e, w) => (Some e, w)
  | (None, w) => (Some err, w)
  end.

Definition ContainsRune (s : list ascii) (r : ascii) : bool :=
  existsb (ascii_eqb r) s.

Section Package.
Context {lib : GoLib}.
Variable opts : options.

Definition parseSubj (line : list ascii) : Z * Z * list ascii * option error :=
  let sc := Sscanf_subj line in
  match ss_err sc with
  | Some err => (0, ss_size sc, ss_name sc, Some err)
  | None =>
      if negb (ss_n sc =? 3) then (0, ss_size sc, ss_name sc, Some protocolErr)
      else
        let perm := toStdPerm (ss_perm sc) in
        let name := ss_name sc in
        if bytes_eqb name (lit "..") || ContainsRune name "/"%char
        then (perm, ss_size sc, name, Some (FatalError (name ++ lit ": invalid name")))
        else (perm, ss_size sc, name, None)
  end.

(** *** The sink *)

(** [pendErrs = append(pendErrs, err)] when [err != nil]. *)
Definition pend (pendErrs : list error) (r : option error * world) : list error * world :=
  match r with
  | (Some err, w) => (pendErrs ++ [err], w)
  | (None, w) => (pendErrs, w)
  end.

(** [sinkFile] once the payload is dealt with and [pendErrs] holds what
    the copy left pending: truncate, sync, chmod, utimes, then the
    closing exchange with the peer.  [st] is what [f.Stat()] returned,
    [exists_] whether [Stat] of the target succeeded. *)
Definition sinkFile_finish (w : world) (name : list ascii) (perm size : Z)
    (exists_ : bool) (st : node) (times : option FileTimes) (pendErrs : list error)
  : option error * world :=
  let '(pendErrs, w) :=
    if negb exists_ || IsRegular st
    then pend pendErrs (Truncate w name size)
    else (pendErrs, w) in
  let '(pendErrs, w) := pend pendErrs (Sync w name, w) in
  let '(pendErrs, w) :=
    if preserveAttrs opts || negb exists_
    then pend pendErrs (Chmod w name perm)
    else (pendErrs, w) in
  let '(pendErrs, w) :=
    match times with
    | Some t => pend pendErrs (Utimes w name t)
    | None => (pendErrs, w)
    end in
  let '(ackErr, w) := ack w in
  if isFatal ackErr then (ackErr, w)
  else
    let sent :=
      match pendErrs with
      | _ :: _ =>
          let sentErr := AccError pendErrs in
          match sendError w sentErr with
          | (Some err, w) => inl (Some err, w)
          | (None, w) => inr (Some sentErr, w)
          end
      | [] =>
          match out_Print [NUL] w with
          | (Some err, w) => inl (Some (FatalError (Error err)), w)
          | (None, w) => inr (None, w)
          end
      end in
    match sent with
    | inl fatal => fatal
    | inr (sentErr, w) =>
        match ackErr with
        | Some a => (Some (AccError (pendErrs ++ [a])), w)
        | None => (sentErr, w)
        end
    end.

(** [sinkFile] from the payload copy on: the copy, the drain when the
    copy failed, and the rest. *)
Definition sinkFile_payload (w : world) (name : list ascii) (perm size : Z)
    (exists_ : bool) (st : node) (times : option FileTimes) : option error * world :=
  match copy_in_to_file w name size with
  | ((wr, Some err), w) =>
      match copy_in_to_discard w (size - wr) with
      | ((_, Some derr), w) => teeError w (FatalError (Error derr))
      | ((_, None), w) => sinkFile_finish w name perm size exists_ st times [err]
      end
  | ((_, None), w) => sinkFile_finish w name perm size exists_ st times []
  end.

(** [sinkFile] from [OpenFile] on; [exists_] is whether [Stat] of the
    target succeeded, [name] the path to open. *)
Definition sinkFile_open (w : world) (name : list ascii) (perm size : Z)
    (exists_ : bool) (times : option FileTimes) : option error * world :=
  match OpenFile w name (Z.lor perm S_IWUSR) with
  | (Some err, w) => teeError w err
  | (None, w) =>
      match Fstat w name with
      | inl err => teeError w err
      | inr st =>
          match out_Print [NUL] w with
          | (Some err, w) => (Some (FatalError (Error err)), w)
          | (None, w) => sinkFile_payload w name perm size exists_ st times
          end
      end
  end.

(** What [sinkFile] makes of the target: whether it exists and the path
    the file is opened at. *)
Definition sinkFile_target (w : world) (name subj : list ascii) : bool * list ascii :=
  match Stat w name with
  | inr st => (true, if IsDir st then path_Join name subj else name)
  | inl _ => (false, name)
  end.

Definition sinkFile (w : world) (name line : list ascii) (times : option FileTimes)
  : option error * world :=
  let '(perm, size, subj, err) := parseSubj line in
  match err with
  | Some err => teeError w (FatalError (Error err))
  | None =>
      let '(exists_, name) := sinkFile_target w name subj in
      sinkFile_open w name perm size exists_ times
  end.

Definition prepareDir (w : world) (name : list ascii) (perm : Z)
  : (bool * option error) * world :=
  match Stat w name with
  | inr st =>
      if negb (IsDir st) then ((false, Some (Plain (name ++ lit ": is not a directory"))), w)
      else if preserveAttrs opts then
        match Chmod w name perm with
        | (Some err, w) => ((false, Some err), w)
        | (None, w) => ((false, None), w)
        end
      else ((false, None), w)
  | inl err =>
      if IsNotExist err then
        match Mkdir w name (Z.lor perm S_IRWXU) with
        | (Some err, w) => ((false, Some err), w)
        | (None, w) => ((true, None), w)
        end
      else ((false, Some err), w)
  end.

(** [sinkDir] after the inner [sink] has returned the soft errors [errs]. *)
Definition sinkDir_finish (w : world) (name : list ascii) (perm : Z) (resetPerm : bool)
    (times : option FileTimes) (errs : list error) : option error * world :=
  let '(pendErrs, w) :=
    match times with
    | Some t => pend [] (Utimes w name t)
    | None => ([], w)
    end in
  let '(pendErrs, w) :=
    if resetPerm then pend pendErrs (Chmod w name perm) else (pendErrs, w) in
  match pendErrs with
  | _ :: _ =>
      let errs := errs ++ pendErrs in
      match sendError w (AccError pendErrs) with
      | (Some err, w) => (Some err, w)
      | (None, w) => (acc_or_nil errs, w)
      end
  | [] => (acc_or_nil errs, w)
  end.

(** [sink], its dispatch loop and [sinkDir] call each other; [fuel]
    bounds the number of calls and loop turns, and [None] is the answer
    when it runs out. *)
Fixpoint sink (fuel : nat) (w : world) (path : list ascii) (recur : bool) {struct fuel}
  : option (option error * world) :=
  match fuel with
  | O => None
  | S fuel =>
      let checked :=
        if targetDir opts then
          match Stat w path with
          | inl err => Some (teeError w (FatalError (Error err)))
          | inr st =>
              if negb (IsDir st)
              then Some (teeError w (FatalError (path ++ lit ": is not a directory")))
              else None
          end
        else None in
      match checked with
      | Some r => Some r
      | None =>
          match out_Print [NUL] w with
          | (Some err, w) => Some (Some (FatalError (Error err)), w)
          | (None, w) => sink_loop fuel w path recur [] None true
          end
      end
  end

with sink_loop (fuel : nat) (w : world) (path : list ascii) (recur : bool)
    (errs : list error) (times : option FileTimes) (first : bool) {struct fuel}
  : option (option error * world) :=
  match fuel with
  | O => None
  | S fuel =>
      match in_ReadByte w with
      | (inl EOF, w) => Some (acc_or_nil errs, w)
      | (inl err, w) => Some (Some (FatalError (Error err)), w)
      | (inr prefix, w) =>
          match readLine w with
          | (inl err, w) => Some (Some (FatalError (Error err)), w)
          | (inr line, w) =>
              if ascii_eqb prefix SOH then
                sink_loop fuel w path recur (errs ++ [Plain line]) times false
              else if ascii_eqb prefix STX then
                Some (Some (FatalError line), w)
              else if ascii_eqb prefix "E" then
                if negb recur then Some (teeError w protocolErr)
                else
                  match out_Print [NUL] w with
                  | (Some err, w) => Some (Some (FatalError (Error err)), w)
                  | (None, w) => sink_loop fuel w path recur errs times false
                  end
              else if ascii_eqb prefix "T" then
                let sc := Sscanf_times line in
                match ts_err sc with
                | Some err => Some (teeError w (FatalError (Error err)))
                | None =>
                    if negb (ts_n sc =? 4) then Some (teeError w protocolErr)
                    else
                      let times :=
                        Some (Build_FileTimes
                                (Build_Timeval (ts_atime_sec sc) (ts_atime_usec sc))
                                (Build_Timeval (ts_mtime_sec sc) (ts_mtime_usec sc))) in
                      match out_Print [NUL] w with
                      | (Some err, w) => Some (Some (FatalError (Error err)), w)
                      | (None, w) => sink_loop fuel w path recur errs times false
                      end
                end
              else if ascii_eqb prefix "D" then
                match sinkDir fuel w path line times with
                | None => None
                | Some (err, w) =>
                    if isFatal err then Some (err, w)
                    else sink_loop fuel w path recur (errs ++ opt_list err) None false
                end
              else if ascii_eqb prefix "C" then
                match sinkFile w path line times with
                | (err, w) =>
                    if isFatal err then Some (err, w)
                    else sink_loop fuel w path recur (errs ++ opt_list err) None false
                end
              else
                let err := if first then FatalError ([prefix] ++ line) else protocolErr in
                Some (teeError w err)
          end
      end
  end

with sinkDir (fuel : nat) (w : world) (parent line : list ascii)
    (times : option FileTimes) {struct fuel} : option (option error * world) :=
  match fuel with
  | O => None
  | S fuel =>
      if negb (iamRecursive opts)
      then Some (teeError w (FatalError (lit "received directory without -r flag")))
      else
        let '(perm, _, name, err) := parseSubj line in
        match err with
        | Some err => Some (teeError w (FatalError (Error err)))
        | None =>
            let name := path_Join parent name in
            match prepareDir w name perm with
            | ((_, Some err), w) => Some (teeError w err)
            | ((resetPerm, None), w) =>
                match sink fuel w name true with
                | None => None
                | Some (err, w) =>
                    if isFatal err then Some (err, w)
                    else Some (sinkDir_finish w name perm resetPerm times (opt_list err))
                end
            end
        end
  end.

(** *** The source *)

(** [%d] of [fmt]. *)
Definition fmt_d (z : Z) : list ascii :=
  list_ascii_of_string (NilZero.string_of_int (Z.to_int z)).

Definition oct_digit (d : Z) : ascii := Ascii.ascii_of_nat (48 + Z.to_nat d).

Fixpoint oct_digits (fuel : nat) (n : Z) (acc : list ascii) : list ascii :=
  match fuel with
  | O => acc
  | S fuel =>
      let acc := oct_digit (n mod 8) :: acc in
      if n / 8 =? 0 then acc else oct_digits fuel (n / 8) acc
  end.

(** [%04o] of [fmt], for the non-negative values [toPosixPerm] returns. *)
Definition fmt_04o (n : Z) : list ascii :=
  let ds := oct_digits 22 n [] in
  replicate (4 - length ds) "0"%char ++ ds.

Definition sendAttr (w : world) (st : node) : option error * world :=
  let mtime := Sec (Mtime (n_times st)) in
  let atime := Sec (Atime (n_times st)) in
  match out_Print (lit "T" ++ fmt_d mtime ++ lit " 0 " ++ fmt_d atime ++ lit " 0" ++ [NL]) w with
  | (Some err, w) => (Some (FatalError (Error err)), w)
  | (None, w) => ack w
  end.

(** [send] from the payload copy to the end; [f] is the file opened as
    [fname], [st] what [f.Stat()] returned. *)
Definition send_payload (w : world) (fname : list ascii) (st : node) : option error * world :=
  match copy_file_to_out w fname with
  | ((sent, Some err), w) =>
      match copy_zeros_to_out w (Size st - sent) with
      | ((_, Some perr), w) => (Some (FatalError (Error perr)), w)
      | ((_, None), w) =>
          match ack w with
          | (Some aerr, w) => (Some aerr, w)
          | (None, w) => teeError w err
          end
      end
  | ((_, None), w) =>
      match out_Print [NUL] w with
      | (Some err, w) => (Some (FatalError (Error err)), w)
      | (None, w) => ack w
      end
  end.

(** [sendDir] walks the directory and calls [send] on each child; no
    property below enters it, and [send] is written over any such walk. *)
Variable sendDir : world -> list ascii -> node -> option error * world.

Definition send (w : world) (fname : list ascii) : option error * world :=
  match Open w fname with
  | Some err => teeError w err
  | None =>
      match Fstat w fname with
      | inl err => teeError w err
      | inr st =>
          let name := base_name fname in
          if IsDir st then
            if iamRecursive opts then sendDir w fname st
            else teeError w (Plain (name ++ lit ": is a directory"))
          else if negb (IsRegular st) then
            teeError w (Plain (name ++ lit ": not a regular file"))
          else
            match (if preserveAttrs opts then sendAttr w st else (None, w)) with
            | (Some err, w) => (Some err, w)
            | (None, w) =>
                match out_Print (lit "C" ++ fmt_04o (toPosixPerm (n_mode st)) ++ lit " "
                                 ++ fmt_d (Size st) ++ lit " " ++ name ++ [NL]) w with
                | (Some err, w) => (Some (FatalError (Error err)), w)
                | (None, w) =>
                    match ack w with
                    | (Some err, w) => (Some err, w)
                    | (None, w) => send_payload w fname st
                    end
                end
            end
      end
  end.

End Package.

(** ** A runnable instance of the library functions

    Enough of [fmt.Sscanf], [path.Join] and the base name to run the
    package on header lines made of space-separated fields and on names
    without [.] components. *)

Fixpoint fields (cur : list ascii) (s : list ascii) : list (list ascii) :=
  match s with
  | [] => match cur with [] => [] | _ => [cur] end
  | ch :: s' =>
      if ascii_eqb ch " " then
        match cur with
        | [] => fields [] s'
        | _ => cur :: fields [] s'
        end
      else fields (cur ++ [ch]) s'
  end.

Definition digit_of (base : Z) (ch : ascii) : option Z :=
  let d := Z.of_nat (Ascii.nat_of_ascii ch) - 48 in
  if (0 <=? d) && (d <? base) then Some d else None.

Fixpoint digits_value (base acc : Z) (s : list ascii) : option Z :=
  match s with
  | [] => Some acc
  | ch :: s' =>
      match digit_of base ch with
      | Some d => digits_value base (acc * base + d) s'
      | None => None
      end
  end.

Definition scan_int (base : Z) (tok : list ascii) : option Z :=
  match tok with
  | [] => None
  | ch :: rest =>
      if ascii_eqb ch "-" then
        match rest with [] => None | _ => Z.opp <$> digits_value base 0 rest end
      else digits_value base 0 tok
  end.

Definition scan_failed : error := Plain (lit "expected integer").
Definition scan_short : error := Plain (lit "unexpected EOF").

Definition scan_subj (line : list ascii) : subj_scan :=
  match fields [] line with
  | [] => SubjScan 0 (Some scan_short) 0 0 []
  | p :: rest =>
      match scan_int 8 p with
      | None => SubjScan 0 (Some scan_failed) 0 0 []
      | Some perm =>
          match rest with
          | [] => SubjScan 1 (Some scan_short) perm 0 []
          | s :: rest =>
              match scan_int 10 s with
              | None => SubjScan 1 (Some scan_failed) perm 0 []
              | Some size =>
                  match rest with
                  | [] => SubjScan 2 (Some scan_short) perm size []
                  | name :: _ => SubjScan 3 None perm size name
                  end
              end
          end
      end
  end.

Definition scan_times (line : list ascii) : times_scan :=
  match List.map (scan_int 10) (fields [] line) with
  | Some a :: Some b :: Some c :: Some d :: _ => TimesScan 4 None a b c d
  | Some a :: Some b :: Some c :: None :: _ => TimesScan 3 (Some scan_failed) a b c 0
  | Some a :: Some b :: Some c :: [] => TimesScan 3 (Some scan_short) a b c 0
  | Some a :: Some b :: None :: _ => TimesScan 2 (Some scan_failed) a b 0 0
  | Some a :: Some b :: [] => TimesScan 2 (Some scan_short) a b 0 0
  | Some a :: None :: _ => TimesScan 1 (Some scan_failed) a 0 0 0
  | Some a :: [] => TimesScan 1 (Some scan_short) a 0 0 0
  | None :: _ => TimesScan 0 (Some scan_failed) 0 0 0 0
  | [] => TimesScan 0 (Some scan_short) 0 0 0 0
  end.

Definition join (parent name : list ascii) : list ascii :=
  match parent, name with
  | [], _ => name
  | _, [] => parent
  | _, _ => parent ++ lit "/" ++ name
  end.

Fixpoint last_component (cur : list ascii) (s : list ascii) : list ascii :=
  match s with
  | [] => cur
  | ch :: s' => if ascii_eqb ch "/" then last_component [] s' else last_component (cur ++ [ch]) s'
  end.

Definition stdlib : GoLib :=
  {| Sscanf_subj := scan_subj;
     Sscanf_times := scan_times;
     path_Join := join;
     base_name := last_component [] |}.

(** A world to run on: the directory [t], nothing on standard input,
    an output that never fails. *)
Definition dir_node (mode : Z) : node := Node Directory mode [] zero_times.
Definition file_node (mode : Z) (data : list ascii) : node := Node Regular mode data zero_times.

Definition world_of (files : gmap (list ascii) node) (input : list ascii) : world :=
  World files (Reader input None) (Writer [] None) 18 None None [].

(** ** Frames and scenarios *)

Definition frame (prefix : ascii) (line : list ascii) : list ascii := prefix :: line ++ [NL].

Definition soft_frames (msgs : list (list ascii)) : list ascii :=
  concat (List.map (frame SOH) msgs).

Definition only_t : gmap (list ascii) node := {[ lit "t" := dir_node 493 ]}.

Definition recursive : options := Options true false false.
Definition plain : options := Options false false false.

(** A directory [d] is opened and closed, then a file [f] follows. *)
Definition after_end_input : list ascii :=
  frame "D" (lit "0755 0 d") ++ frame "E" [] ++ frame "C" (lit "0644 0 f") ++ [NUL].

Definition after_end_run : option (option error * world) :=
  sink (lib := stdlib) recursive 16 (world_of only_t after_end_input) (lit "t") false.

(** Times, then a soft error of the peer, then a file. *)
Definition times_then_error_input : list ascii :=
  frame "T" (lit "1000 0 2000 0") ++ frame SOH (lit "oops")
  ++ frame "C" (lit "0644 3 f") ++ lit "abc" ++ [NUL].

Definition times_then_error_run : option (option error * world) :=
  sink (lib := stdlib) plain 16 (world_of only_t times_then_error_input) (lit "t") false.

(** A read-only file [f] is received into the existing directory [t]. *)
Definition into_directory_input : list ascii :=
  frame "C" (lit "0444 3 f") ++ lit "abc" ++ [NUL].

Definition into_directory_run : option error * world :=
  sinkFile (lib := stdlib) plain (world_of only_t (lit "abc" ++ [NUL])) (lit "t")
    (lit "0444 3 f") None.

Definition fs_of (r : option (option error * world)) : gmap (list ascii) node :=
  match r with
  | Some (_, w) => fs w
  | None => ∅
  end.

(** The disk fills up two bytes into an eight-byte payload; more frames
    follow on the input. *)
Definition disk_full_world : world :=
  World {[ lit "f" := file_node 420 (lit "0123456789") ]}
    (Reader (lit "abcdefgh" ++ [NUL] ++ frame "C" (lit "0644 1 g")) None)
    (Writer [] None) 18 (Some 2%nat) None [].

(** The same transfer with a peer that sends the payload and its trailer
    and then waits for the answer. *)
Definition disk_full_alone : world :=
  World {[ lit "f" := file_node 420 (lit "0123456789") ]}
    (Reader (lit "abcdefgh" ++ [NUL]) None)
    (Writer [] None) 18 (Some 2%nat) None [].

(** Reading the five-byte file [a] fails after two bytes. *)
Definition unreadable_world : world :=
  World {[ lit "a" := file_node 420 (lit "hello") ]}
    (Reader [NUL] None) (Writer [] None) 18 None (Some 2%nat) [].

(** A three-byte payload for the existing ten-byte file [f]. *)
Definition shrink_world : world :=
  World {[ lit "f" := file_node 420 (lit "0123456789") ]}
    (Reader (lit "abc" ++ [NUL]) None) (Writer [] None) 18 None None [].

(** ** Notions used in the statements *)

Definition rest_of_input (w : world) (rest : list ascii) : world :=
  set_stdin w (Reader rest (r_fail (stdin w))).

(** The chunk [io.Copy] asks of a [LimitReader] with [N] bytes left. *)
Definition chunk (N : Z) : nat := Nat.min copy_buf (Z.to_nat N).

Definition input_error (w : world) : option error :=
  match r_fail (stdin w) with
  | None => None
  | Some msg => Some (OsError false msg)
  end.

(** The world once [bs] has gone out in full. *)
Definition emit (w : world) (bs : list ascii) : world :=
  set_stdout w (Writer (w_data (stdout w) ++ bs)
                  (match w_room (stdout w) with
                   | None => None
                   | Some room => Some (room - length bs)%nat
                   end)).

Definition has_room (w : world) (n : nat) : Prop :=
  match w_room (stdout w) with
  | None => True
  | Some room => (n <= room)%nat
  end.

Definition regular_at (m : gmap (list ascii) node) (name : list ascii) : Prop :=
  exists nd, m !! name = Some nd /\ n_kind nd = Regular.

Definition holds_file (m : gmap (list ascii) node) (name : list ascii) (size : Z) : Prop :=
  exists nd, m !! name = Some nd /\ n_kind nd = Regular /\ Size nd = size.

(** How much of the input is still to be read. *)
Definition input_left (w : world) : nat := length (r_data (stdin w)).

(** ** Further notions used in the statements *)

(** What a reply of the peer means to [ack]. *)
Definition reply_error (kind : ascii) (line : list ascii) : error :=
  if ascii_eqb kind SOH then Plain line
  else if ascii_eqb kind STX then FatalError line
  else protocolErr.

(** The world once the file opened as [name] holds [nd] and the input
    has come down to [rest], on a disk that never fills up. *)
Definition stored (w : world) (name : list ascii) (nd : node) (rest : list ascii) : world :=
  set_disk (rest_of_input w rest) (<[name := nd]> (fs w)) None.

(** The lines [send] and [sendAttr] write for a file. *)
Definition file_header {lib : GoLib} (st : node) (fname : list ascii) : list ascii :=
  lit "C" ++ fmt_04o (toPosixPerm (n_mode st)) ++ lit " "
  ++ fmt_d (Size st) ++ lit " " ++ base_name fname ++ [NL].

Definition times_line (st : node) : list ascii :=
  lit "T" ++ fmt_d (Sec (Mtime (n_times st))) ++ lit " 0 "
  ++ fmt_d (Sec (Atime (n_times st))) ++ lit " 0" ++ [NL].


(** What [send] writes for a regular file: the times line with [-p],
    the header, the content and the closing zero byte. *)
Definition file_frames {lib : GoLib} (opts : options) (st : node) (fname : list ascii)
  : list ascii :=
  (if preserveAttrs opts then times_line st else [])
  ++ file_header st fname ++ n_data st ++ [NUL].

Definition sent_files {lib : GoLib} (opts : options) (m : gmap (list ascii) node)
    (paths : list (list ascii)) : list ascii :=
  flat_map (fun p => match m !! p with
                     | Some st => file_frames opts st p
                     | None => []
                     end) paths.

(** *** The source *)

(** The loop of [source] over the paths still to send; [sendErrs] holds
    the soft errors of the paths already sent. *)
Fixpoint source_loop {lib : GoLib} (opts : options)
    (sendDir : world -> list ascii -> node -> option error * world)
    (w : world) (paths : list (list ascii)) (sendErrs : list error)
  : option error * world :=
  match paths with
  | [] => (acc_or_nil sendErrs, w)
  | path :: paths =>
      match send opts sendDir w path with
      | (err, w) =>
          if isFatal err then (err, w)
          else source_loop opts sendDir w paths (sendErrs ++ opt_list err)
      end
  end.

Definition source {lib : GoLib} (opts : options)
    (sendDir : world -> list ascii -> node -> option error * world)
    (w : world) (paths : list (list ascii)) : option error * world :=
  match ack w with
  | (Some err, w) => (Some err, w)
  | (None, w) => source_loop opts sendDir w paths []
  end.

(** *** What goes over the wire for a file *)

(** The header line of a file, between the [C] and the newline. *)
Definition subj_line {lib : GoLib} (st : node) (fname : list ascii) : list ascii :=
  fmt_04o (toPosixPerm (n_mode st)) ++ lit " " ++ fmt_d (Size st) ++ lit " "
  ++ base_name fname.

(** The times line of a file, between the [T] and the newline. *)
Definition times_body (st : node) : list ascii :=
  fmt_d (Sec (Mtime (n_times st))) ++ lit " 0 " ++ fmt_d (Sec (Atime (n_times st)))
  ++ lit " 0".

(** The times a [T] line of [st] carries: whole seconds. *)
Definition sent_times (st : node) : FileTimes :=
  Build_FileTimes (Build_Timeval (Sec (Atime (n_times st))) 0)
                  (Build_Timeval (Sec (Mtime (n_times st))) 0).

(** [m'] still has every entry of [m], each of the kind it had. *)
Definition keeps (m m' : gmap (list ascii) node) : Prop :=
  forall name nd, m !! name = Some nd ->
  exists nd', m' !! name = Some nd' /\ n_kind nd' = n_kind nd.


(** ** Mode translation *)

(** *** Bit-level description of the two translations *)

Lemma land_pow2_testbit (x k : Z) :
  0 <= k -> (Z.land x (2 ^ k) =? 0) = negb (Z.testbit x k).
Proof.
  intros Hk.
  destruct (Z.testbit x k) eqn:Hb; simpl.
  - apply Z.eqb_neq. intros H0.
    assert (Hc : Z.testbit (Z.land x (2 ^ k)) k = true).
    { rewrite Z.land_spec, Hb, Z.pow2_bits_true by lia. reflexivity. }
    rewrite H0, Z.bits_0 in Hc. discriminate.
  - apply Z.eqb_eq. apply Z.bits_inj'. intros n Hn.
    rewrite Z.land_spec, Z.bits_0, Z.pow2_bits_eqb by lia.
    destruct (Z.eqb_spec k n) as [->|]; [ rewrite Hb | ]; apply andb_false_r || reflexivity.
Qed.

Lemma testbit_ModePerm (n : Z) : 0 <= n -> Z.testbit ModePerm n = (n <? 9).
Proof.
  intros Hn. change ModePerm with (Z.ones 9).
  destruct (Z.ltb_spec n 9).
  - apply Z.ones_spec_low. lia.
  - apply Z.ones_spec_high. lia.
Qed.

Lemma testbit_flag (c : bool) (k n : Z) (base : Z) :
  0 <= k -> 0 <= n ->
  Z.testbit (if c then Z.lor base (2 ^ k) else base) n
  = Z.testbit base n || (c && (k =? n)).
Proof.
  intros Hk Hn. destruct c; simpl.
  - rewrite Z.lor_spec, Z.pow2_bits_eqb by lia. reflexivity.
  - rewrite orb_false_r. reflexivity.
Qed.

Lemma testbit_toStdPerm (x n : Z) :
  0 <= n ->
  Z.testbit (toStdPerm x) n
  = (Z.testbit x n && (n <? 9))
    || (Z.testbit x 11 && (23 =? n)) || (Z.testbit x 10 && (22 =? n)).
Proof.
  intros Hn. unfold toStdPerm.
  change S_ISUID with (2 ^ 11). change S_ISGID with (2 ^ 10).
  change ModeSetuid with (2 ^ 23). change ModeSetgid with (2 ^ 22).
  rewrite !land_pow2_testbit, !negb_involutive by lia.
  rewrite !testbit_flag by lia.
  rewrite Z.land_spec, testbit_ModePerm by lia.
  unfold uint32.
  destruct (Z.ltb_spec n 9) as [Hlt|Hge].
  - rewrite Z.mod_pow2_bits_low by lia. reflexivity.
  - rewrite !andb_false_r. reflexivity.
Qed.

Lemma testbit_toPosixPerm (m n : Z) :
  0 <= n ->
  Z.testbit (toPosixPerm m) n
  = (Z.testbit m n && (n <? 9))
    || (Z.testbit m 23 && (11 =? n)) || (Z.testbit m 22 && (10 =? n)).
Proof.
  intros Hn. unfold toPosixPerm.
  change S_ISUID with (2 ^ 11). change S_ISGID with (2 ^ 10).
  change ModeSetuid with (2 ^ 23). change ModeSetgid with (2 ^ 22).
  rewrite !land_pow2_testbit, !negb_involutive by lia.
  rewrite !testbit_flag by lia.
  rewrite Z.land_spec, testbit_ModePerm by lia.
  reflexivity.
Qed.

Lemma testbit_posix_bits (n : Z) :
  0 <= n -> Z.testbit posix_bits n = (n <? 9) || (11 =? n) || (10 =? n).
Proof.
  intros Hn. unfold posix_bits.
  change S_ISUID with (2 ^ 11). change S_ISGID with (2 ^ 10).
  rewrite !Z.lor_spec, testbit_ModePerm, !Z.pow2_bits_eqb by lia.
  apply orb_assoc.
Qed.

Lemma testbit_std_bits (n : Z) :
  0 <= n -> Z.testbit std_bits n = (n <? 9) || (23 =? n) || (22 =? n).
Proof.
  intros Hn. unfold std_bits.
  change ModeSetuid with (2 ^ 23). change ModeSetgid with (2 ^ 22).
  rewrite !Z.lor_spec, testbit_ModePerm, !Z.pow2_bits_eqb by lia.
  apply orb_assoc.
Qed.

Lemma toStdPerm_only_std_bits (x : Z) : only_bits std_bits (toStdPerm x).
Proof.
  apply Z.bits_inj'. intros n Hn.
  rewrite Z.land_spec, testbit_std_bits, testbit_toStdPerm by lia.
  destruct (Z.testbit x n), (n <? 9), (Z.testbit x 11), (23 =? n),
    (Z.testbit x 10), (22 =? n); reflexivity.
Qed.

Lemma toPosixPerm_only_posix_bits (m : Z) : only_bits posix_bits (toPosixPerm m).
Proof.
  apply Z.bits_inj'. intros n Hn.
  rewrite Z.land_spec, testbit_posix_bits, testbit_toPosixPerm by lia.
  destruct (Z.testbit m n), (n <? 9), (Z.testbit m 23), (11 =? n),
    (Z.testbit m 22), (10 =? n); reflexivity.
Qed.

(** C9. For every POSIX mode [x] made only of the permitted bits (the low
    nine permission bits, setuid 04000 and setgid 02000),
    [toPosixPerm (toStdPerm x) = x]; and whatever the arguments [y] and
    [m], the result of [toStdPerm] has no bit outside the permission,
    setuid and setgid bits of [os.FileMode], and the result of
    [toPosixPerm] has no bit outside 06777. *)
Theorem mode_round_trip (x : Z) :
  only_bits posix_bits x ->
  toPosixPerm (toStdPerm x) = x
  /\ (forall y, only_bits std_bits (toStdPerm y))
  /\ (forall m, only_bits posix_bits (toPosixPerm m)).
Proof.
  intros Hx.
  split; [ | split; [ apply toStdPerm_only_std_bits | apply toPosixPerm_only_posix_bits ] ].
  apply Z.bits_inj'. intros n Hn.
  assert (Hbit : Z.testbit x n = Z.testbit x n && Z.testbit posix_bits n).
  { rewrite <- Z.land_spec, Hx. reflexivity. }
  rewrite testbit_posix_bits in Hbit by lia.
  rewrite testbit_toPosixPerm by lia.
  rewrite !testbit_toStdPerm by lia.
  change (23 =? 23) with true. change (22 =? 22) with true.
  change (23 <? 9) with false. change (22 <? 9) with false.
  change (22 =? 23) with false. change (23 =? 22) with false.
  rewrite !andb_false_r, !andb_true_r, !orb_false_r, !orb_false_l.
  destruct (Z.ltb_spec n 9) as [Hlt|Hge].
  - replace (23 =? n) with false by (symmetry; apply Z.eqb_neq; lia).
    replace (22 =? n) with false by (symmetry; apply Z.eqb_neq; lia).
    replace (11 =? n) with false by (symmetry; apply Z.eqb_neq; lia).
    replace (10 =? n) with false by (symmetry; apply Z.eqb_neq; lia).
    rewrite !andb_false_r, !andb_true_r, !orb_false_r. reflexivity.
  - rewrite !andb_false_r, !orb_false_l.
    destruct (Z.eqb_spec 11 n) as [<-|H11].
    { change (10 =? 11) with false. rewrite andb_true_r, andb_false_r, orb_false_r. reflexivity. }
    destruct (Z.eqb_spec 10 n) as [<-|H10].
    { rewrite andb_true_r, andb_false_r. reflexivity. }
    rewrite Hbit. simpl. rewrite !andb_false_r. reflexivity.
Qed.

Lemma mode_round_trip_witness :
  toPosixPerm (toStdPerm 2541) = 2541
  /\ (forall y, only_bits std_bits (toStdPerm y))
  /\ (forall m, only_bits posix_bits (toPosixPerm m)).
Proof. apply (mode_round_trip 2541). reflexivity. Defined.

(** * Properties *)

(** ** Reading frames *)

Lemma until_newline_line (line rest acc : list ascii) :
  NL ∉ line -> until_newline acc (line ++ NL :: rest) = Some (acc ++ line, rest).
Proof.
  revert acc. induction line as [|ch line IH]; intros acc Hnl; simpl.
  - rewrite app_nil_r. reflexivity.
  - apply not_elem_of_cons in Hnl as [Hch Hline].
    unfold ascii_eqb. destruct (Ascii.eqb_spec ch NL) as [->|_]; [ congruence | ].
    rewrite IH by assumption. rewrite <- app_assoc. reflexivity.
Qed.

Lemma in_ReadByte_cons (w : world) (ch : ascii) (rest : list ascii) :
  r_data (stdin w) = ch :: rest -> in_ReadByte w = (inr ch, rest_of_input w rest).
Proof. intros H. unfold in_ReadByte. rewrite H. reflexivity. Qed.

Lemma readLine_line (w : world) (line rest : list ascii) :
  r_data (stdin w) = line ++ NL :: rest -> NL ∉ line ->
  readLine w = (inr line, rest_of_input w rest).
Proof.
  intros H Hnl. unfold readLine. rewrite H, until_newline_line by assumption.
  reflexivity.
Qed.

Lemma read_frame (w : world) (prefix : ascii) (line rest : list ascii) :
  r_data (stdin w) = prefix :: line ++ NL :: rest -> NL ∉ line ->
  in_ReadByte w = (inr prefix, rest_of_input w (line ++ NL :: rest))
  /\ readLine (rest_of_input w (line ++ NL :: rest)) = (inr line, rest_of_input w rest).
Proof.
  intros H Hnl. split.
  - apply in_ReadByte_cons, H.
  - apply (readLine_line (rest_of_input w (line ++ NL :: rest))); [ reflexivity | assumption ].
Qed.

(** ** What each operation leaves alone *)

Lemma out_Print_fs (s : list ascii) (w : world) : fs (snd (out_Print s w)) = fs w.
Proof.
  unfold out_Print, out_Write.
  destruct (w_room (stdout w)) as [room|]; [ destruct (length s <=? room)%nat | ]; reflexivity.
Qed.

Lemma sendError_fs (w : world) (err : error) : fs (snd (sendError w err)) = fs w.
Proof.
  unfold sendError.
  pose proof (out_Print_fs ([SOH] ++ error_body err ++ [NL]) w) as H.
  destruct (out_Print _ w) as [[e|] w']; exact H.
Qed.

Lemma teeError_fs (w : world) (err : error) : fs (snd (teeError w err)) = fs w.
Proof.
  unfold teeError. pose proof (sendError_fs w err) as H.
  destruct (sendError w err) as [[e|] w']; exact H.
Qed.

Lemma sendError_fatal (w : world) (err e : error) (w' : world) :
  sendError w err = (Some e, w') -> isFatal (Some e) = true.
Proof.
  unfold sendError. destruct (out_Print _ w) as [[e0|] w0]; intros H; inversion H. reflexivity.
Qed.

Lemma teeError_fatal (w : world) (msg : list ascii) :
  isFatal (fst (teeError w (FatalError msg))) = true.
Proof.
  unfold teeError. destruct (sendError w (FatalError msg)) as [[e|] w'] eqn:H; simpl.
  - eapply sendError_fatal, H.
  - reflexivity.
Qed.

Lemma teeError_is_error (w : world) (err : error) : fst (teeError w err) <> None.
Proof. unfold teeError. destruct (sendError w err) as [[e|] w']; discriminate. Qed.

(** ** The error line *)

Lemma Replace_newlines_no_newline (s : list ascii) : NL ∉ Replace_newlines s.
Proof.
  induction s as [|ch s IH]; simpl.
  - apply not_elem_of_nil.
  - unfold ascii_eqb. destruct (Ascii.eqb_spec ch NL) as [->|Hne].
    + intros Hin. apply elem_of_app in Hin as [Hin|Hin]; [ | contradiction ].
      revert Hin. apply (bool_decide_unpack _). vm_compute. exact I.
    + intros Hin. apply elem_of_cons in Hin as [Heq|Hin]; [ congruence | contradiction ].
Qed.

Lemma Replace_newlines_app (a b : list ascii) :
  Replace_newlines (a ++ b) = Replace_newlines a ++ Replace_newlines b.
Proof.
  induction a as [|ch a IH]; simpl; [ reflexivity | ].
  rewrite IH, app_assoc. reflexivity.
Qed.

Lemma Replace_newlines_id (s : list ascii) : NL ∉ s -> Replace_newlines s = s.
Proof.
  induction s as [|ch s IH]; intros Hnl; simpl; [ reflexivity | ].
  apply not_elem_of_cons in Hnl as [Hch Hs].
  unfold ascii_eqb. destruct (Ascii.eqb_spec ch NL) as [->|_]; [ congruence | ].
  simpl. rewrite IH by assumption. reflexivity.
Qed.

Lemma dots_no_newline : NL ∉ lit "...".
Proof.
  apply (bool_decide_unpack _). vm_compute. exact I.
Qed.

Lemma error_body_no_newline (err : error) : NL ∉ error_body err.
Proof.
  unfold error_body.
  destruct (MaxErrLen - 3 <? length (Replace_newlines (Error err)))%nat.
  - intros Hin. apply elem_of_app in Hin as [Hin|Hin].
    + apply elem_of_take in Hin as (i & Hi & _).
      apply (Replace_newlines_no_newline (Error err)).
      eapply list_elem_of_lookup_2, Hi.
    + exact (dots_no_newline Hin).
  - apply Replace_newlines_no_newline.
Qed.

Lemma error_body_length (err : error) : (length (error_body err) <= MaxErrLen - 3)%nat.
Proof.
  unfold error_body.
  destruct (Nat.ltb_spec (MaxErrLen - 3) (length (Replace_newlines (Error err)))) as [Hlt|Hge].
  - rewrite length_app, length_take. change (length (lit "...")) with 3%nat.
    unfold MaxErrLen in *. lia.
  - exact Hge.
Qed.

Lemma rest_of_input_same (w : world) (rest : list ascii) :
  r_data (stdin w) = rest -> rest_of_input w rest = w.
Proof.
  destruct w as [m [d f] o u dr rl dn]. simpl. intros ->. reflexivity.
Qed.

Lemma ContainsRune_elem (s : list ascii) (r : ascii) : r ∈ s -> ContainsRune s r = true.
Proof.
  intros Hin. unfold ContainsRune. apply existsb_exists.
  exists r. split.
  - apply list_elem_of_In, Hin.
  - unfold ascii_eqb. apply Ascii.eqb_refl.
Qed.

Section Sink.
Context {lib : GoLib} (opts : options).

(** ** One turn of the dispatch loop, by kind of frame *)

Lemma sink_loop_soft (fuel : nat) (w : world) (path : list ascii) (recur : bool)
    (errs : list error) (times : option FileTimes) (first : bool) (msg rest : list ascii) :
  r_data (stdin w) = frame SOH msg ++ rest -> NL ∉ msg ->
  sink_loop opts (S fuel) w path recur errs times first
  = sink_loop opts fuel (rest_of_input w rest) path recur (errs ++ [Plain msg]) times false.
Proof.
  unfold frame. simpl. rewrite <- app_assoc. simpl. intros H Hnl.
  destruct (read_frame w SOH msg rest H Hnl) as [Hb Hl].
  cbn [sink_loop]. rewrite Hb, Hl. reflexivity.
Qed.

Lemma sink_loop_fatal (fuel : nat) (w : world) (path : list ascii) (recur : bool)
    (errs : list error) (times : option FileTimes) (first : bool) (msg rest : list ascii) :
  r_data (stdin w) = frame STX msg ++ rest -> NL ∉ msg ->
  sink_loop opts (S fuel) w path recur errs times first
  = Some (Some (FatalError msg), rest_of_input w rest).
Proof.
  unfold frame. simpl. rewrite <- app_assoc. simpl. intros H Hnl.
  destruct (read_frame w STX msg rest H Hnl) as [Hb Hl].
  cbn [sink_loop]. rewrite Hb, Hl. reflexivity.
Qed.

Lemma sink_loop_end (fuel : nat) (w : world) (path : list ascii)
    (errs : list error) (times : option FileTimes) (first : bool) (rest : list ascii) :
  r_data (stdin w) = frame "E" [] ++ rest ->
  sink_loop opts (S fuel) w path true errs times first
  = match out_Print [NUL] (rest_of_input w rest) with
    | (Some err, w') => Some (Some (FatalError (Error err)), w')
    | (None, w') => sink_loop opts fuel w' path true errs times false
    end.
Proof.
  unfold frame. simpl. intros H.
  destruct (read_frame w "E" [] rest H (not_elem_of_nil NL)) as [Hb Hl].
  cbn [sink_loop]. rewrite Hb, Hl. reflexivity.
Qed.

Lemma sink_loop_file (fuel : nat) (w : world) (path : list ascii) (recur : bool)
    (errs : list error) (times : option FileTimes) (first : bool) (line rest : list ascii) :
  r_data (stdin w) = frame "C" line ++ rest -> NL ∉ line ->
  sink_loop opts (S fuel) w path recur errs times first
  = let (err, w') := sinkFile opts (rest_of_input w rest) path line times in
    if isFatal err then Some (err, w')
    else sink_loop opts fuel w' path recur (errs ++ opt_list err) None false.
Proof.
  unfold frame. simpl. rewrite <- app_assoc. simpl. intros H Hnl.
  destruct (read_frame w "C" line rest H Hnl) as [Hb Hl].
  cbn [sink_loop]. rewrite Hb, Hl. reflexivity.
Qed.

Lemma sink_loop_dir (fuel : nat) (w : world) (path : list ascii) (recur : bool)
    (errs : list error) (times : option FileTimes) (first : bool) (line rest : list ascii) :
  r_data (stdin w) = frame "D" line ++ rest -> NL ∉ line ->
  sink_loop opts (S fuel) w path recur errs times first
  = match sinkDir opts fuel (rest_of_input w rest) path line times with
    | None => None
    | Some (err, w') =>
        if isFatal err then Some (err, w')
        else sink_loop opts fuel w' path recur (errs ++ opt_list err) None false
    end.
Proof.
  unfold frame. simpl. rewrite <- app_assoc. simpl. intros H Hnl.
  destruct (read_frame w "D" line rest H Hnl) as [Hb Hl].
  cbn [sink_loop]. rewrite Hb, Hl. reflexivity.
Qed.

(** The loop over a run of soft-error frames: each message is recorded,
    nothing else of the loop's state changes. *)
Lemma sink_loop_softs (msgs : list (list ascii)) :
  forall (fuel : nat) (w : world) (path : list ascii) (recur : bool)
         (errs : list error) (times : option FileTimes) (first : bool) (rest : list ascii),
  Forall (fun m => NL ∉ m) msgs ->
  r_data (stdin w) = soft_frames msgs ++ rest ->
  sink_loop opts (length msgs + fuel) w path recur errs times first
  = sink_loop opts fuel (rest_of_input w rest) path recur (errs ++ List.map Plain msgs) times
      (match msgs with [] => first | _ => false end).
Proof.
  induction msgs as [|m msgs IH]; intros fuel w path recur errs times first rest Hall H.
  - simpl in *. rewrite app_nil_r, rest_of_input_same by assumption. reflexivity.
  - inversion Hall as [|? ? Hm Hms]; subst.
    unfold soft_frames in H. simpl in H. rewrite <- app_assoc in H.
    change (length (m :: msgs) + fuel)%nat with (S (length msgs + fuel)).
    rewrite (sink_loop_soft _ w _ _ _ _ _ m (soft_frames msgs ++ rest)) by assumption.
    rewrite (IH fuel _ path recur _ times false rest Hms) by reflexivity.
    simpl. rewrite <- app_assoc. simpl.
    destruct msgs; reflexivity.
Qed.

(** ** Header lines with a bad name *)

Lemma parseSubj_invalid_name (line : list ascii) :
  ss_name (Sscanf_subj line) = lit ".." \/ "/"%char ∈ ss_name (Sscanf_subj line) ->
  exists perm size name err, parseSubj line = (perm, size, name, Some err).
Proof.
  intros Hbad. unfold parseSubj.
  destruct (ss_err (Sscanf_subj line)) as [e|]; [ eauto | ].
  destruct (negb (ss_n (Sscanf_subj line) =? 3)); [ eauto | ].
  assert (Hc : bytes_eqb (ss_name (Sscanf_subj line)) (lit "..")
               || ContainsRune (ss_name (Sscanf_subj line)) "/" = true).
  { destruct Hbad as [Heq|Hin].
    - unfold bytes_eqb. rewrite bool_decide_eq_true_2 by exact Heq. reflexivity.
    - rewrite (ContainsRune_elem _ _ Hin). apply orb_true_r. }
  rewrite Hc. eauto.
Qed.

Lemma sinkFile_parse_error (w : world) (name line : list ascii) (times : option FileTimes)
    (perm size : Z) (subj : list ascii) (err : error) :
  parseSubj line = (perm, size, subj, Some err) ->
  sinkFile opts w name line times = teeError w (FatalError (Error err)).
Proof. intros H. unfold sinkFile. rewrite H. reflexivity. Qed.

Lemma sinkDir_parse_error (fuel : nat) (w : world) (parent line : list ascii)
    (times : option FileTimes) (perm size : Z) (subj : list ascii) (err : error) :
  parseSubj line = (perm, size, subj, Some err) ->
  exists msg, sinkDir opts (S fuel) w parent line times = Some (teeError w (FatalError msg)).
Proof.
  intros H. cbn [sinkDir]. destruct (negb (iamRecursive opts)); [ eauto | ].
  rewrite H. eauto.
Qed.

End Sink.

(** ** The claims about the dispatch loop *)

(** C1 (the code departs from it). On [D0755 0 d], [E], [C0644 0 f] sent
    to the target [t], the [E] frame is acknowledged but the inner [sink]
    does not return: the file that follows the end of [d] is created as
    [t/d/f], and nothing is created as [t/f]. *)
Theorem end_frame_does_not_leave_directory :
  (exists w, after_end_run = Some (None, w)
             /\ w_data (stdout w) = [NUL; NUL; NUL; NUL; NUL]
             /\ r_data (stdin w) = [])
  /\ fs_of after_end_run !! lit "t/d/f" = Some (file_node 420 [])
  /\ fs_of after_end_run !! lit "t/f" = None.
Proof.
  split; [ | split ].
  - eexists. split; [ vm_compute; reflexivity | split; reflexivity ].
  - vm_compute. reflexivity.
  - vm_compute. reflexivity.
Qed.

(** C2, as stated, fails: with a soft-error frame between the [T] frame
    and the [C] frame, the times of the [T] frame are still applied to
    the file. *)
Lemma times_applied_across_soft_error :
  fs_of times_then_error_run !! lit "t/f"
  = Some (Node Regular 420 (lit "abc")
            (Build_FileTimes (Build_Timeval 2000 0) (Build_Timeval 1000 0))).
Proof. vm_compute. reflexivity. Qed.

(** C2, amended. Pending times stay pending while the loop handles
    soft-error frames: after any run of [\x01] frames, the next [C] or
    [D] frame of the same [sink] call is handled with the pending times,
    and the loop goes on with none pending. *)
Theorem pending_times_wait_for_file_or_dir {lib : GoLib} (opts : options)
    (msgs : list (list ascii)) (fuel : nat) (w : world) (path : list ascii) (recur : bool)
    (errs : list error) (t : FileTimes) (first : bool) (line rest : list ascii) :
  Forall (fun m => NL ∉ m) msgs -> NL ∉ line ->
  (r_data (stdin w) = soft_frames msgs ++ frame "C" line ++ rest ->
   sink_loop opts (length msgs + S fuel) w path recur errs (Some t) first
   = let (err, w') := sinkFile opts (rest_of_input w rest) path line (Some t) in
     if isFatal err then Some (err, w')
     else sink_loop opts fuel w' path recur
            ((errs ++ List.map Plain msgs) ++ opt_list err) None false)
  /\
  (r_data (stdin w) = soft_frames msgs ++ frame "D" line ++ rest ->
   sink_loop opts (length msgs + S fuel) w path recur errs (Some t) first
   = match sinkDir opts fuel (rest_of_input w rest) path line (Some t) with
     | None => None
     | Some (err, w') =>
         if isFatal err then Some (err, w')
         else sink_loop opts fuel w' path recur
                ((errs ++ List.map Plain msgs) ++ opt_list err) None false
     end).
Proof.
  intros Hmsgs Hline. split; intros H.
  - rewrite (sink_loop_softs opts msgs (S fuel) w path recur errs (Some t) first _ Hmsgs H).
    apply (sink_loop_file opts fuel (rest_of_input w (frame "C" line ++ rest)));
      [ reflexivity | assumption ].
  - rewrite (sink_loop_softs opts msgs (S fuel) w path recur errs (Some t) first _ Hmsgs H).
    apply (sink_loop_dir opts fuel (rest_of_input w (frame "D" line ++ rest)));
      [ reflexivity | assumption ].
Qed.

Lemma pending_times_wait_for_file_or_dir_witness :
  let w := world_of only_t (soft_frames [lit "oops"] ++ frame "C" (lit "0644 3 f")
                            ++ lit "abc" ++ [NUL]) in
  let t := Build_FileTimes (Build_Timeval 2000 0) (Build_Timeval 1000 0) in
  sink_loop (lib := stdlib) plain 3 w (lit "t") false [] (Some t) false
  = let (err, w') := sinkFile (lib := stdlib) plain (rest_of_input w (lit "abc" ++ [NUL]))
                       (lit "t") (lit "0644 3 f") (Some t) in
    if isFatal err then Some (err, w')
    else sink_loop (lib := stdlib) plain 1 w' (lit "t") false
           (([] ++ List.map Plain [lit "oops"]) ++ opt_list err) None false.
Proof.
  intros w t.
  apply (pending_times_wait_for_file_or_dir (lib := stdlib) plain [lit "oops"] 1 w (lit "t")
           false [] t false (lit "0644 3 f") (lit "abc" ++ [NUL])).
  - repeat constructor. apply (bool_decide_unpack _). vm_compute. exact I.
  - apply (bool_decide_unpack _). vm_compute. exact I.
  - reflexivity.
Defined.

(** C10. When the dispatch loop reads a [\x02] frame it returns the fatal
    error made of that frame's message alone: whatever soft errors the
    call had accumulated ([errs]), and whatever [\x01] frames came just
    before ([msgs]), none of them is in the result. *)
Theorem fatal_frame_discards_soft_errors {lib : GoLib} (opts : options)
    (msgs : list (list ascii)) (fuel : nat) (w : world) (path : list ascii) (recur : bool)
    (errs : list error) (times : option FileTimes) (first : bool) (msg rest : list ascii) :
  Forall (fun m => NL ∉ m) msgs -> NL ∉ msg ->
  r_data (stdin w) = soft_frames msgs ++ frame STX msg ++ rest ->
  sink_loop opts (length msgs + S fuel) w path recur errs times first
  = Some (Some (FatalError msg), rest_of_input w rest).
Proof.
  intros Hmsgs Hmsg H.
  rewrite (sink_loop_softs opts msgs (S fuel) w path recur errs times first _ Hmsgs H).
  apply (sink_loop_fatal opts fuel (rest_of_input w (frame STX msg ++ rest)));
    [ reflexivity | assumption ].
Qed.

Lemma fatal_frame_discards_soft_errors_witness :
  let w := world_of only_t (soft_frames [lit "one"; lit "two"] ++ frame STX (lit "broken")
                            ++ lit "C0644 3 f") in
  sink_loop (lib := stdlib) plain 3 w (lit "t") false [Plain (lit "zero")] None false
  = Some (Some (FatalError (lit "broken")), rest_of_input w (lit "C0644 3 f")).
Proof.
  intros w.
  apply (fatal_frame_discards_soft_errors (lib := stdlib) plain [lit "one"; lit "two"] 0 w).
  - repeat constructor; apply (bool_decide_unpack _); vm_compute; exact I.
  - apply (bool_decide_unpack _). vm_compute. exact I.
  - reflexivity.
Defined.

(** C5. A [C] or [D] header whose parsed name is [..] or contains [/]
    makes the sink return a fatal error, and the file system is left as
    it was: nothing is opened, created or made for that frame. *)
Theorem invalid_name_is_fatal {lib : GoLib} (opts : options) (fuel : nat) (w : world)
    (path : list ascii) (recur : bool) (errs : list error) (times : option FileTimes)
    (first : bool) (prefix : ascii) (line rest : list ascii) :
  prefix = "C"%char \/ prefix = "D"%char ->
  r_data (stdin w) = frame prefix line ++ rest -> NL ∉ line ->
  ss_name (Sscanf_subj line) = lit ".." \/ "/"%char ∈ ss_name (Sscanf_subj line) ->
  exists e w',
    sink_loop opts (S (S fuel)) w path recur errs times first = Some (Some e, w')
    /\ isFatal (Some e) = true
    /\ fs w' = fs w.
Proof.
  intros Hprefix H Hnl Hbad.
  destruct (parseSubj_invalid_name line Hbad) as (perm & size & subj & err & Hparse).
  assert (Htee : forall msg, exists e w',
            teeError (rest_of_input w rest) (FatalError msg) = (Some e, w')
            /\ isFatal (Some e) = true /\ fs w' = fs w).
  { intros msg.
    pose proof (teeError_fatal (rest_of_input w rest) msg) as Hf.
    pose proof (teeError_fs (rest_of_input w rest) (FatalError msg)) as Hfs.
    destruct (teeError (rest_of_input w rest) (FatalError msg)) as [[e|] w'];
      simpl in *; [ | discriminate ].
    exists e, w'. auto. }
  destruct Hprefix as [-> | ->].
  - rewrite (sink_loop_file opts (S fuel) w path recur errs times first line rest H Hnl).
    rewrite (sinkFile_parse_error opts _ path line times perm size subj err Hparse).
    destruct (Htee (Error err)) as (e & w' & -> & Hf & Hfs).
    rewrite Hf. eauto.
  - rewrite (sink_loop_dir opts (S fuel) w path recur errs times first line rest H Hnl).
    destruct (sinkDir_parse_error opts fuel (rest_of_input w rest) path line times
                perm size subj err Hparse) as [msg ->].
    destruct (Htee msg) as (e & w' & -> & Hf & Hfs).
    rewrite Hf. eauto.
Qed.

Lemma invalid_name_is_fatal_witness :
  let w := world_of only_t (frame "C" (lit "0644 3 ../x") ++ lit "abc") in
  exists e w',
    sink_loop (lib := stdlib) plain 2 w (lit "t") false [] None true = Some (Some e, w')
    /\ isFatal (Some e) = true
    /\ fs w' = fs w.
Proof.
  intros w.
  apply (invalid_name_is_fatal (lib := stdlib) plain 0 w (lit "t") false [] None true
           "C"%char (lit "0644 3 ../x") (lit "abc")).
  - left. reflexivity.
  - reflexivity.
  - apply (bool_decide_unpack _). vm_compute. exact I.
  - right. apply (bool_decide_unpack _). vm_compute. exact I.
Defined.

(** C7 (the code departs from it). A file [f] declared [0444] and
    received into the existing directory [t] is newly created as [t/f],
    yet it is not chmoded: it keeps the mode it was opened with,
    [(0444 | 0200) &^ umask = 0644]. *)
Theorem new_file_in_directory_keeps_open_mode :
  fs (world_of only_t (lit "abc" ++ [NUL])) !! lit "t/f" = None
  /\ preserveAttrs plain = false
  /\ fst into_directory_run = None
  /\ fs (snd into_directory_run) !! lit "t/f" = Some (file_node 420 (lit "abc"))
  /\ toStdPerm 292 = 292.
Proof. repeat split; vm_compute; reflexivity. Qed.

(** ** The error line on the wire *)

(** C8. [sendError] replaces every newline of the message by [; ] and
    hands the line [\x01] + body + [\n] to the output; the body holds no
    newline, the line followed by a [\x00] byte is at most 1024 bytes
    long, and a body that had to be cut is the first 1018 bytes followed
    by [...]. *)
Theorem sendError_frame (w : world) (err : error) :
  w_room (stdout w) = None ->
  let flat := Replace_newlines (Error err) in
  let body := error_body err in
  sendError w err
  = (None, set_stdout w (Writer (w_data (stdout w) ++ [SOH] ++ body ++ [NL]) None))
  /\ flat = concat (List.map (fun ch => if ascii_eqb ch NL then lit "; " else [ch]) (Error err))
  /\ (NL ∉ body)
  /\ (length ([SOH] ++ body ++ [NL] ++ [NUL]) <= 1024)%nat
  /\ (if (1021 <? length flat)%nat then body = take 1018 flat ++ lit "..." else body = flat).
Proof.
  intros Hroom flat body. repeat split.
  - unfold sendError, out_Print, out_Write. rewrite Hroom. reflexivity.
  - subst flat. induction (Error err) as [|ch s IH]; simpl; [ reflexivity | ].
    rewrite IH. reflexivity.
  - apply error_body_no_newline.
  - pose proof (error_body_length err) as Hlen. subst body.
    rewrite !length_app. simpl. unfold MaxErrLen in Hlen. lia.
  - subst body flat. unfold error_body.
    change (MaxErrLen - 3)%nat with 1021%nat. change (MaxErrLen - 6)%nat with 1018%nat.
    destruct (1021 <? length (Replace_newlines (Error err)))%nat; reflexivity.
Qed.

Lemma sendError_frame_witness :
  sendError (world_of ∅ []) (Plain (lit "a" ++ [NL] ++ lit "b"))
  = (None, set_stdout (world_of ∅ []) (Writer ([SOH] ++ lit "a; b" ++ [NL]) None)).
Proof.
  exact (proj1 (sendError_frame (world_of ∅ []) (Plain (lit "a" ++ [NL] ++ lit "b")) eq_refl)).
Defined.

(** ** Facts about [io.Copy] *)

Lemma copy_buf_pos : (0 < copy_buf)%nat.
Proof. unfold copy_buf. lia. Qed.

Section CopyFacts.
Context {St : Type}.
Variable rd : nat -> St -> (list ascii * option error) * St.
Variable wr : list ascii -> St -> (nat * option error) * St.

(** What both the reader and the writer preserve, the copy preserves. *)
Lemma io_Copy_loop_inv (I : St -> Prop) :
  (forall n s, I s -> I (snd (rd n s))) ->
  (forall bs s, I s -> I (snd (wr bs s))) ->
  forall fuel written s, I s -> I (snd (io_Copy_loop rd wr fuel written s)).
Proof.
  intros Hrd Hwr. induction fuel as [|fuel IH]; intros written s Hs; [ exact Hs | ].
  cbn [io_Copy_loop].
  pose proof (Hrd copy_buf s Hs) as H1.
  destruct (rd copy_buf s) as [[bs er] s1]. simpl in H1.
  destruct bs as [|b bs].
  - destruct er as [e|]; [ destruct e; exact H1 | apply IH, H1 ].
  - pose proof (Hwr (b :: bs) s1 H1) as H2.
    destruct (wr (b :: bs) s1) as [[nw ew] s2]. simpl in H2.
    destruct ew as [e|]; [ exact H2 | ].
    destruct (nw <? length (b :: bs))%nat; [ exact H2 | ].
    destruct er as [e|]; [ destruct e; exact H2 | apply IH, H2 ].
Qed.

(** The error of a failed copy is one the reader or the writer gave,
    a short write, or the loop giving up. *)
Lemma io_Copy_loop_err (P : error -> Prop) :
  P ErrShortWrite ->
  P (OsError false (lit "copy: no progress")) ->
  (forall n s bs e s', rd n s = ((bs, Some e), s') -> P e) ->
  (forall bs s n e s', wr bs s = ((n, Some e), s') -> P e) ->
  forall fuel written s n e s',
    io_Copy_loop rd wr fuel written s = ((n, Some e), s') -> P e.
Proof.
  intros Hshort Hfuel Hrd Hwr.
  induction fuel as [|fuel IH]; intros written s n e s' H.
  - inversion H; subst. exact Hfuel.
  - cbn [io_Copy_loop] in H.
    destruct (rd copy_buf s) as [[bs er] s1] eqn:Hr.
    destruct bs as [|b bs].
    + destruct er as [e0|]; [ | eapply IH, H ].
      pose proof (Hrd _ _ _ _ _ Hr) as He0.
      destruct e0; simpl in H; inversion H; subst; exact He0.
    + destruct (wr (b :: bs) s1) as [[nw ew] s2] eqn:Hw.
      destruct ew as [e1|].
      { inversion H; subst. eapply Hwr, Hw. }
      destruct (nw <? length (b :: bs))%nat.
      { inversion H; subst. exact Hshort. }
      destruct er as [e0|]; [ | eapply IH, H ].
      pose proof (Hrd _ _ _ _ _ Hr) as He0.
      destruct e0; simpl in H; inversion H; subst; exact He0.
Qed.

End CopyFacts.

Lemma chunk_pos (N : Z) : 0 < N -> (0 < chunk N)%nat.
Proof. intros HN. unfold chunk. pose proof copy_buf_pos. lia. Qed.

Lemma limit_chunk (N : Z) :
  0 < N -> (if Z.of_nat copy_buf >? N then Z.to_nat N else copy_buf) = chunk N.
Proof.
  intros HN. unfold chunk.
  destruct (Z.gtb_spec (Z.of_nat copy_buf) N); lia.
Qed.

(** *** Draining the input *)

Lemma drain_loop (fuel : nat) :
  forall (written N : Z) (w : world),
  (length (r_data (stdin w)) < fuel)%nat ->
  io_Copy_loop (LimitReader in_Read) discard_writer fuel written (N, w)
  = let d := r_data (stdin w) in
    let k := Nat.min (Z.to_nat N) (length d) in
    ((written + Z.of_nat k,
      if (Z.to_nat N <=? length d)%nat then None else input_error w),
     (N - Z.of_nat k, rest_of_input w (drop k d))).
Proof.
  induction fuel as [|fuel IH]; intros written N w Hlen; [ lia | ].
  cbn [io_Copy_loop]. unfold LimitReader at 1.
  destruct (Z.leb_spec N 0) as [HN|HN].
  - cbn. replace (Z.to_nat N) with 0%nat by lia. simpl.
    rewrite drop_0, rest_of_input_same by reflexivity.
    repeat f_equal; lia.
  - rewrite limit_chunk by assumption.
    pose proof (chunk_pos N HN) as Hc.
    unfold in_Read.
    destruct (r_data (stdin w)) as [|c d] eqn:Hd.
    + cbn. rewrite Nat.min_0_r. cbn [drop].
      rewrite (rest_of_input_same w []) by assumption.
      replace (Z.to_nat N <=? 0)%nat with false by (symmetry; apply Nat.leb_gt; lia).
      unfold input_error, end_of_input.
      destruct (r_fail (stdin w)); cbn; repeat f_equal; lia.
    + destruct (chunk N) as [|n] eqn:Hn; [ lia | ].
      cbn [take]. cbn [discard_writer Discard fst snd].
      cbn [length]. rewrite Nat.ltb_irrefl. cbn [read_outcome].
      rewrite IH by (cbn; rewrite length_drop; simpl in Hlen; lia).
      cbn [stdin set_stdin r_data r_fail].
      unfold chunk in Hn.
      assert (Hk : (length (take n d) = Nat.min n (length d))%nat) by apply length_take.
      cbn [length drop] in *. rewrite length_drop.
      set (k' := Nat.min (Z.to_nat (N - Z.of_nat (S (length (take n d))))) (length d - n)).
      set (k := Nat.min (Z.to_nat N) (S (length d))).
      assert (Hkk : (k = S (length (take n d)) + k')%nat) by (subst k k'; lia).
      f_equal; [ f_equal | f_equal ].
      * lia.
      * unfold input_error. cbn [stdin set_stdin r_fail].
        destruct (Nat.leb_spec (Z.to_nat (N - Z.of_nat (S (length (take n d))))) (length d - n)) as [Ha|Ha];
          destruct (Nat.leb_spec (Z.to_nat N) (S (length d))) as [Hb|Hb]; try reflexivity;
          exfalso; clear - Ha Hb Hk HN; lia.
      * lia.
      * unfold rest_of_input. cbn [stdin set_stdin r_fail r_data fs stdout umask disk_room
                                   read_limit denied].
        rewrite drop_drop, Hkk. cbn [Nat.add drop].
        destruct (Nat.le_gt_cases n (length d)) as [Hle|Hgt].
        -- replace (length (take n d)) with n by lia. reflexivity.
        -- rewrite !drop_ge by lia. reflexivity.
Qed.

Lemma copy_in_to_discard_spec (w : world) (n : Z) :
  copy_in_to_discard w n
  = let d := r_data (stdin w) in
    let k := Nat.min (Z.to_nat n) (length d) in
    ((Z.of_nat k, if (Z.to_nat n <=? length d)%nat then None else input_error w),
     rest_of_input w (drop k d)).
Proof.
  unfold copy_in_to_discard.
  rewrite drain_loop by lia. reflexivity.
Qed.

(** *** Padding the output *)

Lemma emit_nil (w : world) : emit w [] = w.
Proof.
  destruct w as [m i [d [r|]] u dr rl dn]; unfold emit; simpl;
    rewrite app_nil_r, ?Nat.sub_0_r; reflexivity.
Qed.

Lemma emit_emit (w : world) (a b : list ascii) : emit (emit w a) b = emit w (a ++ b).
Proof.
  unfold emit. simpl. rewrite <- app_assoc.
  destruct (w_room (stdout w)) as [r|]; [ | reflexivity ].
  rewrite length_app.
  replace (r - length a - length b)%nat with (r - (length a + length b))%nat by lia.
  reflexivity.
Qed.

Lemma out_Write_room (w : world) (bs : list ascii) :
  has_room w (length bs) -> out_Write bs w = ((length bs, None), emit w bs).
Proof.
  unfold has_room, out_Write, emit.
  destruct (w_room (stdout w)) as [r|]; [ | reflexivity ].
  intros Hr. rewrite (proj2 (Nat.leb_le _ _) Hr). reflexivity.
Qed.

Lemma out_Print_room (w : world) (bs : list ascii) :
  has_room w (length bs) -> out_Print bs w = (None, emit w bs).
Proof. intros Hr. unfold out_Print. rewrite out_Write_room by assumption. reflexivity. Qed.

Lemma pad_loop (fuel : nat) :
  forall (written N : Z) (w : world),
  (Z.to_nat N < fuel)%nat -> has_room w (Z.to_nat N) ->
  io_Copy_loop (LimitReader (ConstReader NUL)) out_writer fuel written (N, w)
  = ((written + Z.of_nat (Z.to_nat N), None),
     (N - Z.of_nat (Z.to_nat N), emit w (replicate (Z.to_nat N) NUL))).
Proof.
  induction fuel as [|fuel IH]; intros written N w Hfuel Hroom; [ lia | ].
  cbn [io_Copy_loop]. unfold LimitReader at 1.
  destruct (Z.leb_spec N 0) as [HN|HN].
  - cbn. replace (Z.to_nat N) with 0%nat by lia. cbn [replicate].
    rewrite emit_nil. repeat f_equal; lia.
  - rewrite limit_chunk by assumption.
    pose proof (chunk_pos N HN) as Hc.
    assert (HcN : (chunk N <= Z.to_nat N)%nat) by (unfold chunk; lia).
    unfold ConstReader.
    destruct (chunk N) as [|n] eqn:Hn; [ lia | ].
    cbn [replicate]. unfold out_writer at 1. cbn [fst snd].
    change (NUL :: replicate n NUL) with (replicate (S n) NUL).
    rewrite out_Write_room
      by (rewrite length_replicate; unfold has_room in *;
          destruct (w_room (stdout w)); [ lia | exact I ]).
    cbn [replicate]. cbn [length]. rewrite length_replicate, Nat.ltb_irrefl.
    cbn [read_outcome].
    change (NUL :: replicate n NUL) with (replicate (S n) NUL).
    rewrite IH.
    + rewrite emit_emit, <- replicate_add.
      replace (S n + Z.to_nat (N - Z.of_nat (S n)))%nat with (Z.to_nat N) by lia.
      f_equal; [ f_equal; lia | f_equal; lia ].
    + lia.
    + unfold has_room, emit in *. cbn [stdout set_stdout w_room].
      destruct (w_room (stdout w)); [ rewrite length_replicate; lia | exact I ].
Qed.

Lemma pad_loop_fails (fuel : nat) :
  forall (written N : Z) (w : world) (room : nat),
  (Z.to_nat N < fuel)%nat -> w_room (stdout w) = Some room -> (room < Z.to_nat N)%nat ->
  exists k e s,
    io_Copy_loop (LimitReader (ConstReader NUL)) out_writer fuel written (N, w)
    = ((k, Some e), s).
Proof.
  induction fuel as [|fuel IH]; intros written N w room Hfuel Hroom Hlt; [ lia | ].
  cbn [io_Copy_loop]. unfold LimitReader at 1.
  destruct (Z.leb_spec N 0) as [HN|HN]; [ lia | ].
  rewrite limit_chunk by assumption.
  pose proof (chunk_pos N HN) as Hc.
  assert (HcN : (chunk N <= Z.to_nat N)%nat) by (unfold chunk; lia).
  unfold ConstReader.
  destruct (chunk N) as [|n] eqn:Hn; [ lia | ].
  cbn [replicate]. unfold out_writer at 1. cbn [fst snd].
  change (NUL :: replicate n NUL) with (replicate (S n) NUL).
  destruct (Nat.le_gt_cases (S n) room) as [Hfit|Hover].
  - rewrite out_Write_room
      by (rewrite length_replicate; unfold has_room; rewrite Hroom; exact Hfit).
    cbn [replicate]. cbn [length]. rewrite length_replicate, Nat.ltb_irrefl.
    cbn [read_outcome].
    apply (IH _ _ _ (room - S n)%nat).
    + lia.
    + unfold emit. cbn [stdout set_stdout w_room]. rewrite Hroom.
      cbn [length]. rewrite length_replicate. reflexivity.
    + lia.
  - unfold out_Write. rewrite Hroom, length_replicate.
    rewrite (proj2 (Nat.leb_gt _ _) Hover). eauto.
Qed.

Lemma copy_zeros_to_out_room (w : world) (n : Z) :
  has_room w (Z.to_nat n) ->
  copy_zeros_to_out w n = ((Z.of_nat (Z.to_nat n), None), emit w (replicate (Z.to_nat n) NUL)).
Proof.
  intros Hroom. unfold copy_zeros_to_out.
  rewrite pad_loop by (assumption || lia). reflexivity.
Qed.

Lemma copy_zeros_to_out_fails (w : world) (n : Z) :
  ~ has_room w (Z.to_nat n) ->
  exists k e w', copy_zeros_to_out w n = ((k, Some e), w').
Proof.
  intros Hroom. unfold has_room in Hroom.
  destruct (w_room (stdout w)) as [room|] eqn:Hr; [ | tauto ].
  unfold copy_zeros_to_out.
  destruct (pad_loop_fails (S (Z.to_nat n)) 0 n w room) as (k & e & [N' w'] & ->);
    [ lia | assumption | lia | ].
  eauto.
Qed.

(** The error of a failed copy from a file to the output is never a
    [FatalError]. *)
Lemma copy_file_to_out_soft (w : world) (name : list ascii) (sent : Z) (err : error)
    (w1 : world) :
  copy_file_to_out w name = ((sent, Some err), w1) -> isFatal (Some err) = false.
Proof.
  unfold copy_file_to_out.
  match goal with
  | |- context [io_Copy_loop ?rd ?wr ?fuel ?z ?s] =>
      pose proof (io_Copy_loop_err rd wr (fun e => isFatal (Some e) = false)) as Herr;
      destruct (io_Copy_loop rd wr fuel z s) as [[n oe] [off w']] eqn:Hloop
  end.
  intros H. inversion H; subst.
  eapply Herr; [ reflexivity | reflexivity | | | exact Hloop ].
  - intros n0 [off0 w0] bs e s'. unfold file_reader. cbn [fst snd]. unfold file_Read.
    destruct (fs w0 !! name) as [st|]; [ | intros E; inversion E; reflexivity ].
    destruct (match read_limit w0 with Some k => (k <=? off0)%nat | None => false end);
      [ intros E; inversion E; reflexivity | ].
    destruct (match read_limit w0 with
              | Some k => take (k - off0) (drop off0 (n_data st))
              | None => drop off0 (n_data st)
              end); intros E; inversion E; reflexivity.
  - intros bs [off0 w0] n0 e s'. unfold out_writer. cbn [fst snd]. unfold out_Write.
    destruct (w_room (stdout w0)) as [room|]; [ destruct (length bs <=? room)%nat | ];
      intros E; inversion E; reflexivity.
Qed.

(** ** Failed payload copies *)

Lemma pend_extends (p : list error) (r : option error * world) :
  exists more, fst (pend p r) = p ++ more.
Proof.
  destruct r as [[e|] w]; simpl; [ exists [e] | exists [] ]; rewrite ?app_nil_r; reflexivity.
Qed.

(** Whatever is pending when [sinkFile] reaches its last part comes back
    in the [AccError] it returns, unless the call ends on a fatal
    error. *)
Lemma sinkFile_finish_surfaces (opts : options) (w : world) (name : list ascii)
    (perm size : Z) (exists_ : bool) (st : node) (times : option FileTimes)
    (err : error) (pending : list error) :
  let r := sinkFile_finish opts w name perm size exists_ st times (err :: pending) in
  isFatal (fst r) = true \/ exists more, fst r = Some (AccError (err :: more)).
Proof.
  unfold sinkFile_finish.
  assert (Hext : forall (c : bool) (q : list error) (r : option error * world) (w0 : world),
            exists m, fst (if c then pend (err :: q) r else (err :: q, w0)) = err :: m).
  { intros c q r w0. destruct c; [ | simpl; eauto ].
    destruct (pend_extends (err :: q) r) as [m ->]. simpl. eauto. }
  match goal with
  | |- context [if ?c then pend (err :: ?q) ?r else (_, ?w0)] =>
      destruct (Hext c q r w0) as [q1 H1];
      destruct (if c then pend (err :: q) r else (err :: q, w0)) as [p1 w1]
  end.
  simpl in H1. subst p1.
  destruct (pend_extends (err :: q1) (Sync w1 name, w1)) as [m2 H2].
  destruct (pend (err :: q1) (Sync w1 name, w1)) as [p2 w2].
  simpl in H2. subst p2. generalize (q1 ++ m2). intros q2.
  match goal with
  | |- context [if ?c then pend (err :: ?q) ?r else (_, ?w0)] =>
      destruct (Hext c q r w0) as [q3 H3];
      destruct (if c then pend (err :: q) r else (err :: q, w0)) as [p3 w3]
  end.
  simpl in H3. subst p3.
  assert (H4 : exists m, fst (match times with
                              | Some t => pend (err :: q3) (Utimes w3 name t)
                              | None => (err :: q3, w3)
                              end) = err :: m).
  { destruct times as [t|]; [ | simpl; eauto ].
    destruct (pend_extends (err :: q3) (Utimes w3 name t)) as [m ->]. simpl. eauto. }
  destruct (match times with
            | Some t => pend (err :: q3) (Utimes w3 name t)
            | None => (err :: q3, w3)
            end) as [p4 w4].
  destruct H4 as [q4 H4]. simpl in H4. subst p4.
  destruct (ack w4) as [ackErr w5].
  destruct (isFatal ackErr) eqn:Hack; [ left; exact Hack | ].
  destruct (sendError w5 (AccError (err :: q4))) as [[e|] w6] eqn:Hsend.
  - left. simpl. eapply sendError_fatal, Hsend.
  - right. destruct ackErr as [a|]; simpl; eauto.
Qed.

(** What the drain does.  When the copy of a [C] payload of [size] bytes
    into the file fails with [wr] bytes written, [sinkFile] goes on to
    take the next [size - wr] bytes off what the copy has left of the
    input (all of it when it ends sooner) and then carries the copy
    error as the first pending error; when the input fails before
    [size - wr] bytes are drained, [sinkFile] returns a fatal error. *)
Lemma sinkFile_drains_after_failed_copy (opts : options) (w : world) (name : list ascii)
    (perm size : Z) (exists_ : bool) (st : node) (times : option FileTimes)
    (wr : Z) (err : error) (w1 : world) :
  copy_in_to_file w name size = ((wr, Some err), w1) ->
  let d := r_data (stdin w1) in
  let k := Z.to_nat (size - wr) in
  let after := rest_of_input w1 (drop k d) in
  ((k <= length d)%nat \/ r_fail (stdin w1) = None ->
   sinkFile_payload opts w name perm size exists_ st times
   = sinkFile_finish opts after name perm size exists_ st times [err]
   /\ length (r_data (stdin after)) = (length d - k)%nat
   /\ (isFatal (fst (sinkFile_finish opts after name perm size exists_ st times [err])) = true
       \/ exists more,
            fst (sinkFile_finish opts after name perm size exists_ st times [err])
            = Some (AccError (err :: more))))
  /\ ((length d < k)%nat /\ r_fail (stdin w1) <> None ->
      isFatal (fst (sinkFile_payload opts w name perm size exists_ st times)) = true).
Proof.
  intros Hcopy d k after. unfold sinkFile_payload. rewrite Hcopy.
  rewrite copy_in_to_discard_spec. cbn zeta. fold d k.
  split.
  - intros Hok. split; [ | split ].
    + destruct (Nat.leb_spec k (length d)) as [Hle|Hgt].
      * rewrite Nat.min_l by assumption. reflexivity.
      * destruct Hok as [Hle|Hfail]; [ lia | ].
        unfold input_error. rewrite Hfail.
        rewrite Nat.min_r by lia.
        subst after. rewrite (drop_ge d k) by lia. rewrite drop_all. reflexivity.
    + subst after. cbn. apply length_drop.
    + apply sinkFile_finish_surfaces.
  - intros [Hgt Hfail].
    rewrite (proj2 (Nat.leb_gt _ _) Hgt).
    unfold input_error. destruct (r_fail (stdin w1)) as [msg|]; [ | congruence ].
    apply teeError_fatal.
Qed.

Lemma sinkFile_drains_after_failed_copy_witness :
  let w := disk_full_world in
  let st := file_node 420 (lit "0123456789") in
  let w1 := snd (copy_in_to_file w (lit "f") 8) in
  let err := OsError false (lit "write: no space left on device") in
  let after := rest_of_input w1 (drop 6 (r_data (stdin w1))) in
  sinkFile_payload plain w (lit "f") 420 8 true st None
  = sinkFile_finish plain after (lit "f") 420 8 true st None [err]
  /\ length (r_data (stdin after)) = (length (r_data (stdin w1)) - 6)%nat
  /\ (isFatal (fst (sinkFile_finish plain after (lit "f") 420 8 true st None [err])) = true
      \/ exists more,
           fst (sinkFile_finish plain after (lit "f") 420 8 true st None [err])
           = Some (AccError (err :: more))).
Proof.
  intros w st w1 err after.
  apply (proj1 (sinkFile_drains_after_failed_copy plain w (lit "f") 420 8 true st None
                  2 err w1 ltac:(vm_compute; reflexivity))).
  left. vm_compute. lia.
Defined.

(** C3 (the code departs from it). [wr] is the number of bytes written,
    and the chunk whose write failed has been read whole: the drain of
    [size - wr] bytes starts after the bytes read, not after the bytes
    written, and runs past the payload.  Here the disk fills up two
    bytes into an eight-byte payload.  The copy has read all eight
    bytes; the six bytes drained are the trailer and the start of the
    next frame, the rest of that frame is taken for a malformed
    acknowledgement, and the result is a fatal protocol error with
    nothing sent to the peer.  With a peer that waits after the trailer,
    the drain takes the trailer and the result is the fatal error of an
    input that has ended.  In neither case is the copy failure surfaced
    as a soft error. *)
Theorem drain_runs_past_payload :
  let copied := copy_in_to_file (emit disk_full_world [NUL]) (lit "f") 8 in
  let drained := copy_in_to_discard (snd copied) (8 - 2) in
  let r := sinkFile (lib := stdlib) plain disk_full_world (lit "f") (lit "0644 8 f") None in
  let r' := sinkFile (lib := stdlib) plain disk_full_alone (lit "f") (lit "0644 8 f") None in
  (fst copied = (2, Some (OsError false (lit "write: no space left on device")))
   /\ r_data (stdin (snd copied)) = [NUL] ++ frame "C" (lit "0644 1 g"))
  /\ (fst drained = (6, None)
      /\ r_data (stdin (snd drained)) = lit " 1 g" ++ [NL])
  /\ (fst r = Some protocolErr
      /\ w_data (stdout (snd r)) = [NUL]
      /\ r_data (stdin (snd r)) = [])
  /\ (fst r' = Some (FatalError (lit "EOF"))
      /\ w_data (stdout (snd r')) = [NUL]
      /\ r_data (stdin (snd r')) = []).
Proof. repeat split; vm_compute; reflexivity. Qed.

(** C4. When the copy of the file to the output fails with [sent] bytes
    written, the error is a soft one; [send] then writes
    [size - sent] zero bytes, reads one acknowledgement and, that being a
    success, tees and returns the copy error; when the output does not
    take the zero bytes, [send] returns a fatal error. *)
Theorem send_pads_after_failed_copy (w : world) (fname : list ascii) (st : node)
    (sent : Z) (err : error) (w1 : world) :
  copy_file_to_out w fname = ((sent, Some err), w1) ->
  let n := Z.to_nat (Size st - sent) in
  let padded := emit w1 (replicate n NUL) in
  isFatal (Some err) = false
  /\ (has_room w1 n ->
      send_payload w fname st
      = match ack padded with
        | (Some aerr, w3) => (Some aerr, w3)
        | (None, w3) => teeError w3 err
        end)
  /\ (has_room w1 n -> w_room (stdout w1) = None ->
      forall rest, r_data (stdin w1) = NUL :: rest ->
      send_payload w fname st
      = (Some err, emit (rest_of_input padded rest) ([SOH] ++ error_body err ++ [NL])))
  /\ (~ has_room w1 n -> isFatal (fst (send_payload w fname st)) = true).
Proof.
  intros Hcopy n padded.
  assert (Hpad : has_room w1 n ->
            send_payload w fname st
            = match ack padded with
              | (Some aerr, w3) => (Some aerr, w3)
              | (None, w3) => teeError w3 err
              end).
  { intros Hroom. unfold send_payload. rewrite Hcopy.
    rewrite copy_zeros_to_out_room by exact Hroom. reflexivity. }
  split; [ eapply copy_file_to_out_soft, Hcopy | ].
  split; [ exact Hpad | ].
  split.
  - intros Hroom Hnone rest Hin. rewrite Hpad by assumption.
    unfold ack. rewrite (in_ReadByte_cons padded NUL rest) by exact Hin.
    change (ascii_eqb NUL NUL) with true. cbn iota.
    unfold teeError, sendError.
    rewrite out_Print_room; [ reflexivity | ].
    unfold has_room, padded, emit. cbn. rewrite Hnone. exact I.
  - intros Hroom. unfold send_payload. rewrite Hcopy.
    destruct (copy_zeros_to_out_fails w1 (Size st - sent) Hroom) as (k & e & w' & ->).
    reflexivity.
Qed.

Lemma send_pads_after_failed_copy_witness :
  let w := unreadable_world in
  let st := file_node 420 (lit "hello") in
  let err := OsError false (lit "read: input/output error") in
  let w1 := snd (copy_file_to_out w (lit "a")) in
  send_payload w (lit "a") st
  = (Some err,
     emit (rest_of_input (emit w1 (replicate 3 NUL)) [])
       ([SOH] ++ error_body err ++ [NL]))
  /\ w_data (stdout (snd (send_payload w (lit "a") st)))
     = lit "he" ++ [NUL; NUL; NUL] ++ [SOH] ++ lit "read: input/output error" ++ [NL].
Proof.
  intros w st err w1. split.
  - apply (proj1 (proj2 (proj2
             (send_pads_after_failed_copy w (lit "a") st 2 err w1
                ltac:(vm_compute; reflexivity))))).
    + exact I.
    + reflexivity.
    + reflexivity.
  - vm_compute. reflexivity.
Defined.

(** ** Truncation *)

Lemma ack_fs (w : world) : fs (snd (ack w)) = fs w.
Proof.
  unfold ack, in_ReadByte, readLine.
  destruct (r_data (stdin w)) as [|c d]; [ reflexivity | ].
  destruct (ascii_eqb c NUL); [ reflexivity | ]. cbn.
  destruct (until_newline [] d) as [[l rest]|]; [ | reflexivity ].
  destruct (ascii_eqb c SOH); [ reflexivity | ].
  destruct (ascii_eqb c STX); reflexivity.
Qed.

Lemma pend_snd (p : list error) (r : option error * world) : snd (pend p r) = snd r.
Proof. destruct r as [[e|] w]; reflexivity. Qed.

Lemma Chmod_holds (w : world) (name : list ascii) (perm : Z) (n : list ascii) (size : Z) :
  holds_file (fs w) n size -> holds_file (fs (snd (Chmod w name perm))) n size.
Proof.
  intros (nd & Hnd & Hk & Hs). unfold Chmod.
  destruct (refuses w OpChmod); [ exists nd; auto | ].
  destruct (fs w !! name) as [st|] eqn:Hst; [ | exists nd; auto ].
  unfold holds_file. cbn [snd fs set_fs]. destruct (decide (name = n)) as [->|Hne].
  - rewrite lookup_insert_eq. rewrite Hnd in Hst. inversion Hst; subst.
    eexists. split; [ reflexivity | ]. auto.
  - rewrite lookup_insert_ne by assumption. exists nd. auto.
Qed.

Lemma Utimes_holds (w : world) (name : list ascii) (t : FileTimes) (n : list ascii) (size : Z) :
  holds_file (fs w) n size -> holds_file (fs (snd (Utimes w name t))) n size.
Proof.
  intros (nd & Hnd & Hk & Hs). unfold Utimes.
  destruct (refuses w OpUtimes); [ exists nd; auto | ].
  destruct (fs w !! name) as [st|] eqn:Hst; [ | exists nd; auto ].
  unfold holds_file. cbn [snd fs set_fs]. destruct (decide (name = n)) as [->|Hne].
  - rewrite lookup_insert_eq. rewrite Hnd in Hst. inversion Hst; subst.
    eexists. split; [ reflexivity | ]. auto.
  - rewrite lookup_insert_ne by assumption. exists nd. auto.
Qed.

Lemma Truncate_holds (w : world) (name : list ascii) (size : Z) :
  refuses w OpTruncate = false -> regular_at (fs w) name -> 0 <= size ->
  exists w', Truncate w name size = (None, w') /\ holds_file (fs w') name size.
Proof.
  intros Href (nd & Hnd & Hk) Hsize. unfold Truncate. rewrite Href, Hnd.
  unfold IsRegular. rewrite Hk.
  rewrite (proj2 (Z.ltb_ge _ _) Hsize). cbn [orb negb].
  eexists. split; [ reflexivity | ].
  unfold holds_file. cbn [fs set_fs]. rewrite lookup_insert_eq.
  eexists. split; [ reflexivity | ].
  split; [ reflexivity | ].
  unfold Size. cbn [n_data]. rewrite length_app, length_take, length_replicate. lia.
Qed.

(** The closing part of [sinkFile] leaves a regular target truncated to
    the declared size. *)
Lemma sinkFile_finish_holds (opts : options) (w : world) (name : list ascii)
    (perm size : Z) (exists_ : bool) (st : node) (times : option FileTimes)
    (pending : list error) :
  negb exists_ || IsRegular st = true ->
  refuses w OpTruncate = false -> regular_at (fs w) name -> 0 <= size ->
  holds_file (fs (snd (sinkFile_finish opts w name perm size exists_ st times pending)))
    name size.
Proof.
  intros Hcond Href Hreg Hsize. unfold sinkFile_finish. rewrite Hcond.
  destruct (Truncate_holds w name size Href Hreg Hsize) as (w1 & -> & H1).
  cbn [pend].
  assert (H3 : forall (c : bool) (p : list error),
            holds_file (fs (snd (if c then pend p (Chmod w1 name perm) else (p, w1))))
              name size).
  { intros [|] p; [ rewrite pend_snd; apply Chmod_holds, H1 | exact H1 ]. }
  destruct (Sync w1 name) as [e|].
  all: match goal with
       | |- context [if ?c then pend ?p (Chmod ?w0 ?n0 ?m0) else ?q] =>
           specialize (H3 c p);
           destruct (if c then pend p (Chmod w0 n0 m0) else q) as [p3 w3]
       end.
  all: cbn [snd] in H3.
  all: assert (H4 : holds_file (fs (snd (match times with
                                         | Some t => pend p3 (Utimes w3 name t)
                                         | None => (p3, w3)
                                         end))) name size)
         by (destruct times; [ rewrite pend_snd; apply Utimes_holds, H3 | exact H3 ]).
  all: destruct (match times with
                 | Some t => pend p3 (Utimes w3 name t)
                 | None => (p3, w3)
                 end) as [p4 w4]; cbn [snd] in H4.
  all: pose proof (ack_fs w4) as Hack; destruct (ack w4) as [ackErr w5]; cbn [snd] in Hack.
  all: rewrite <- Hack in H4.
  all: destruct (isFatal ackErr); [ exact H4 | ].
  all: destruct p4 as [|e4 p4].
  all: try (pose proof (out_Print_fs [NUL] w5) as Hout;
            destruct (out_Print [NUL] w5) as [[e5|] w6]; cbn [snd] in Hout;
            rewrite <- Hout in H4; [ exact H4 | destruct ackErr; exact H4 ]).
  all: pose proof (sendError_fs w5 (AccError (e4 :: p4))) as Hout;
       destruct (sendError w5 (AccError (e4 :: p4))) as [[e5|] w6]; cbn [snd] in Hout;
       rewrite <- Hout in H4; [ exact H4 | destruct ackErr; exact H4 ].
Qed.

(** What the copy into the file leaves alone. *)
Lemma copy_in_to_file_keeps (w : world) (name : list ascii) (size : Z) :
  regular_at (fs w) name ->
  let w' := snd (copy_in_to_file w name size) in
  regular_at (fs w') name
  /\ denied w' = denied w
  /\ r_fail (stdin w') = r_fail (stdin w).
Proof.
  intros Hreg. unfold copy_in_to_file.
  match goal with
  | |- context [io_Copy_loop ?rd ?wr ?fuel ?z ?s0] =>
      pose proof (io_Copy_loop_inv rd wr
                    (fun st : Z * (nat * world) =>
                       regular_at (fs (snd (snd st))) name
                       /\ denied (snd (snd st)) = denied w
                       /\ r_fail (stdin (snd (snd st))) = r_fail (stdin w))) as Hinv;
      destruct (io_Copy_loop rd wr fuel z s0) as [r [N [off w']]] eqn:Hloop
  end.
  cbn [snd]. 
  match type of Hinv with
  | _ -> _ -> forall fuel written s, _ -> _ =>
      assert (Hgoal := fun H1 H2 => Hinv H1 H2 (S (length (r_data (stdin w)))) 0
                                      (size, (0%nat, w)))
  end.
  rewrite Hloop in Hgoal. cbn [snd] in Hgoal. apply Hgoal; clear Hgoal Hinv Hloop.
  - intros n [N0 [off0 w0]] H. cbn [snd] in H. destruct H as (H1 & H2 & H3).
    unfold LimitReader. cbn [fst snd].
    destruct (N0 <=? 0); [ cbn; auto | ].
    unfold in_reader, in_Read. cbn [snd].
    destruct (r_data (stdin w0)); cbn; auto.
  - intros bs [N0 [off0 w0]] H. cbn [snd] in H. destruct H as (H1 & H2 & H3).
    unfold file_writer, file_Write.
    destruct H1 as (nd & Hnd & Hk). rewrite Hnd, Hk.
    cbn [fst snd fs set_disk denied stdin].
    split; [ | auto ].
    eexists. rewrite lookup_insert_eq. split; reflexivity.
  - cbn. auto.
Qed.

Section Truncation.
Context {lib : GoLib} (opts : options).

(** Opening a target that is absent or a regular file leads to the
    payload copy, on a regular file. *)
Lemma sinkFile_open_regular (w : world) (name : list ascii) (perm size : Z)
    (exists_ : bool) (times : option FileTimes) :
  refuses w OpOpen = false -> refuses w OpFstat = false -> has_room w 1 ->
  fs w !! name = None \/ regular_at (fs w) name ->
  exists w1 st,
    sinkFile_open opts w name perm size exists_ times
    = sinkFile_payload opts w1 name perm size exists_ st times
    /\ IsRegular st = true
    /\ regular_at (fs w1) name
    /\ denied w1 = denied w
    /\ stdin w1 = stdin w.
Proof.
  intros Hopen Hfstat Hroom Htarget. unfold sinkFile_open, OpenFile. rewrite Hopen.
  destruct Htarget as [Hnone | (nd & Hnd & Hk)].
  - rewrite Hnone. unfold Fstat, refuses in *. cbn [denied set_fs fs].
    rewrite Hfstat, lookup_insert_eq.
    rewrite out_Print_room by exact Hroom.
    eexists _, _. split; [ reflexivity | ].
    split; [ reflexivity | ]. split; [ | split; reflexivity ].
    eexists. cbn [emit fs set_stdout set_fs]. rewrite lookup_insert_eq.
    split; reflexivity.
  - rewrite Hnd. unfold IsDir. rewrite Hk. unfold Fstat. rewrite Hfstat, Hnd.
    rewrite out_Print_room by exact Hroom.
    eexists _, _. split; [ reflexivity | ].
    split; [ unfold IsRegular; rewrite Hk; reflexivity | ].
    split; [ | split; reflexivity ].
    exists nd. auto.
Qed.

Lemma sinkFile_payload_holds (w : world) (name : list ascii) (perm size : Z)
    (exists_ : bool) (st : node) (times : option FileTimes) :
  IsRegular st = true -> regular_at (fs w) name ->
  refuses w OpTruncate = false -> r_fail (stdin w) = None -> 0 <= size ->
  holds_file (fs (snd (sinkFile_payload opts w name perm size exists_ st times))) name size.
Proof.
  intros Hst Hreg Href Hfail Hsize. unfold sinkFile_payload.
  destruct (copy_in_to_file_keeps w name size Hreg) as (Hreg1 & Hden & Hf1).
  destruct (copy_in_to_file w name size) as [[wr [err|]] w1]; cbn [snd] in *.
  - rewrite copy_in_to_discard_spec. cbn zeta.
    unfold input_error. rewrite Hf1, Hfail.
    assert (Hfin : forall k,
              holds_file
                (fs (snd (sinkFile_finish opts (rest_of_input w1 (drop k (r_data (stdin w1))))
                            name perm size exists_ st times [err]))) name size).
    { intros k. apply sinkFile_finish_holds.
      - rewrite Hst. apply orb_true_r.
      - unfold refuses in *. cbn [rest_of_input denied set_stdin]. rewrite Hden. exact Href.
      - exact Hreg1.
      - exact Hsize. }
    destruct (Z.to_nat (size - wr) <=? length (r_data (stdin w1)))%nat; apply Hfin.
  - apply sinkFile_finish_holds.
    + rewrite Hst. apply orb_true_r.
    + unfold refuses in *. rewrite Hden. exact Href.
    + exact Hreg1.
    + exact Hsize.
Qed.

End Truncation.

(** C6. When [sinkFile] handles a [C] frame declaring [size] bytes and
    the file it opens is newly created or was a regular file before
    (of whatever length, longer ones included), the file holds exactly
    [size] bytes afterwards. *)
Theorem sinkFile_truncates_to_declared_size {lib : GoLib} (opts : options) (w : world)
    (name line : list ascii) (times : option FileTimes) (perm size : Z) (subj : list ascii) :
  parseSubj line = (perm, size, subj, None) -> 0 <= size ->
  refuses w OpOpen = false -> refuses w OpFstat = false -> refuses w OpTruncate = false ->
  has_room w 1 -> r_fail (stdin w) = None ->
  let target := snd (sinkFile_target w name subj) in
  fs w !! target = None \/ regular_at (fs w) target ->
  holds_file (fs (snd (sinkFile opts w name line times))) target size.
Proof.
  intros Hparse Hsize Hopen Hfstat Htrunc Hroom Hfail target Htarget.
  unfold sinkFile. rewrite Hparse. subst target.
  destruct (sinkFile_target w name subj) as [exists_ tgt]. cbn [snd] in *.
  destruct (sinkFile_open_regular opts w tgt perm size exists_ times
              Hopen Hfstat Hroom Htarget) as (w1 & st & -> & Hst & Hreg & Hden & Hin).
  apply sinkFile_payload_holds; try assumption.
  - unfold refuses in *. rewrite Hden. exact Htrunc.
  - rewrite Hin. exact Hfail.
Qed.

Lemma sinkFile_truncates_to_declared_size_witness :
  holds_file (fs (snd (sinkFile (lib := stdlib) plain shrink_world (lit "f")
                         (lit "0644 3 f") None)))
    (lit "f") 3.
Proof.
  apply (sinkFile_truncates_to_declared_size (lib := stdlib) plain shrink_world (lit "f")
           (lit "0644 3 f") None 420 3 (lit "f")).
  - reflexivity.
  - lia.
  - reflexivity.
  - reflexivity.
  - reflexivity.
  - exact I.
  - reflexivity.
  - right. exists (file_node 420 (lit "0123456789")). split; reflexivity.
Defined.

(** ** From the whole functions to their payload parts *)

Section Source.
Context {lib : GoLib} (opts : options).
Variable sendDir : world -> list ascii -> node -> option error * world.

(** [send] on a regular file, without [-p], with a peer that
    acknowledges the header: the header goes out and the payload copy
    starts. *)
Lemma send_reaches_payload (w : world) (fname : list ascii) (st : node) (rest : list ascii) :
  refuses w OpOpen = false -> refuses w OpFstat = false ->
  fs w !! fname = Some st -> IsRegular st = true -> preserveAttrs opts = false ->
  w_room (stdout w) = None -> r_data (stdin w) = NUL :: rest ->
  let header := lit "C" ++ fmt_04o (toPosixPerm (n_mode st)) ++ lit " "
                ++ fmt_d (Size st) ++ lit " " ++ base_name fname ++ [NL] in
  send opts sendDir w fname = send_payload (rest_of_input (emit w header) rest) fname st.
Proof.
  intros Hopen Hfstat Hst Hreg Hp Hroom Hin header.
  unfold send, Open, Fstat. rewrite Hopen, Hfstat, Hst, Hp.
  assert (Hdir : IsDir st = false).
  { unfold IsDir, IsRegular in *. destruct (n_kind st); congruence. }
  rewrite Hdir, Hreg. cbn [negb].
  rewrite out_Print_room by (unfold has_room; rewrite Hroom; exact I).
  fold header.
  unfold ack. rewrite (in_ReadByte_cons (emit w header) NUL rest) by exact Hin.
  reflexivity.
Qed.

End Source.

(** The whole [send] on the file whose reading fails after two bytes:
    header, two bytes, three zero bytes, the error line. *)
Example send_unreadable_file :
  let w := World {[ lit "a" := file_node 420 (lit "hello") ]}
             (Reader [NUL; NUL] None) (Writer [] None) 18 None (Some 2%nat) [] in
  let r := send (lib := stdlib) plain (fun w _ _ => (None, w)) w (lit "a") in
  fst r = Some (OsError false (lit "read: input/output error"))
  /\ w_data (stdout (snd r))
     = lit "C0644 5 a" ++ [NL] ++ lit "he" ++ [NUL; NUL; NUL]
       ++ [SOH] ++ lit "read: input/output error" ++ [NL]
  /\ r_data (stdin (snd r)) = [].
Proof. repeat split; vm_compute; reflexivity. Qed.


(** ** The fuel of the copies

    A copy whose reader either gives bytes and gets closer to its end,
    or stops, gives the same result for any fuel above the distance to
    that end: the fuel the package's copies are given is never used up. *)

Section CopyFuel.
Context {St : Type}.
Variable rd : nat -> St -> (list ascii * option error) * St.
Variable wr : list ascii -> St -> (nat * option error) * St.
Variable mu : St -> nat.

Hypothesis rd_progress :
  forall s, match rd copy_buf s with
            | ((bs, er), s') =>
                (bs = [] -> er <> None) /\ (bs <> [] -> (mu s' < mu s)%nat)
            end.
Hypothesis wr_keeps : forall bs s, (mu (snd (wr bs s)) <= mu s)%nat.

Lemma io_Copy_loop_fuel (fuel1 : nat) :
  forall (fuel2 : nat) (written : Z) (s : St),
  (mu s < fuel1)%nat -> (mu s < fuel2)%nat ->
  io_Copy_loop rd wr fuel1 written s = io_Copy_loop rd wr fuel2 written s.
Proof.
  induction fuel1 as [|fuel1 IH]; intros [|fuel2] written s H1 H2; try lia.
  cbn [io_Copy_loop].
  pose proof (rd_progress s) as Hrd.
  destruct (rd copy_buf s) as [[bs er] s1]. destruct Hrd as [Hstop Hgo].
  destruct bs as [|b bs].
  - destruct er as [e|]; [ destruct e; reflexivity | ].
    exfalso. apply Hstop; reflexivity.
  - pose proof (wr_keeps (b :: bs) s1) as Hwr.
    destruct (wr (b :: bs) s1) as [[nw ew] s2]. cbn [snd] in Hwr.
    destruct ew as [e|]; [ reflexivity | ].
    destruct (nw <? length (b :: bs))%nat; [ reflexivity | ].
    destruct er as [e|]; [ destruct e; reflexivity | ].
    assert (mu s1 < mu s)%nat by (apply Hgo; discriminate).
    apply IH; lia.
Qed.

End CopyFuel.

Lemma copy_in_to_file_fuel (w : world) (name : list ascii) (size : Z) (fuel : nat) :
  (input_left w < fuel)%nat ->
  io_Copy_loop (LimitReader in_reader) (file_writer name) fuel 0 (size, (0%nat, w))
  = io_Copy_loop (LimitReader in_reader) (file_writer name) (S (input_left w)) 0
      (size, (0%nat, w)).
Proof.
  intros Hfuel.
  apply (io_Copy_loop_fuel _ _ (fun s : Z * (nat * world) => input_left (snd (snd s)))).
  - intros [N [off w0]]. unfold LimitReader. cbn [snd].
    destruct (Z.leb_spec N 0) as [HN|HN]; [ split; [ discriminate | congruence ] | ].
    rewrite limit_chunk by assumption. pose proof (chunk_pos N HN) as Hc.
    unfold in_reader, in_Read. cbn [fst snd].
    destruct (r_data (stdin w0)) as [|c d] eqn:Hd.
    + cbn. split; [ discriminate | congruence ].
    + destruct (chunk N) as [|n]; [ lia | ].
      cbn [take drop length snd]. split; [ discriminate | ]. intros _.
      unfold input_left. cbn [stdin set_stdin r_data]. rewrite Hd, length_drop.
      cbn [length]. lia.
  - intros bs [N [off w0]]. unfold file_writer, file_Write.
    destruct (fs w0 !! name) as [st|]; [ | cbn [fst snd]; lia ].
    destruct (n_kind st); cbn [fst snd]; unfold input_left; cbn [stdin set_disk]; lia.
  - cbn. exact Hfuel.
  - cbn. lia.
Qed.

Lemma copy_file_to_out_fuel (w : world) (name : list ascii) (fuel : nat) :
  (file_size w name < fuel)%nat ->
  io_Copy_loop (file_reader name) out_writer fuel 0 (0%nat, w)
  = io_Copy_loop (file_reader name) out_writer (S (file_size w name)) 0 (0%nat, w).
Proof.
  intros Hfuel.
  apply (io_Copy_loop_fuel _ _ (fun s : nat * world => (file_size (snd s) name - fst s)%nat)).
  - intros [off w0]. unfold file_reader, file_Read, file_size. cbn [fst snd].
    destruct (fs w0 !! name) as [st|] eqn:Hst; [ | split; [ discriminate | congruence ] ].
    destruct (match read_limit w0 with Some k => (k <=? off)%nat | None => false end);
      [ split; [ discriminate | congruence ] | ].
    set (rest := match read_limit w0 with
                 | Some k => take (k - off) (drop off (n_data st))
                 | None => drop off (n_data st)
                 end).
    assert (Hrest : (length rest <= length (n_data st) - off)%nat).
    { subst rest. destruct (read_limit w0); rewrite ?length_take, length_drop; lia. }
    destruct rest as [|c rest']; [ split; [ discriminate | congruence ] | ].
    pose proof copy_buf_pos as Hb.
    destruct copy_buf as [|n]; [ lia | ].
    cbn [take length] in *. split; [ discriminate | ]. intros _.
    pose proof (length_take rest' n). cbn [fst snd]. rewrite Hst. lia.
  - intros bs [off w0]. unfold out_writer, out_Write, file_size. cbn [fst snd].
    destruct (w_room (stdout w0)) as [room|]; [ destruct (length bs <=? room)%nat | ];
      cbn [fst snd fs set_stdout]; lia.
  - cbn. lia.
  - cbn. lia.
Qed.

(** ** Enough fuel

    No operation adds to the input, and every turn of the dispatch loop
    that goes on has taken a frame off it: with fuel above three times
    the length of the input, [sink] returns. *)

Lemma until_newline_shorter (d : list ascii) :
  forall acc l rest, until_newline acc d = Some (l, rest) -> (length rest < length d)%nat.
Proof.
  induction d as [|ch d IH]; intros acc l rest H; simpl in H; [ discriminate | ].
  destruct (ascii_eqb ch NL).
  - inversion H; subst. simpl. lia.
  - apply IH in H. simpl. lia.
Qed.

Lemma in_ReadByte_left (w : world) :
  match in_ReadByte w with
  | (inl _, w') => w' = w
  | (inr _, w') => (S (input_left w') = input_left w)%nat
  end.
Proof.
  unfold in_ReadByte, input_left. destruct (r_data (stdin w)) eqn:Hd; [ reflexivity | ].
  cbn. reflexivity.
Qed.

Lemma readLine_left (w : world) :
  match readLine w with
  | (inl _, w') => (input_left w' <= input_left w)%nat
  | (inr _, w') => (input_left w' < input_left w)%nat
  end.
Proof.
  unfold readLine, input_left.
  destruct (until_newline [] (r_data (stdin w))) as [[l rest]|] eqn:H; cbn.
  - eapply until_newline_shorter, H.
  - lia.
Qed.

Lemma ack_left (w : world) : (input_left (snd (ack w)) <= input_left w)%nat.
Proof.
  unfold ack. pose proof (in_ReadByte_left w) as Hb.
  destruct (in_ReadByte w) as [[e|c] w1]; [ subst; cbn; lia | ].
  destruct (ascii_eqb c NUL); [ cbn; lia | ].
  pose proof (readLine_left w1) as Hl.
  destruct (readLine w1) as [[e|l] w2]; [ cbn; lia | ].
  destruct (ascii_eqb c SOH); [ cbn; lia | ].
  destruct (ascii_eqb c STX); cbn; lia.
Qed.

Lemma out_Print_left (s : list ascii) (w : world) :
  input_left (snd (out_Print s w)) = input_left w.
Proof.
  unfold out_Print, out_Write.
  destruct (w_room (stdout w)) as [room|]; [ destruct (length s <=? room)%nat | ]; reflexivity.
Qed.

Lemma sendError_left (w : world) (err : error) :
  input_left (snd (sendError w err)) = input_left w.
Proof.
  unfold sendError.
  pose proof (out_Print_left ([SOH] ++ error_body err ++ [NL]) w) as H.
  destruct (out_Print _ w) as [[e|] w']; exact H.
Qed.

Lemma teeError_left (w : world) (err : error) :
  input_left (snd (teeError w err)) = input_left w.
Proof.
  unfold teeError. pose proof (sendError_left w err) as H.
  destruct (sendError w err) as [[e|] w']; exact H.
Qed.

Lemma Truncate_left (w : world) (name : list ascii) (size : Z) :
  input_left (snd (Truncate w name size)) = input_left w.
Proof.
  unfold Truncate. destruct (refuses w OpTruncate); [ reflexivity | ].
  destruct (fs w !! name) as [st|]; [ | reflexivity ].
  destruct ((size <? 0) || negb (IsRegular st)); reflexivity.
Qed.

Lemma Chmod_left (w : world) (name : list ascii) (perm : Z) :
  input_left (snd (Chmod w name perm)) = input_left w.
Proof.
  unfold Chmod. destruct (refuses w OpChmod); [ reflexivity | ].
  destruct (fs w !! name) as [st|]; reflexivity.
Qed.

Lemma Utimes_left (w : world) (name : list ascii) (t : FileTimes) :
  input_left (snd (Utimes w name t)) = input_left w.
Proof.
  unfold Utimes. destruct (refuses w OpUtimes); [ reflexivity | ].
  destruct (fs w !! name) as [st|]; reflexivity.
Qed.

Lemma Mkdir_left (w : world) (name : list ascii) (perm : Z) :
  input_left (snd (Mkdir w name perm)) = input_left w.
Proof.
  unfold Mkdir. destruct (refuses w OpMkdir); [ reflexivity | ].
  destruct (fs w !! name) as [st|]; reflexivity.
Qed.

Lemma OpenFile_left (w : world) (name : list ascii) (perm : Z) :
  input_left (snd (OpenFile w name perm)) = input_left w.
Proof.
  unfold OpenFile. destruct (refuses w OpOpen); [ reflexivity | ].
  destruct (fs w !! name) as [st|]; [ destruct (IsDir st) | ]; reflexivity.
Qed.

Lemma copy_in_to_discard_left (w : world) (n : Z) :
  (input_left (snd (copy_in_to_discard w n)) <= input_left w)%nat.
Proof.
  rewrite copy_in_to_discard_spec. cbn. unfold input_left. cbn.
  rewrite length_drop. lia.
Qed.

Lemma copy_in_to_file_left (w : world) (name : list ascii) (size : Z) :
  (input_left (snd (copy_in_to_file w name size)) <= input_left w)%nat.
Proof.
  unfold copy_in_to_file.
  match goal with
  | |- context [io_Copy_loop ?rd ?wr ?fuel ?z ?s0] =>
      pose proof (io_Copy_loop_inv rd wr
                    (fun st : Z * (nat * world) =>
                       (input_left (snd (snd st)) <= input_left w)%nat)) as Hinv;
      assert (Hgoal := fun H1 H2 => Hinv H1 H2 fuel z s0);
      destruct (io_Copy_loop rd wr fuel z s0) as [r [N [off w']]]
  end.
  cbn [snd] in *. apply Hgoal; clear Hgoal Hinv.
  - intros n [N0 [off0 w0]] H. cbn [snd] in H.
    unfold LimitReader. cbn [fst snd].
    destruct (N0 <=? 0); [ exact H | ].
    unfold in_reader, in_Read. cbn [snd].
    destruct (r_data (stdin w0)) as [|c d] eqn:Hd; [ exact H | ].
    cbn. unfold input_left in *. cbn. rewrite Hd in H. simpl in H.
    match goal with |- (length (drop ?k _) <= _)%nat => pose proof (length_drop (c :: d) k) end.
    simpl in *. lia.
  - intros bs [N0 [off0 w0]] H. cbn [snd] in H. unfold file_writer, file_Write.
    destruct (fs w0 !! name) as [st|]; [ | exact H ].
    destruct (n_kind st); exact H.
  - lia.
Qed.

Ltac learn_left x :=
  lazymatch x with
  | ack ?w => pose proof (ack_left w)
  | out_Print ?s ?w => pose proof (out_Print_left s w)
  | sendError ?w ?e => pose proof (sendError_left w e)
  | teeError ?w ?e => pose proof (teeError_left w e)
  | Truncate ?w ?n ?s => pose proof (Truncate_left w n s)
  | Chmod ?w ?n ?p => pose proof (Chmod_left w n p)
  | Utimes ?w ?n ?t => pose proof (Utimes_left w n t)
  | Mkdir ?w ?n ?p => pose proof (Mkdir_left w n p)
  | OpenFile ?w ?n ?p => pose proof (OpenFile_left w n p)
  | copy_in_to_file ?w ?n ?s => pose proof (copy_in_to_file_left w n s)
  | copy_in_to_discard ?w ?n => pose proof (copy_in_to_discard_left w n)
  | _ => idtac
  end.

(** Case analysis on an innermost scrutinee, keeping what is known of
    the input it leaves. *)
Ltac left_step :=
  match goal with
  | |- context [match ?x with _ => _ end] =>
      lazymatch x with
      | context [match _ with _ => _ end] => fail
      | _ => learn_left x; destruct x; cbn [fst snd] in *
      end
  end.

Section Fuel.
Context {lib : GoLib} (opts : options).

Lemma sinkFile_finish_left (w : world) (name : list ascii) (perm size : Z)
    (exists_ : bool) (st : node) (times : option FileTimes) (pending : list error) :
  (input_left (snd (sinkFile_finish opts w name perm size exists_ st times pending))
   <= input_left w)%nat.
Proof.
  unfold sinkFile_finish, pend, Sync. repeat left_step; lia.
Qed.

Lemma sinkFile_left (w : world) (name line : list ascii) (times : option FileTimes) :
  (input_left (snd (sinkFile opts w name line times)) <= input_left w)%nat.
Proof.
  unfold sinkFile, sinkFile_target, sinkFile_open, sinkFile_payload, Stat, Fstat.
  repeat left_step;
    first [ lia
          | match goal with
            | |- (input_left (snd (teeError ?w0 ?e)) <= _)%nat =>
                rewrite (teeError_left w0 e); lia
            | |- (input_left (snd (sinkFile_finish _ ?w0 ?n ?p ?s ?x ?st0 ?t ?pe)) <= _)%nat =>
                pose proof (sinkFile_finish_left w0 n p s x st0 t pe); lia
            end ].
Qed.

Lemma prepareDir_left (w : world) (name : list ascii) (perm : Z) :
  input_left (snd (prepareDir opts w name perm)) = input_left w.
Proof.
  unfold prepareDir, Stat. repeat left_step; lia.
Qed.

Lemma sinkDir_finish_left (w : world) (name : list ascii) (perm : Z) (resetPerm : bool)
    (times : option FileTimes) (errs : list error) :
  input_left (snd (sinkDir_finish w name perm resetPerm times errs)) = input_left w.
Proof.
  unfold sinkDir_finish, pend. repeat left_step; lia.
Qed.

Lemma sink_S (fuel : nat) (w : world) (path : list ascii) (recur : bool) :
  sink opts (S fuel) w path recur
  = match (if targetDir opts then
             match Stat w path with
             | inl err => Some (teeError w (FatalError (Error err)))
             | inr st =>
                 if negb (IsDir st)
                 then Some (teeError w (FatalError (path ++ lit ": is not a directory")))
                 else None
             end
           else None) with
    | Some r => Some r
    | None =>
        match out_Print [NUL] w with
        | (Some err, w) => Some (Some (FatalError (Error err)), w)
        | (None, w) => sink_loop opts fuel w path recur [] None true
        end
    end.
Proof. reflexivity. Qed.

Lemma sinkDir_S (fuel : nat) (w : world) (parent line : list ascii)
    (times : option FileTimes) :
  sinkDir opts (S fuel) w parent line times
  = if negb (iamRecursive opts)
    then Some (teeError w (FatalError (lit "received directory without -r flag")))
    else
      let '(perm, _, name, err) := parseSubj line in
      match err with
      | Some err => Some (teeError w (FatalError (Error err)))
      | None =>
          let name := path_Join parent name in
          match prepareDir opts w name perm with
          | ((_, Some err), w) => Some (teeError w err)
          | ((resetPerm, None), w) =>
              match sink opts fuel w name true with
              | None => None
              | Some (err, w) =>
                  if isFatal err then Some (err, w)
                  else Some (sinkDir_finish w name perm resetPerm times (opt_list err))
              end
          end
      end.
Proof. reflexivity. Qed.

Lemma sink_enough_fuel (fuel : nat) :
  (forall w path recur,
     (3 * input_left w + 2 <= fuel)%nat ->
     exists r w', sink opts fuel w path recur = Some (r, w')
                  /\ (input_left w' <= input_left w)%nat)
  /\ (forall w path recur errs times first,
        (3 * input_left w + 1 <= fuel)%nat ->
        exists r w', sink_loop opts fuel w path recur errs times first = Some (r, w')
                     /\ (input_left w' <= input_left w)%nat)
  /\ (forall w parent line times,
        (3 * input_left w + 3 <= fuel)%nat ->
        exists r w', sinkDir opts fuel w parent line times = Some (r, w')
                     /\ (input_left w' <= input_left w)%nat).
Proof.
  induction fuel as [|fuel (IHsink & IHloop & IHdir)].
  { repeat split; intros; lia. }
  assert (Htee : forall (w0 w : world) (e : error),
            (input_left w0 <= input_left w)%nat ->
            exists r w', Some (teeError w0 e) = Some (r, w')
                         /\ (input_left w' <= input_left w)%nat).
  { intros w0 w e Hle. pose proof (teeError_left w0 e) as H.
    destruct (teeError w0 e) as [r w']. cbn [snd] in H. exists r, w'. split; [ reflexivity | lia ]. }
  assert (Hret : forall (r : option error) (w0 w : world),
            (input_left w0 <= input_left w)%nat ->
            exists r' w', Some (r, w0) = Some (r', w')
                          /\ (input_left w' <= input_left w)%nat).
  { intros r w0 w Hle. exists r, w0. auto. }
  split; [ | split ].
  - intros w path recur Hfuel. rewrite sink_S.
    assert (Hgo : exists r w',
              match out_Print [NUL] w with
              | (Some err, w0) => Some (Some (FatalError (Error err)), w0)
              | (None, w0) => sink_loop opts fuel w0 path recur [] None true
              end = Some (r, w') /\ (input_left w' <= input_left w)%nat).
    { pose proof (out_Print_left [NUL] w) as Ho.
      destruct (out_Print [NUL] w) as [[e|] w0]; cbn [snd] in Ho.
      - apply Hret. lia.
      - destruct (IHloop w0 path recur [] None true) as (r & w' & -> & Hle); [ lia | ].
        exists r, w'. split; [ reflexivity | lia ]. }
    destruct (targetDir opts); lazy beta match zeta; [ | exact Hgo ].
    destruct (Stat w path) as [e|st]; lazy beta match zeta; [ apply Htee; lia | ].
    destruct (negb (IsDir st)); lazy beta match zeta; [ apply Htee; lia | exact Hgo ].
  - intros w path recur errs times first Hfuel. cbn [sink_loop].
    pose proof (in_ReadByte_left w) as Hb.
    destruct (in_ReadByte w) as [[e|prefix] w1].
    { subst w1. destruct e; apply Hret; lia. }
    pose proof (readLine_left w1) as Hl.
    destruct (readLine w1) as [[e|line] w2]; [ apply Hret; lia | ].
    assert (Hnext : forall w3 errs' times',
              (input_left w3 <= input_left w2)%nat ->
              exists r w', sink_loop opts fuel w3 path recur errs' times' false = Some (r, w')
                           /\ (input_left w' <= input_left w)%nat).
    { intros w3 errs' times' Hle.
      destruct (IHloop w3 path recur errs' times' false) as (r & w' & -> & Hle'); [ lia | ].
      exists r, w'. split; [ reflexivity | lia ]. }
    assert (Hack : forall times',
              exists r w',
                match out_Print [NUL] w2 with
                | (Some err, w0) => Some (Some (FatalError (Error err)), w0)
                | (None, w0) => sink_loop opts fuel w0 path recur errs times' false
                end = Some (r, w') /\ (input_left w' <= input_left w)%nat).
    { intros times'. pose proof (out_Print_left [NUL] w2) as Ho.
      destruct (out_Print [NUL] w2) as [[e|] w0]; cbn [snd] in Ho.
      - apply Hret. lia.
      - apply Hnext. lia. }
    destruct (ascii_eqb prefix SOH); [ apply Hnext; lia | ].
    destruct (ascii_eqb prefix STX); [ apply Hret; lia | ].
    destruct (ascii_eqb prefix "E").
    { destruct (negb recur); [ apply Htee; lia | apply Hack ]. }
    destruct (ascii_eqb prefix "T").
    { destruct (ts_err (Sscanf_times line)); [ apply Htee; lia | ].
      destruct (negb (ts_n (Sscanf_times line) =? 4)); [ apply Htee; lia | apply Hack ]. }
    destruct (ascii_eqb prefix "D").
    { destruct (IHdir w2 path line times) as (r & w3 & Hd & Hle); [ lia | ].
      match goal with
      | |- context [match ?X with Some _ => _ | None => _ end] =>
          change X with (sinkDir opts fuel w2 path line times)
      end.
      rewrite Hd.
      destruct (isFatal r); [ apply Hret; lia | apply Hnext; lia ]. }
    destruct (ascii_eqb prefix "C").
    { pose proof (sinkFile_left w2 path line times) as Hf.
      destruct (sinkFile opts w2 path line times) as [r w3]. cbn [snd] in Hf.
      destruct (isFatal r); [ apply Hret; lia | apply Hnext; lia ]. }
    apply Htee. lia.
  - intros w parent line times Hfuel. rewrite sinkDir_S.
    destruct (negb (iamRecursive opts)); [ apply Htee; lia | ].
    destruct (parseSubj line) as [[[perm size] name] [err|]]; [ apply Htee; lia | ].
    lazy beta match zeta.
    pose proof (prepareDir_left w (path_Join parent name) perm) as Hp.
    destruct (prepareDir opts w (path_Join parent name) perm) as [[resetPerm [err|]] w1];
      cbn [snd] in Hp; [ apply Htee; lia | ].
    destruct (IHsink w1 (path_Join parent name) true) as (r & w2 & -> & Hle); [ lia | ].
    destruct (isFatal r); [ apply Hret; lia | ].
    pose proof (sinkDir_finish_left w2 (path_Join parent name) perm resetPerm times
                  (opt_list r)) as Hfin.
    destruct (sinkDir_finish w2 (path_Join parent name) perm resetPerm times (opt_list r))
      as [r' w3].
    cbn [snd] in Hfin. exists r', w3. split; [ reflexivity | lia ].
Qed.

(** With fuel above three times the length of the input, [sink] returns. *)
Theorem sink_returns (w : world) (path : list ascii) (recur : bool) (fuel : nat) :
  (3 * input_left w + 2 <= fuel)%nat ->
  exists r w', sink opts fuel w path recur = Some (r, w').
Proof.
  intros Hfuel.
  destruct (proj1 (sink_enough_fuel fuel) w path recur Hfuel) as (r & w' & H & _).
  eauto.
Qed.

End Fuel.

(** * Further properties of the package *)

(** ** Shared lemmas *)

Lemma until_newline_none (d : list ascii) :
  forall acc, NL ∉ d -> until_newline acc d = None.
Proof.
  induction d as [|ch d IH]; intros acc Hnl; simpl; [ reflexivity | ].
  apply not_elem_of_cons in Hnl as [Hch Hd].
  unfold ascii_eqb. destruct (Ascii.eqb_spec ch NL) as [->|_]; [ congruence | ].
  apply IH, Hd.
Qed.

Lemma ack_zero (w : world) (rest : list ascii) :
  r_data (stdin w) = NUL :: rest -> ack w = (None, rest_of_input w rest).
Proof. intros H. unfold ack. rewrite (in_ReadByte_cons w NUL rest H). reflexivity. Qed.

Lemma teeError_room (w : world) (err : error) :
  has_room w (length ([SOH] ++ error_body err ++ [NL])) ->
  teeError w err = (Some err, emit w ([SOH] ++ error_body err ++ [NL])).
Proof.
  intros Hroom. unfold teeError, sendError.
  rewrite out_Print_room by exact Hroom. reflexivity.
Qed.

Lemma room_for_all (w : world) (n : nat) : w_room (stdout w) = None -> has_room w n.
Proof. intros H. unfold has_room. rewrite H. exact I. Qed.

Lemma emit_rest_of_input (w : world) (bs rest : list ascii) :
  emit (rest_of_input w rest) bs = rest_of_input (emit w bs) rest.
Proof. reflexivity. Qed.

Lemma rest_of_input_twice (w : world) (a b : list ascii) :
  rest_of_input (rest_of_input w a) b = rest_of_input w b.
Proof. reflexivity. Qed.

(** ** The line protocol *)

(** [readLine] gives the bytes before the first newline and leaves what
    follows it; on an input without newline it takes everything and
    gives the error the input ends with. *)
Theorem readLine_splits_at_first_newline (w : world) (line rest : list ascii) :
  NL ∉ line ->
  (r_data (stdin w) = line ++ NL :: rest -> readLine w = (inr line, rest_of_input w rest))
  /\ (r_data (stdin w) = line ->
      readLine w = (inl (end_of_input (stdin w)), rest_of_input w [])).
Proof.
  intros Hnl. split; intros H.
  - apply readLine_line; assumption.
  - unfold readLine. rewrite H, until_newline_none by assumption. reflexivity.
Qed.

Lemma readLine_splits_at_first_newline_witness :
  let w := world_of ∅ (lit "one" ++ [NL] ++ lit "two" ++ [NL]) in
  readLine w = (inr (lit "one"), rest_of_input w (lit "two" ++ [NL])).
Proof.
  intros w.
  apply (proj1 (readLine_splits_at_first_newline w (lit "one") (lit "two" ++ [NL])
                  ltac:(apply (bool_decide_unpack _); vm_compute; exact I))).
  reflexivity.
Defined.

(** [ack] takes one reply off the input: a zero byte is a success and
    nothing more is read; any other byte is followed by a line, and the
    reply is a soft error for [\x01], a fatal one for [\x02] and a
    protocol error otherwise; an input that ends before the reply is
    complete is a fatal error. *)
Theorem ack_reads_one_reply (w : world) (kind : ascii) (line rest : list ascii) :
  NL ∉ line -> kind <> NUL ->
  (r_data (stdin w) = [] ->
   ack w = (Some (FatalError (Error (end_of_input (stdin w)))), w))
  /\ (r_data (stdin w) = NUL :: rest -> ack w = (None, rest_of_input w rest))
  /\ (r_data (stdin w) = kind :: line ++ NL :: rest ->
      ack w = (Some (reply_error kind line), rest_of_input w rest))
  /\ (r_data (stdin w) = kind :: line ->
      ack w = (Some (FatalError (Error (end_of_input (stdin w)))), rest_of_input w [])).
Proof.
  intros Hnl Hkind.
  assert (Hk : ascii_eqb kind NUL = false).
  { unfold ascii_eqb. apply Ascii.eqb_neq. exact Hkind. }
  repeat split; intros H; unfold ack.
  - unfold in_ReadByte. rewrite H. reflexivity.
  - rewrite (in_ReadByte_cons w NUL rest H). reflexivity.
  - destruct (read_frame w kind line rest H Hnl) as [-> Hl].
    rewrite Hk, Hl. unfold reply_error.
    destruct (ascii_eqb kind SOH); [ reflexivity | ].
    destruct (ascii_eqb kind STX); reflexivity.
  - rewrite (in_ReadByte_cons w kind line H), Hk.
    unfold readLine. cbn [rest_of_input stdin set_stdin r_data r_fail].
    rewrite until_newline_none by assumption. reflexivity.
Qed.

Lemma ack_reads_one_reply_witness :
  let w := world_of ∅ ([STX] ++ lit "broken" ++ [NL] ++ lit "more") in
  ack w = (Some (FatalError (lit "broken")), rest_of_input w (lit "more")).
Proof.
  intros w.
  apply (proj1 (proj2 (proj2 (ack_reads_one_reply w STX (lit "broken") (lit "more")
                  ltac:(apply (bool_decide_unpack _); vm_compute; exact I)
                  ltac:(discriminate))))).
  reflexivity.
Defined.

(** Whatever error [sendError] is given, fatal ones included, the line it
    writes is read by the peer's [ack] as a soft error carrying the
    body of the line. *)
Theorem sent_error_is_read_as_soft (w peer : world) (err : error) (rest : list ascii) :
  let sent := [SOH] ++ error_body err ++ [NL] in
  has_room w (length sent) ->
  r_data (stdin peer) = sent ++ rest ->
  sendError w err = (None, emit w sent)
  /\ ack peer = (Some (Plain (error_body err)), rest_of_input peer rest)
  /\ isFatal (Some (Plain (error_body err))) = false.
Proof.
  intros sent Hroom Hpeer. split; [ | split; [ | reflexivity ] ].
  - unfold sendError. fold sent. rewrite out_Print_room by exact Hroom. reflexivity.
  - subst sent. cbn [app] in Hpeer. rewrite <- app_assoc in Hpeer. cbn [app] in Hpeer.
    unfold ack.
    destruct (read_frame peer SOH (error_body err) rest Hpeer (error_body_no_newline err))
      as [-> ->].
    reflexivity.
Qed.

Lemma sent_error_is_read_as_soft_witness :
  let w := world_of ∅ [] in
  let err := FatalError (lit "disk" ++ [NL] ++ lit "gone") in
  let peer := world_of ∅ ([SOH] ++ lit "disk; gone" ++ [NL] ++ [NUL]) in
  sendError w err = (None, emit w ([SOH] ++ lit "disk; gone" ++ [NL]))
  /\ ack peer = (Some (Plain (lit "disk; gone")), rest_of_input peer [NUL])
  /\ isFatal (Some (Plain (lit "disk; gone"))) = false.
Proof.
  intros w err peer.
  apply (sent_error_is_read_as_soft w peer err [NUL]).
  - exact I.
  - reflexivity.
Defined.

(** [teeError] never returns nil: it returns the error it was given when
    the output takes the whole line, and a fatal error when it does not;
    the file system and the input are left alone either way. *)
Theorem teeError_returns_error_or_fatal (w : world) (err : error) :
  let sent := [SOH] ++ error_body err ++ [NL] in
  (has_room w (length sent) -> teeError w err = (Some err, emit w sent))
  /\ (~ has_room w (length sent) -> isFatal (fst (teeError w err)) = true)
  /\ fst (teeError w err) <> None
  /\ fs (snd (teeError w err)) = fs w
  /\ stdin (snd (teeError w err)) = stdin w.
Proof.
  intros sent.
  split; [ | split; [ | split; [ apply teeError_is_error | split; [ apply teeError_fs | ] ] ] ].
  - intros Hb. apply teeError_room, Hb.
  - intros Hb. unfold has_room in Hb.
    unfold teeError, sendError, out_Print, out_Write. fold sent.
    destruct (w_room (stdout w)) as [room|]; [ | tauto ].
    rewrite (proj2 (Nat.leb_gt _ _)) by lia. reflexivity.
  - unfold teeError, sendError, out_Print, out_Write.
    destruct (w_room (stdout w)) as [room|]; [ destruct (_ <=? room)%nat | ]; reflexivity.
Qed.

Lemma teeError_returns_error_or_fatal_witness :
  let w := World ∅ (Reader [] None) (Writer [] (Some 3%nat)) 18 None None [] in
  isFatal (fst (teeError w (Plain (lit "no such file")))) = true.
Proof.
  intros w.
  apply (proj1 (proj2 (teeError_returns_error_or_fatal w (Plain (lit "no such file"))))).
  vm_compute. lia.
Defined.

(** A header line [parseSubj] accepts has three scanned fields, a mode
    within the bits of [toStdPerm], and a name that is not [..] and
    holds no [/]. *)
Theorem parseSubj_accepts_only_plain_names {lib : GoLib} (line : list ascii)
    (perm size : Z) (name : list ascii) :
  parseSubj line = (perm, size, name, None) ->
  name <> lit ".." /\ ("/"%char ∉ name)
  /\ ss_n (Sscanf_subj line) = 3
  /\ perm = toStdPerm (ss_perm (Sscanf_subj line))
  /\ only_bits std_bits perm
  /\ size = ss_size (Sscanf_subj line)
  /\ name = ss_name (Sscanf_subj line).
Proof.
  unfold parseSubj.
  destruct (ss_err (Sscanf_subj line)); [ discriminate | ].
  destruct (Z.eqb_spec (ss_n (Sscanf_subj line)) 3) as [Hn|]; [ | discriminate ].
  cbn [negb].
  destruct (bytes_eqb (ss_name (Sscanf_subj line)) (lit "..")) eqn:Hdots; [ discriminate | ].
  destruct (ContainsRune (ss_name (Sscanf_subj line)) "/") eqn:Hslash; [ discriminate | ].
  cbn [orb]. intros H. inversion H; subst.
  repeat split; try reflexivity; try assumption.
  - intros Heq. unfold bytes_eqb in Hdots. apply bool_decide_eq_false_1 in Hdots. contradiction.
  - intros Hin. rewrite (ContainsRune_elem _ _ Hin) in Hslash. discriminate.
  - apply toStdPerm_only_std_bits.
Qed.

Lemma parseSubj_accepts_only_plain_names_witness :
  lit "hello.txt" <> lit ".." /\ ("/"%char ∉ lit "hello.txt")
  /\ ss_n (scan_subj (lit "0644 3 hello.txt")) = 3
  /\ 420 = toStdPerm (ss_perm (scan_subj (lit "0644 3 hello.txt")))
  /\ only_bits std_bits 420
  /\ 3 = ss_size (scan_subj (lit "0644 3 hello.txt"))
  /\ lit "hello.txt" = ss_name (scan_subj (lit "0644 3 hello.txt")).
Proof.
  apply (parseSubj_accepts_only_plain_names (lib := stdlib) (lit "0644 3 hello.txt")
           420 3 (lit "hello.txt")).
  reflexivity.
Defined.

Lemma toStdPerm_toPosixPerm (m : Z) :
  toStdPerm (toPosixPerm m) = Z.land m std_bits.
Proof.
  apply Z.bits_inj'. intros n Hn.
  rewrite Z.land_spec, testbit_std_bits, testbit_toStdPerm by lia.
  rewrite !testbit_toPosixPerm by lia.
  change (11 =? 11) with true. change (10 =? 10) with true.
  change (11 <? 9) with false. change (10 <? 9) with false.
  change (10 =? 11) with false. change (11 =? 10) with false.
  rewrite !andb_false_r, !andb_true_r, !orb_false_r, !orb_false_l.
  destruct (Z.ltb_spec n 9) as [Hlt|Hge].
  - replace (23 =? n) with false by (symmetry; apply Z.eqb_neq; lia).
    replace (22 =? n) with false by (symmetry; apply Z.eqb_neq; lia).
    replace (11 =? n) with false by (symmetry; apply Z.eqb_neq; lia).
    replace (10 =? n) with false by (symmetry; apply Z.eqb_neq; lia).
    rewrite !andb_false_r, !andb_true_r, !orb_false_r. reflexivity.
  - rewrite !andb_false_r, !orb_false_l.
    destruct (Z.eqb_spec 23 n) as [<-|H23].
    { change (22 =? 23) with false. rewrite !andb_true_r, !andb_false_r, !orb_false_r.
      reflexivity. }
    destruct (Z.eqb_spec 22 n) as [<-|H22].
    { rewrite !andb_true_r, !andb_false_r. reflexivity. }
    rewrite !andb_false_r. reflexivity.
Qed.

(** The translation the other way round: [toStdPerm (toPosixPerm m)] is
    [m] cut down to the permission, setuid and setgid bits. *)
Theorem mode_round_trip_from_std (m : Z) :
  toStdPerm (toPosixPerm m) = Z.land m std_bits.
Proof. exact (toStdPerm_toPosixPerm m). Qed.

(** ** The dispatch loop of the sink *)

Lemma sink_loop_eof {lib : GoLib} (opts : options) (fuel : nat) (w : world)
    (path : list ascii) (recur : bool) (errs : list error) (times : option FileTimes)
    (first : bool) :
  r_data (stdin w) = [] -> r_fail (stdin w) = None ->
  sink_loop opts (S fuel) w path recur errs times first = Some (acc_or_nil errs, w).
Proof.
  intros Hd Hf. cbn [sink_loop]. unfold in_ReadByte, end_of_input. rewrite Hd, Hf.
  reflexivity.
Qed.

(** On an input that holds nothing but soft-error frames, [sink] writes
    the one handshake byte, takes every frame and, at the end of the
    input, returns the messages in the order received as one
    [AccError], or nil when there were none. *)
Theorem sink_collects_soft_errors {lib : GoLib} (opts : options) (fuel : nat) (w : world)
    (path : list ascii) (recur : bool) (msgs : list (list ascii)) :
  targetDir opts = false -> has_room w 1 ->
  Forall (fun m => NL ∉ m) msgs ->
  r_data (stdin w) = soft_frames msgs -> r_fail (stdin w) = None ->
  sink opts (S (length msgs + S fuel)) w path recur
  = Some (acc_or_nil (List.map Plain msgs), rest_of_input (emit w [NUL]) []).
Proof.
  intros Htd Hroom Hmsgs Hin Hfail. rewrite sink_S, Htd.
  rewrite out_Print_room by exact Hroom.
  rewrite (sink_loop_softs opts msgs (S fuel) (emit w [NUL]) path recur [] None true []
             Hmsgs) by (rewrite app_nil_r; exact Hin).
  apply sink_loop_eof; [ reflexivity | exact Hfail ].
Qed.

Lemma sink_collects_soft_errors_witness :
  let w := world_of only_t (soft_frames [lit "first"; lit "second"]) in
  sink (lib := stdlib) plain 4 w (lit "t") false
  = Some (Some (AccError [Plain (lit "first"); Plain (lit "second")]),
          rest_of_input (emit w [NUL]) []).
Proof.
  intros w.
  apply (sink_collects_soft_errors (lib := stdlib) plain 0 w (lit "t") false
           [lit "first"; lit "second"]).
  - reflexivity.
  - exact I.
  - repeat constructor; apply (bool_decide_unpack _); vm_compute; exact I.
  - reflexivity.
  - reflexivity.
Defined.

(** With [-d], a target that cannot be examined or is not a directory
    makes [sink] return a fatal error before the handshake: all it
    writes is the error line, no acknowledgement byte, and the file
    system and the input are untouched. *)
Theorem sink_requires_directory_target {lib : GoLib} (opts : options) (fuel : nat)
    (w : world) (path : list ascii) (recur : bool) (msg : list ascii) :
  let sent := [SOH] ++ error_body (FatalError msg) ++ [NL] in
  targetDir opts = true ->
  (exists err, Stat w path = inl err /\ msg = Error err)
  \/ (exists st, Stat w path = inr st /\ IsDir st = false
                 /\ msg = path ++ lit ": is not a directory") ->
  has_room w (length sent) ->
  sink opts (S fuel) w path recur = Some (Some (FatalError msg), emit w sent)
  /\ fs (emit w sent) = fs w
  /\ stdin (emit w sent) = stdin w
  /\ w_data (stdout (emit w sent)) = w_data (stdout w) ++ sent.
Proof.
  intros sent Htd Hcase Hroom.
  split; [ | repeat split ].
  rewrite sink_S, Htd.
  assert (Htee : teeError w (FatalError msg) = (Some (FatalError msg), emit w sent))
    by (apply teeError_room; exact Hroom).
  destruct Hcase as [(err & Hst & ->) | (st & Hst & Hdir & ->)].
  - rewrite Hst, Htee. reflexivity.
  - rewrite Hst, Hdir. cbn [negb]. rewrite Htee. reflexivity.
Qed.

Lemma sink_requires_directory_target_witness :
  let opts := Options false true false in
  let w := world_of {[ lit "t" := file_node 420 (lit "x") ]} (frame "C" (lit "0644 1 f")) in
  let sent := [SOH] ++ lit "t: is not a directory" ++ [NL] in
  sink (lib := stdlib) opts 1 w (lit "t") false
  = Some (Some (FatalError (lit "t: is not a directory")), emit w sent)
  /\ fs (emit w sent) = fs w
  /\ stdin (emit w sent) = stdin w
  /\ w_data (stdout (emit w sent)) = w_data (stdout w) ++ sent.
Proof.
  intros opts w sent.
  apply (sink_requires_directory_target (lib := stdlib) opts 0 w (lit "t") false
           (lit "t: is not a directory")).
  - reflexivity.
  - right. exists (file_node 420 (lit "x")). repeat split; reflexivity.
  - exact I.
Defined.

(** A [D] frame received without [-r] is a fatal error, whatever its
    header line: nothing is parsed, made or changed. *)
Theorem directory_needs_recursive_flag {lib : GoLib} (opts : options) (fuel : nat)
    (w : world) (path : list ascii) (recur : bool) (errs : list error)
    (times : option FileTimes) (first : bool) (line rest : list ascii) :
  let msg := lit "received directory without -r flag" in
  let sent := [SOH] ++ error_body (FatalError msg) ++ [NL] in
  iamRecursive opts = false ->
  r_data (stdin w) = frame "D" line ++ rest -> NL ∉ line ->
  has_room w (length sent) ->
  sink_loop opts (S (S fuel)) w path recur errs times first
  = Some (Some (FatalError msg), emit (rest_of_input w rest) sent)
  /\ fs (emit (rest_of_input w rest) sent) = fs w.
Proof.
  intros msg sent Hr Hin Hnl Hroom. split; [ | reflexivity ].
  rewrite (sink_loop_dir opts (S fuel) w path recur errs times first line rest Hin Hnl).
  rewrite sinkDir_S, Hr. cbn [negb]. lazy beta match.
  fold msg.
  rewrite (teeError_room (rest_of_input w rest) (FatalError msg)) by exact Hroom.
  reflexivity.
Qed.

Lemma directory_needs_recursive_flag_witness :
  let w := world_of only_t (frame "D" (lit "0755 0 d") ++ frame "E" []) in
  let msg := lit "received directory without -r flag" in
  let sent := [SOH] ++ msg ++ [NL] in
  sink_loop (lib := stdlib) plain 2 w (lit "t") false [] None true
  = Some (Some (FatalError msg), emit (rest_of_input w (frame "E" [])) sent)
  /\ fs (emit (rest_of_input w (frame "E" [])) sent) = fs w.
Proof.
  intros w msg sent.
  apply (directory_needs_recursive_flag (lib := stdlib) plain 0 w (lit "t") false [] None true
           (lit "0755 0 d") (frame "E" [])).
  - reflexivity.
  - reflexivity.
  - apply (bool_decide_unpack _). vm_compute. exact I.
  - exact I.
Defined.

Lemma sink_loop_unknown {lib : GoLib} (opts : options) (fuel : nat)
    (w : world) (path : list ascii) (recur : bool) (errs : list error)
    (times : option FileTimes) (first : bool) (prefix : ascii) (line rest : list ascii) :
  prefix ∉ [SOH; STX; "E"%char; "T"%char; "D"%char; "C"%char] ->
  r_data (stdin w) = frame prefix line ++ rest -> NL ∉ line ->
  sink_loop opts (S fuel) w path recur errs times first
  = Some (teeError (rest_of_input w rest)
            (if first then FatalError (prefix :: line) else protocolErr)).
Proof.
  intros Hp Hin Hnl.
  assert (Hne : forall c, c ∈ [SOH; STX; "E"%char; "T"%char; "D"%char; "C"%char] ->
                          ascii_eqb prefix c = false).
  { intros c Hc. unfold ascii_eqb. apply Ascii.eqb_neq. intros ->. contradiction. }
  unfold frame in Hin. simpl in Hin. rewrite <- app_assoc in Hin. simpl in Hin.
  destruct (read_frame w prefix line rest Hin Hnl) as [Hb Hl].
  cbn [sink_loop]. rewrite Hb, Hl.
  rewrite !Hne by (apply (bool_decide_unpack _); vm_compute; exact I).
  destruct first; reflexivity.
Qed.

(** A frame of an unknown kind ends a [sink] invocation, the outermost
    one or one entered for a received directory, with a fatal error that
    is teed to the peer, and no file is touched.  When it is the first
    frame the invocation reads, the message is the frame itself, prefix
    byte and line; when soft-error frames of this invocation came before
    it, the message is [protocol error]. *)
Theorem unknown_frame_is_fatal {lib : GoLib} (opts : options) (fuel : nat)
    (w : world) (path : list ascii) (recur : bool) (msgs : list (list ascii))
    (prefix : ascii) (line rest : list ascii) :
  let err := match msgs with
             | [] => FatalError (prefix :: line)
             | _ => protocolErr
             end in
  let w' := rest_of_input (emit w [NUL]) rest in
  prefix ∉ [SOH; STX; "E"%char; "T"%char; "D"%char; "C"%char] ->
  NL ∉ line -> Forall (fun m => NL ∉ m) msgs ->
  (targetDir opts = true -> exists st, Stat w path = inr st /\ IsDir st = true) ->
  has_room w 1 ->
  r_data (stdin w) = soft_frames msgs ++ frame prefix line ++ rest ->
  sink opts (S (length msgs + S fuel)) w path recur = Some (teeError w' err)
  /\ isFatal (fst (teeError w' err)) = true
  /\ fs (snd (teeError w' err)) = fs w.
Proof.
  intros err w' Hp Hnl Hmsgs Hchk Hroom Hin.
  split; [ | split ].
  - rewrite sink_S.
    replace (if targetDir opts then _ else None) with (@None (option error * world)).
    2:{ destruct (targetDir opts); [ | reflexivity ].
        destruct (Hchk eq_refl) as (st & -> & ->). reflexivity. }
    rewrite out_Print_room by exact Hroom.
    rewrite (sink_loop_softs opts msgs (S fuel) (emit w [NUL]) path recur [] None true
               (frame prefix line ++ rest) Hmsgs) by exact Hin.
    rewrite (sink_loop_unknown opts fuel _ path recur _ None _ prefix line rest Hp)
      by (reflexivity || exact Hnl).
    subst err w'. destruct msgs; reflexivity.
  - subst err. destruct msgs; apply teeError_fatal.
  - rewrite teeError_fs. reflexivity.
Qed.

Lemma unknown_frame_is_fatal_witness :
  let w := world_of only_t (soft_frames [lit "busy"] ++ frame "Q" (lit "xyz") ++ [NUL]) in
  let w' := rest_of_input (emit w [NUL]) [NUL] in
  sink (lib := stdlib) recursive 3 w (lit "t") true = Some (teeError w' protocolErr)
  /\ isFatal (fst (teeError w' protocolErr)) = true
  /\ fs (snd (teeError w' protocolErr)) = fs w.
Proof.
  intros w w'.
  apply (unknown_frame_is_fatal (lib := stdlib) recursive 0 w (lit "t") true [lit "busy"]
           "Q"%char (lit "xyz") [NUL]).
  - apply (bool_decide_unpack _). vm_compute. exact I.
  - apply (bool_decide_unpack _). vm_compute. exact I.
  - repeat constructor. apply (bool_decide_unpack _). vm_compute. exact I.
  - discriminate.
  - exact I.
  - reflexivity.
Defined.

(** At the top level ([recur] false) an [E] frame is a protocol error,
    teed to the peer; what follows [E] on its line is not looked at. *)
Theorem end_frame_at_top_level_is_fatal {lib : GoLib} (opts : options) (fuel : nat)
    (w : world) (path : list ascii) (errs : list error)
    (times : option FileTimes) (first : bool) (line rest : list ascii) :
  r_data (stdin w) = frame "E" line ++ rest -> NL ∉ line ->
  sink_loop opts (S fuel) w path false errs times first
  = Some (teeError (rest_of_input w rest) protocolErr)
  /\ isFatal (fst (teeError (rest_of_input w rest) protocolErr)) = true
  /\ fs (snd (teeError (rest_of_input w rest) protocolErr)) = fs w.
Proof.
  intros Hin Hnl.
  split; [ | split; [ apply teeError_fatal | rewrite teeError_fs; reflexivity ] ].
  unfold frame in Hin. simpl in Hin. rewrite <- app_assoc in Hin. simpl in Hin.
  destruct (read_frame w "E" line rest Hin Hnl) as [Hb Hl].
  cbn [sink_loop]. rewrite Hb, Hl. reflexivity.
Qed.

Lemma end_frame_at_top_level_is_fatal_witness :
  let w := world_of only_t (frame "E" [] ++ frame "C" (lit "0644 0 f")) in
  sink_loop (lib := stdlib) plain 1 w (lit "t") false [] None true
  = Some (teeError (rest_of_input w (frame "C" (lit "0644 0 f"))) protocolErr)
  /\ isFatal (fst (teeError (rest_of_input w (frame "C" (lit "0644 0 f"))) protocolErr)) = true
  /\ fs (snd (teeError (rest_of_input w (frame "C" (lit "0644 0 f"))) protocolErr)) = fs w.
Proof.
  intros w.
  apply (end_frame_at_top_level_is_fatal (lib := stdlib) plain 0 w (lit "t") [] None true
           [] (frame "C" (lit "0644 0 f"))).
  - reflexivity.
  - apply not_elem_of_nil.
Defined.

(** A [T] frame whose four fields scan is acknowledged and its times
    become the pending ones, replacing any that were pending: of two
    [T] frames in a row the later one counts. *)
Theorem times_frame_replaces_pending {lib : GoLib} (opts : options) (fuel : nat)
    (w : world) (path : list ascii) (recur : bool) (errs : list error)
    (times : option FileTimes) (first : bool) (line rest : list ascii)
    (msec musec asec ausec : Z) :
  Sscanf_times line = TimesScan 4 None msec musec asec ausec ->
  r_data (stdin w) = frame "T" line ++ rest -> NL ∉ line ->
  has_room w 1 ->
  sink_loop opts (S fuel) w path recur errs times first
  = sink_loop opts fuel (emit (rest_of_input w rest) [NUL]) path recur errs
      (Some (Build_FileTimes (Build_Timeval asec ausec) (Build_Timeval msec musec))) false.
Proof.
  intros Hscan Hin Hnl Hroom.
  unfold frame in Hin. simpl in Hin. rewrite <- app_assoc in Hin. simpl in Hin.
  destruct (read_frame w "T" line rest Hin Hnl) as [Hb Hl].
  cbn [sink_loop]. rewrite Hb, Hl.
  change (ascii_eqb "T" SOH) with false. change (ascii_eqb "T" STX) with false.
  change (ascii_eqb "T" "E") with false. change (ascii_eqb "T" "T") with true.
  cbn match. rewrite Hscan. cbn [ts_err ts_n ts_atime_sec ts_atime_usec ts_mtime_sec
                                   ts_mtime_usec].
  change (negb (4 =? 4)) with false. cbn match.
  rewrite out_Print_room by exact Hroom. reflexivity.
Qed.

Lemma times_frame_replaces_pending_witness :
  let w := world_of only_t (frame "T" (lit "500 0 600 0") ++ frame "C" (lit "0644 0 f")
                            ++ [NUL]) in
  let old := Build_FileTimes (Build_Timeval 2 0) (Build_Timeval 1 0) in
  sink_loop (lib := stdlib) plain 3 w (lit "t") false [] (Some old) false
  = sink_loop (lib := stdlib) plain 2
      (emit (rest_of_input w (frame "C" (lit "0644 0 f") ++ [NUL])) [NUL]) (lit "t") false []
      (Some (Build_FileTimes (Build_Timeval 600 0) (Build_Timeval 500 0))) false.
Proof.
  intros w old.
  apply (times_frame_replaces_pending (lib := stdlib) plain 2 w (lit "t") false [] (Some old)
           false (lit "500 0 600 0") (frame "C" (lit "0644 0 f") ++ [NUL]) 500 0 600 0).
  - reflexivity.
  - reflexivity.
  - apply (bool_decide_unpack _). vm_compute. exact I.
  - exact I.
Defined.

(** ** Copies that succeed *)

Lemma take_plus {A : Type} (l : list A) (a b : nat) :
  take (a + b) l = take a l ++ take b (drop a l).
Proof.
  revert l. induction a as [|a IH]; intros l; [ reflexivity | ].
  destruct l as [|x l]; simpl; [ destruct b; reflexivity | ].
  rewrite IH. reflexivity.
Qed.

Lemma stored_same (w : world) (name : list ascii) (st : node) :
  fs w !! name = Some st -> disk_room w = None ->
  stored w name st (r_data (stdin w)) = w.
Proof.
  intros Hst Hroom. unfold stored, set_disk, rest_of_input, set_stdin. cbn.
  rewrite insert_id by exact Hst.
  destruct w as [m [d f] o u dr rl dn]. cbn in *. subst dr. reflexivity.
Qed.

Lemma stored_stored (w : world) (name : list ascii) (n1 n2 : node) (r1 r2 : list ascii) :
  stored (stored w name n1 r1) name n2 r2 = stored w name n2 r2.
Proof.
  unfold stored, set_disk, rest_of_input, set_stdin. cbn.
  rewrite insert_insert_eq. reflexivity.
Qed.

(** The copy of the payload into a regular file on a disk that does not
    fill up: the bytes taken off the input overwrite the file from the
    offset on. *)
Lemma in_file_loop (name : list ascii) (fuel : nat) :
  forall (written N : Z) (off : nat) (w : world) (st : node),
  fs w !! name = Some st -> n_kind st = Regular -> disk_room w = None ->
  (off <= length (n_data st))%nat ->
  (input_left w < fuel)%nat ->
  io_Copy_loop (LimitReader in_reader) (file_writer name) fuel written (N, (off, w))
  = let d := r_data (stdin w) in
    let got := take (Z.to_nat N) d in
    let data := take off (n_data st) ++ got ++ drop (off + length got) (n_data st) in
    ((written + Z.of_nat (length got),
      if (Z.to_nat N <=? length d)%nat then None else input_error w),
     (N - Z.of_nat (length got),
      ((off + length got)%nat,
       stored w name (Node Regular (n_mode st) data (n_times st)) (drop (Z.to_nat N) d)))).
Proof.
  induction fuel as [|fuel IH]; intros written N off w st Hst Hk Hroom Hoff Hfuel;
    [ lia | ].
  assert (Hsame : Node Regular (n_mode st)
                    (take off (n_data st) ++ [] ++ drop (off + 0) (n_data st)) (n_times st)
                  = st).
  { destruct st as [k m dt t]. cbn in *. subst k.
    rewrite Nat.add_0_r, take_drop. reflexivity. }
  cbn [io_Copy_loop]. unfold LimitReader at 1.
  destruct (Z.leb_spec N 0) as [HN|HN].
  - cbn zeta. replace (Z.to_nat N) with 0%nat by lia. rewrite take_0, drop_0.
    cbn [length]. rewrite Hsame, stored_same by assumption.
    cbn. f_equal; [ f_equal; lia | f_equal; [ lia | f_equal; lia ] ].
  - rewrite limit_chunk by assumption.
    pose proof (chunk_pos N HN) as Hc.
    unfold in_reader at 1, in_Read. cbn [fst snd].
    destruct (r_data (stdin w)) as [|c d] eqn:Hd.
    + cbn zeta. rewrite take_nil, drop_nil. cbn [length].
      rewrite <- Hd at 2. rewrite Hsame, stored_same by assumption.
      replace (Z.to_nat N <=? 0)%nat with false by (symmetry; apply Nat.leb_gt; lia).
      unfold input_error, end_of_input.
      destruct (r_fail (stdin w)); cbn; rewrite Z.add_0_r, Nat.add_0_r; reflexivity.
    + unfold chunk in *.
      destruct (Nat.min copy_buf (Z.to_nat N)) as [|n] eqn:Hn; [ lia | ].
      change (take (S n) (c :: d)) with (c :: take n d).
      lazy beta match.
      change (c :: take n d) with (take (S n) (c :: d)).
      set (bs := take (S n) (c :: d)).
      assert (Hbs : bs = c :: take n d) by reflexivity.
      set (w1 := set_stdin w (Reader (drop (S n) (c :: d)) (r_fail (stdin w)))).
      unfold file_writer at 1, file_Write.
      change (fs w1) with (fs w). change (disk_room w1) with (disk_room w).
      rewrite Hst, Hk, Hroom. rewrite Nat.ltb_irrefl.
      rewrite firstn_all.
      set (data1 := take off (n_data st) ++ bs ++ drop (off + length bs) (n_data st)).
      set (st1 := Node Regular (n_mode st) data1 (n_times st)).
      cbn [read_outcome].
      assert (Hlen1 : (off + length bs <= length data1)%nat).
      { subst data1. rewrite !length_app, length_take. lia. }
      rewrite (IH _ _ _ _ st1);
        [ | cbn; apply lookup_insert_eq | reflexivity | reflexivity | exact Hlen1
          | unfold input_left in *; cbn; rewrite Hd in Hfuel; cbn in Hfuel;
            rewrite length_drop; lia ].
      cbn zeta. cbn [stdin set_disk set_stdin r_data n_data n_mode n_times st1].
      change (set_disk w1 (<[name:=st1]> (fs w)) None)
        with (stored w name st1 (drop (S n) (c :: d))).
      rewrite stored_stored.
      assert (Hlb : length bs = Nat.min (S n) (length (c :: d))) by apply length_take.
      set (Nn := Z.to_nat N) in *.
      assert (HN1 : Z.to_nat (N - Z.of_nat (length bs)) = (Nn - length bs)%nat) by lia.
      rewrite HN1.
      set (d2 := drop (S n) (c :: d)).
      change (r_data (stdin w1)) with d2.
      assert (Hgot : take Nn (c :: d) = bs ++ take (Nn - length bs) d2).
      { replace Nn with (S n + (Nn - S n))%nat at 1 by lia.
        rewrite take_plus. fold bs d2. f_equal.
        destruct (Nat.le_gt_cases (S n) (length (c :: d))) as [Hle|Hgt].
        - replace (length bs) with (S n) by lia. reflexivity.
        - subst d2. rewrite drop_ge by lia. rewrite !take_nil. reflexivity. }
      assert (Hrest : drop (Nn - length bs) d2 = drop Nn (c :: d)).
      { subst d2. rewrite drop_drop.
        destruct (Nat.le_gt_cases (S n) (length (c :: d))) as [Hle|Hgt].
        - f_equal. lia.
        - rewrite !drop_ge by lia. reflexivity. }
      rewrite Hrest, Hgot.
      set (got2 := take (Nn - length bs) d2).
      assert (Hdata : take (off + length bs) data1 ++ got2
                      ++ drop (off + length bs + length got2) data1
                      = take off (n_data st) ++ (bs ++ got2)
                        ++ drop (off + length (bs ++ got2)) (n_data st)).
      { assert (Hd1 : data1 = (take off (n_data st) ++ bs)
                               ++ drop (off + length bs) (n_data st))
          by (subst data1; apply app_assoc).
        assert (Hto : length (take off (n_data st)) = off) by (rewrite length_take; lia).
        rewrite Hd1.
        rewrite (take_app_length' (take off (n_data st) ++ bs))
          by (rewrite length_app; lia).
        rewrite <- drop_drop.
        rewrite (drop_app_length' (take off (n_data st) ++ bs))
          by (rewrite length_app; lia).
        rewrite drop_drop, length_app, <- !app_assoc.
        rewrite Nat.add_assoc. reflexivity. }
      rewrite Hdata.
      f_equal; [ f_equal | f_equal; [ | f_equal ] ].
      * rewrite length_app. lia.
      * change (input_error (stored w name st1 d2)) with (input_error w).
        assert (Hd2 : length d2 = (length (c :: d) - S n)%nat) by apply length_drop.
        destruct (Nat.leb_spec (Nn - length bs) (length d2));
          destruct (Nat.leb_spec Nn (length (c :: d))); try reflexivity;
          exfalso; lia.
      * rewrite length_app. lia.
      * rewrite length_app. lia.
Qed.

Lemma copy_in_to_file_stores (w : world) (name : list ascii) (size : Z) (st : node) :
  fs w !! name = Some st -> n_kind st = Regular -> disk_room w = None ->
  copy_in_to_file w name size
  = let d := r_data (stdin w) in
    let got := take (Z.to_nat size) d in
    ((Z.of_nat (length got),
      if (Z.to_nat size <=? length d)%nat then None else input_error w),
     stored w name
       (Node Regular (n_mode st) (got ++ drop (length got) (n_data st)) (n_times st))
       (drop (Z.to_nat size) d)).
Proof.
  intros Hst Hk Hroom. unfold copy_in_to_file.
  rewrite (in_file_loop name _ 0 size 0%nat w st Hst Hk Hroom) by (unfold input_left; lia).
  reflexivity.
Qed.

(** The copy of a file that reads without error to an output that never
    fails: the rest of the file goes out. *)
Lemma file_out_loop (name : list ascii) (st : node) (fuel : nat) :
  forall (written : Z) (off : nat) (w : world),
  fs w !! name = Some st -> read_limit w = None -> w_room (stdout w) = None ->
  (off <= length (n_data st))%nat -> (length (n_data st) - off < fuel)%nat ->
  io_Copy_loop (file_reader name) out_writer fuel written (off, w)
  = ((written + Z.of_nat (length (n_data st) - off), None),
     (length (n_data st), emit w (drop off (n_data st)))).
Proof.
  induction fuel as [|fuel IH]; intros written off w Hst Hlim Hroom Hoff Hfuel; [ lia | ].
  cbn [io_Copy_loop]. unfold file_reader at 1, file_Read. cbn [fst snd].
  rewrite Hst, Hlim.
  destruct (drop off (n_data st)) as [|c rest] eqn:Hrest.
  - assert (Hlen : length (drop off (n_data st)) = 0%nat) by (rewrite Hrest; reflexivity).
    rewrite length_drop in Hlen.
    cbn. rewrite emit_nil.
    replace (length (n_data st) - off)%nat with 0%nat by lia.
    replace (off + 0)%nat with (length (n_data st)) by lia.
    rewrite Z.add_0_r. reflexivity.
  - pose proof copy_buf_pos as Hb.
    destruct copy_buf as [|n]; [ lia | ].
    change (take (S n) (c :: rest)) with (c :: take n rest).
    lazy beta match.
    set (bs := c :: take n rest).
    assert (Hlb : length bs = Nat.min (S n) (length (c :: rest))) by apply (length_take (c :: rest) (S n)).
    assert (Hlr : length (c :: rest) = (length (n_data st) - off)%nat)
      by (rewrite <- Hrest; apply length_drop).
    unfold out_writer at 1. cbn [fst snd].
    rewrite out_Write_room by (unfold has_room; rewrite Hroom; exact I).
    rewrite Nat.ltb_irrefl. cbn [read_outcome].
    assert (Hoff1 : (off + length bs <= length (n_data st))%nat) by (cbn [length] in *; lia).
    assert (Hfuel1 : (length (n_data st) - (off + length bs) < fuel)%nat)
      by (cbn [length] in *; lia).
    rewrite IH;
      [ | exact Hst | exact Hlim | cbn; rewrite Hroom; reflexivity | exact Hoff1 | exact Hfuel1 ].
    rewrite emit_emit.
    assert (Hcat : bs ++ drop (off + length bs) (n_data st) = c :: rest).
    { rewrite <- drop_drop, Hrest.
      change bs with (take (S n) (c :: rest)).
      rewrite length_take. fold (Nat.min (S n) (length (c :: rest))).
      destruct (Nat.le_gt_cases (S n) (length (c :: rest))).
      - rewrite Nat.min_l by assumption. apply take_drop.
      - rewrite Nat.min_r by lia. rewrite drop_all, take_ge by lia. apply app_nil_r. }
    rewrite Hcat.
    f_equal. f_equal. lia.
Qed.

Lemma copy_file_to_out_sends (w : world) (name : list ascii) (st : node) :
  fs w !! name = Some st -> read_limit w = None -> w_room (stdout w) = None ->
  copy_file_to_out w name = ((Size st, None), emit w (n_data st)).
Proof.
  intros Hst Hlim Hroom. unfold copy_file_to_out, file_size. rewrite Hst.
  rewrite (file_out_loop name st _ 0 0%nat w Hst Hlim Hroom) by lia.
  rewrite Nat.sub_0_r, drop_0. reflexivity.
Qed.

(** ** The source on a regular file *)

Lemma send_file_frames {lib : GoLib} (opts : options)
    (sendDir : world -> list ascii -> node -> option error * world)
    (w : world) (fname : list ascii) (st : node) (rest : list ascii) :
  refuses w OpOpen = false -> refuses w OpFstat = false ->
  fs w !! fname = Some st -> IsRegular st = true ->
  w_room (stdout w) = None -> read_limit w = None ->
  r_data (stdin w) = replicate (if preserveAttrs opts then 3 else 2)%nat NUL ++ rest ->
  send opts sendDir w fname
  = (None,
     rest_of_input
       (emit w (file_frames opts st fname))
       rest).
Proof.
  intros Hopen Hfstat Hst Hreg Hroom Hlim Hin.
  assert (Hdir : IsDir st = false).
  { unfold IsDir, IsRegular in *. destruct (n_kind st); congruence. }
  assert (Hpayload : forall w1 rest1,
            fs w1 = fs w -> read_limit w1 = None -> w_room (stdout w1) = None ->
            r_data (stdin w1) = NUL :: rest1 ->
            send_payload w1 fname st
            = (None, rest_of_input (emit w1 (n_data st ++ [NUL])) rest1)).
  { intros w1 rest1 Hfs1 Hlim1 Hroom1 Hin1. unfold send_payload.
    rewrite (copy_file_to_out_sends w1 fname st) by (rewrite ?Hfs1; assumption).
    rewrite out_Print_room by (apply room_for_all; cbn; rewrite Hroom1; reflexivity).
    rewrite emit_emit.
    rewrite (ack_zero _ rest1) by exact Hin1. reflexivity. }
  unfold file_frames, send, Open, Fstat. rewrite Hopen, Hfstat, Hst, Hdir, Hreg. cbn [negb].
  destruct (preserveAttrs opts).
  - cbn [replicate app] in Hin. unfold sendAttr.
    rewrite out_Print_room by (apply room_for_all; exact Hroom). fold (times_line st).
    rewrite (ack_zero _ (NUL :: NUL :: rest)) by exact Hin.
    rewrite out_Print_room by (apply room_for_all; cbn; rewrite Hroom; reflexivity).
    fold (file_header st fname).
    rewrite (ack_zero _ (NUL :: rest)) by reflexivity.
    rewrite (Hpayload _ rest); [ | reflexivity | exact Hlim | cbn; rewrite Hroom; reflexivity
                               | reflexivity ].
    rewrite !emit_rest_of_input, !rest_of_input_twice, !emit_emit.
    unfold times_line, file_header. rewrite <- !app_assoc. reflexivity.
  - cbn [replicate app] in Hin.
    rewrite out_Print_room by (apply room_for_all; exact Hroom).
    fold (file_header st fname).
    rewrite (ack_zero _ (NUL :: rest)) by exact Hin.
    rewrite (Hpayload _ rest); [ | reflexivity | exact Hlim | cbn; rewrite Hroom; reflexivity
                               | reflexivity ].
    rewrite !emit_rest_of_input, !rest_of_input_twice, !emit_emit.
    unfold times_line, file_header. rewrite <- !app_assoc. reflexivity.
Qed.

(** [send] on a regular file that reads without error, with a peer that
    acknowledges every line: the output is the times line (with [-p]),
    the header, the content of the file and a zero byte, in this order;
    one acknowledgement is read for each of the lines and one for the
    trailer, and the result is nil. *)
Theorem send_regular_file {lib : GoLib} (opts : options)
    (sendDir : world -> list ascii -> node -> option error * world)
    (w : world) (fname : list ascii) (st : node) (rest : list ascii) :
  refuses w OpOpen = false -> refuses w OpFstat = false ->
  fs w !! fname = Some st -> IsRegular st = true ->
  w_room (stdout w) = None -> read_limit w = None ->
  r_data (stdin w) = replicate (if preserveAttrs opts then 3 else 2)%nat NUL ++ rest ->
  send opts sendDir w fname
  = (None,
     rest_of_input
       (emit w ((if preserveAttrs opts then times_line st else [])
                ++ file_header st fname ++ n_data st ++ [NUL]))
       rest).
Proof.
  intros Hopen Hfstat Hst Hreg Hroom Hlim Hin.
  apply (send_file_frames opts sendDir w fname st rest); assumption.
Qed.

Lemma send_regular_file_witness :
  let w := World {[ lit "dir/hello.txt" := file_node 420 (lit "Hi!") ]}
             (Reader [NUL; NUL] None) (Writer [] None) 18 None None [] in
  send (lib := stdlib) plain (fun w _ _ => (None, w)) w (lit "dir/hello.txt")
  = (None, rest_of_input (emit w (lit "C0644 3 hello.txt" ++ [NL] ++ lit "Hi!" ++ [NUL])) []).
Proof.
  intros w.
  apply (send_regular_file (lib := stdlib) plain (fun w _ _ => (None, w)) w
           (lit "dir/hello.txt") (file_node 420 (lit "Hi!")) []); reflexivity.
Defined.

(** [send] on a directory without [-r], or on something that is neither
    a directory nor a regular file, writes no header: all it writes is
    the line of the soft error it returns, which names the file. *)
Theorem send_skips_what_is_not_a_file {lib : GoLib} (opts : options)
    (sendDir : world -> list ascii -> node -> option error * world)
    (w : world) (fname : list ascii) (st : node) :
  let err := Plain (base_name fname
                    ++ lit (if IsDir st then ": is a directory" else ": not a regular file")) in
  let sent := [SOH] ++ error_body err ++ [NL] in
  refuses w OpOpen = false -> refuses w OpFstat = false ->
  fs w !! fname = Some st ->
  (IsDir st = true /\ iamRecursive opts = false)
  \/ (IsDir st = false /\ IsRegular st = false) ->
  has_room w (length sent) ->
  send opts sendDir w fname = (Some err, emit w sent)
  /\ isFatal (Some err) = false.
Proof.
  intros err sent Hopen Hfstat Hst Hcase Hroom. split; [ | reflexivity ].
  unfold send, Open, Fstat. rewrite Hopen, Hfstat, Hst.
  subst sent err.
  destruct Hcase as [[Hd Hr] | [Hd Hr]]; rewrite Hd in *; rewrite Hr; cbn [negb];
    apply teeError_room; exact Hroom.
Qed.

Lemma send_skips_what_is_not_a_file_witness :
  let w := World {[ lit "pics" := dir_node 493 ]}
             (Reader [] None) (Writer [] None) 18 None None [] in
  send (lib := stdlib) plain (fun w _ _ => (None, w)) w (lit "pics")
  = (Some (Plain (lit "pics: is a directory")),
     emit w ([SOH] ++ lit "pics: is a directory" ++ [NL]))
  /\ isFatal (Some (Plain (lit "pics: is a directory"))) = false.
Proof.
  intros w.
  apply (send_skips_what_is_not_a_file (lib := stdlib) plain (fun w _ _ => (None, w)) w
           (lit "pics") (dir_node 493)).
  - reflexivity.
  - reflexivity.
  - reflexivity.
  - left. split; reflexivity.
  - exact I.
Defined.

(** ** The sink on a file *)

Lemma refuses_none (w : world) (op : fsop) : denied w = [] -> refuses w op = false.
Proof.
  intros H. unfold refuses. rewrite H. apply bool_decide_eq_false_2, not_elem_of_nil.
Qed.

Ltac world_simpl :=
  cbn [fs stdin stdout umask disk_room read_limit denied set_fs set_stdin set_stdout
       set_disk rest_of_input emit stored r_data r_fail w_data w_room fst snd].

(** The closing steps of [sinkFile] when nothing fails and the peer
    acknowledges: the file is cut or padded to [size], the mode is set
    when [-p] is given or the target did not exist, the pending times
    are applied, and one zero byte answers the peer. *)
Lemma sinkFile_finish_clean {lib : GoLib} (opts : options) (w : world) (name : list ascii)
    (perm size : Z) (exists_ : bool) (st nd : node) (times : option FileTimes)
    (rest : list ascii) :
  fs w !! name = Some nd -> n_kind nd = Regular -> IsRegular st = true ->
  0 <= size -> denied w = [] -> w_room (stdout w) = None ->
  r_data (stdin w) = NUL :: rest ->
  sinkFile_finish opts w name perm size exists_ st times []
  = (None,
     emit (rest_of_input
             (set_fs w (<[name :=
                Node Regular
                  (if preserveAttrs opts || negb exists_
                   then Z.land perm perm_bits else n_mode nd)
                  (take (Z.to_nat size) (n_data nd)
                   ++ replicate (Z.to_nat size - length (n_data nd)) NUL)
                  (match times with Some t => t | None => n_times nd end)]> (fs w)))
             rest)
       [NUL]).
Proof.
  intros Hnd Hk Hreg Hsize Hden Hroom Hin.
  unfold sinkFile_finish. rewrite Hreg, orb_true_r.
  unfold Truncate. rewrite (refuses_none w _ Hden), Hnd.
  assert (Hsz : (size <? 0) = false) by (apply Z.ltb_ge; lia).
  unfold IsRegular at 1. rewrite Hsz, Hk. cbn [orb negb pend app].
  set (data := take (Z.to_nat size) (n_data nd)
               ++ replicate (Z.to_nat size - length (n_data nd)) NUL).
  set (w1 := set_fs w _).
  assert (Hden1 : denied w1 = []) by exact Hden.
  unfold Sync. rewrite (refuses_none w1 _ Hden1). cbn [pend].
  set (mode := if preserveAttrs opts || negb exists_
               then Z.land perm perm_bits else n_mode nd).
  set (w2 := set_fs w (<[name := Node Regular mode data (n_times nd)]> (fs w))).
  assert (Hchmod : (if preserveAttrs opts || negb exists_
                    then pend [] (Chmod w1 name perm) else ([], w1)) = ([], w2)).
  { subst mode w2. destruct (preserveAttrs opts || negb exists_).
    - unfold Chmod. rewrite (refuses_none w1 _ Hden1).
      subst w1. world_simpl. rewrite lookup_insert_eq. cbn [pend n_kind n_mode n_data n_times].
      unfold set_fs. world_simpl. rewrite insert_insert_eq. reflexivity.
    - reflexivity. }
  rewrite Hchmod.
  set (tm := match times with Some t => t | None => n_times nd end).
  set (w3 := set_fs w (<[name := Node Regular mode data tm]> (fs w))).
  assert (Hden2 : denied w2 = []) by exact Hden.
  assert (Hut : match times with
                | Some t => pend [] (Utimes w2 name t)
                | None => ([], w2)
                end = ([], w3)).
  { subst tm w3. destruct times as [t|].
    - unfold Utimes. rewrite (refuses_none w2 _ Hden2).
      subst w2. world_simpl. rewrite lookup_insert_eq. cbn [pend n_kind n_mode n_data n_times].
      unfold set_fs. world_simpl. rewrite insert_insert_eq. reflexivity.
    - reflexivity. }
  rewrite Hut.
  rewrite (ack_zero w3 rest) by exact Hin. cbn [isFatal].
  rewrite out_Print_room by (apply room_for_all; exact Hroom).
  reflexivity.
Qed.

Lemma sinkFile_clean {lib : GoLib} (opts : options) (w : world)
    (name line : list ascii) (times : option FileTimes) (perm size : Z)
    (subj target : list ascii) (exists_ : bool) (payload rest : list ascii) :
  let st0 := default (Node Regular (created_mode w (Z.lor perm S_IWUSR)) [] zero_times)
               (fs w !! target) in
  let mode := if preserveAttrs opts || negb exists_
              then Z.land perm perm_bits else n_mode st0 in
  let tm := match times with Some t => t | None => n_times st0 end in
  parseSubj line = (perm, size, subj, None) ->
  sinkFile_target w name subj = (exists_, target) ->
  (forall st, fs w !! target = Some st -> n_kind st = Regular) ->
  denied w = [] -> disk_room w = None -> w_room (stdout w) = None ->
  size = Z.of_nat (length payload) ->
  r_data (stdin w) = payload ++ NUL :: rest ->
  sinkFile opts w name line times
  = (None, emit (stored w target (Node Regular mode payload tm) rest) [NUL; NUL]).
Proof.
  intros st0 mode tm Hparse Htarget Hreg Hden Hdisk Hroom Hsize Hin.
  unfold sinkFile. rewrite Hparse, Htarget.
  set (w1 := set_fs w (<[target := st0]> (fs w))).
  assert (Hk0 : n_kind st0 = Regular).
  { subst st0. destruct (fs w !! target) as [st|] eqn:Hst; [ apply Hreg | ]; reflexivity. }
  assert (Hopen : OpenFile w target (Z.lor perm S_IWUSR) = (None, w1)).
  { unfold OpenFile. rewrite (refuses_none w _ Hden). subst w1 st0.
    destruct (fs w !! target) as [st|] eqn:Hst; cbn [default].
    - unfold IsDir. rewrite (Hreg st eq_refl). rewrite insert_id by exact Hst.
      destruct w; reflexivity.
    - reflexivity. }
  assert (Hst1 : fs w1 !! target = Some st0) by (subst w1; world_simpl; apply lookup_insert_eq).
  unfold sinkFile_open. rewrite Hopen.
  unfold Fstat. rewrite (refuses_none w1 _ Hden), Hst1.
  rewrite out_Print_room by (apply room_for_all; exact Hroom).
  unfold sinkFile_payload.
  rewrite (copy_in_to_file_stores (emit w1 [NUL]) target size st0 Hst1 Hk0 Hdisk).
  cbn zeta.
  replace (r_data (stdin (emit w1 [NUL]))) with (payload ++ NUL :: rest) by (symmetry; exact Hin).
  replace (Z.to_nat size) with (length payload) by lia.
  rewrite take_app_length, drop_app_length.
  replace (length payload <=? length (payload ++ NUL :: rest))%nat with true
    by (symmetry; apply Nat.leb_le; rewrite length_app; lia).
  set (nd2 := Node Regular (n_mode st0) (payload ++ drop (length payload) (n_data st0))
                (n_times st0)).
  rewrite (sinkFile_finish_clean opts _ target perm size exists_ st0 nd2 times rest);
    [ | subst w1; world_simpl; apply lookup_insert_eq | reflexivity
      | unfold IsRegular; rewrite Hk0; reflexivity | lia | exact Hden
      | subst w1; world_simpl; rewrite Hroom; reflexivity | reflexivity ].
  f_equal. subst nd2 w1. cbn [n_mode n_data n_times].
  replace (Z.to_nat size) with (length payload) by lia.
  rewrite take_app_length, length_app.
  replace (length payload - (length payload + length (drop (length payload) (n_data st0))))%nat
    with 0%nat by lia.
  cbn [replicate]. rewrite app_nil_r.
  unfold emit, stored, rest_of_input, set_fs, set_stdin, set_stdout, set_disk.
  world_simpl. rewrite Hroom, !insert_insert_eq, <- app_assoc. reflexivity.
Qed.

(** [sinkFile] when nothing fails: the header parses, the target is a
    regular file or does not exist yet, the disk takes the payload and
    the peer acknowledges it.  The file then holds exactly the payload,
    whatever it held before; its mode is the one of the header when [-p]
    is given or [Stat] of the name failed, and is left as it was
    otherwise; the pending times are applied; two zero bytes go to the
    peer, and the input is left just after the peer's acknowledgement. *)
Theorem sinkFile_stores_payload {lib : GoLib} (opts : options) (w : world)
    (name line : list ascii) (times : option FileTimes) (perm size : Z)
    (subj target : list ascii) (exists_ : bool) (payload rest : list ascii) :
  let st0 := default (Node Regular (created_mode w (Z.lor perm S_IWUSR)) [] zero_times)
               (fs w !! target) in
  let mode := if preserveAttrs opts || negb exists_
              then Z.land perm perm_bits else n_mode st0 in
  let tm := match times with Some t => t | None => n_times st0 end in
  parseSubj line = (perm, size, subj, None) ->
  sinkFile_target w name subj = (exists_, target) ->
  (forall st, fs w !! target = Some st -> n_kind st = Regular) ->
  denied w = [] -> disk_room w = None -> w_room (stdout w) = None ->
  size = Z.of_nat (length payload) ->
  r_data (stdin w) = payload ++ NUL :: rest ->
  sinkFile opts w name line times
  = (None, emit (stored w target (Node Regular mode payload tm) rest) [NUL; NUL]).
Proof.
  intros st0 mode tm Hparse Htarget Hreg Hden Hdisk Hroom Hsize Hin.
  apply (sinkFile_clean opts w name line times perm size subj target exists_ payload rest);
    assumption.
Qed.

Lemma sinkFile_stores_payload_witness :
  let w := World {[ lit "notes" := file_node 384 (lit "old content") ]}
             (Reader (lit "Hi!" ++ NUL :: lit "C") None) (Writer [] None) 18 None None [] in
  sinkFile (lib := stdlib) plain w (lit "notes") (lit "0644 3 hello.txt") None
  = (None, emit (stored w (lit "notes") (Node Regular 384 (lit "Hi!") zero_times) (lit "C"))
             [NUL; NUL]).
Proof.
  intros w.
  apply (sinkFile_stores_payload (lib := stdlib) plain w (lit "notes") (lit "0644 3 hello.txt")
           None 420 3 (lit "hello.txt") (lit "notes") true (lit "Hi!") (lit "C")).
  - reflexivity.
  - reflexivity.
  - intros st Hst. subst w. cbn [fs] in Hst.
    apply lookup_singleton_Some in Hst as [_ <-]. reflexivity.
  - reflexivity.
  - reflexivity.
  - reflexivity.
  - reflexivity.
  - reflexivity.
Defined.

(** ** Directories on the sink side *)

(** [prepareDir] reports [resetPerm] only for a directory it has just
    made, with the mode of the header widened by the owner's bits and
    cut by the umask; when it returns no error the name is a directory
    afterwards; when it returns an error nothing has changed; it never
    reads the input nor writes to the peer. *)
Theorem prepareDir_makes_or_checks (opts : options) (w w' : world)
    (name : list ascii) (perm : Z) (resetPerm : bool) (err : option error) :
  prepareDir opts w name perm = ((resetPerm, err), w') ->
  (resetPerm = true ->
   err = None /\ fs w !! name = None
   /\ fs w' = <[name := Node Directory (created_mode w (Z.lor perm S_IRWXU)) [] zero_times]>
                (fs w))
  /\ (err = None -> exists nd, fs w' !! name = Some nd /\ IsDir nd = true)
  /\ (err <> None -> w' = w)
  /\ (resetPerm = false -> preserveAttrs opts = false -> w' = w)
  /\ stdin w' = stdin w /\ stdout w' = stdout w.
Proof.
  unfold prepareDir, Stat, Chmod, Mkdir.
  destruct (refuses w OpStat).
  { cbn [IsNotExist refusal]. intros [= <- <- <-]. repeat split; try discriminate; congruence. }
  destruct (fs w !! name) as [st|] eqn:Hst.
  - destruct (IsDir st) eqn:Hdir; cbn [negb].
    + destruct (preserveAttrs opts) eqn:Hp.
      * destruct (refuses w OpChmod).
        -- intros [= <- <- <-]. repeat split; try discriminate; congruence.
        -- intros [= <- <- <-]. repeat split; try discriminate; try congruence.
           intros _. eexists. split; [ apply lookup_insert_eq | ].
           unfold IsDir in *. cbn [n_kind]. exact Hdir.
      * intros [= <- <- <-]. repeat split; try discriminate; try congruence.
        intros _. exists st. split; assumption.
    + intros [= <- <- <-]. repeat split; try discriminate; congruence.
  - cbn [IsNotExist enoent].
    destruct (refuses w OpMkdir).
    + intros [= <- <- <-]. repeat split; try discriminate; congruence.
    + intros [= <- <- <-]. repeat split; try discriminate; try congruence.
      intros _. eexists. split; [ apply lookup_insert_eq | reflexivity ].
Qed.

Lemma prepareDir_makes_or_checks_witness :
  let w := world_of {[ lit "top" := dir_node 493 ]} [] in
  exists nd, fs (snd (prepareDir recursive w (lit "top/sub") 365))
             !! lit "top/sub" = Some nd /\ IsDir nd = true.
Proof.
  intros w.
  apply (proj1 (proj2 (prepareDir_makes_or_checks recursive w
                         (snd (prepareDir recursive w (lit "top/sub") 365))
                         (lit "top/sub") 365 true None eq_refl))).
  reflexivity.
Defined.

(** An empty directory received with [-r]: a [D] frame for a name that
    does not exist yet, followed by its [E] frame and the end of the
    input.  The directory is made, both frames are acknowledged with a
    zero byte, and what remains is a directory with exactly the mode of
    the header, not cut by the umask, carrying the pending times. *)
Theorem sink_makes_directory {lib : GoLib} (opts : options) (fuel : nat) (w : world)
    (path : list ascii) (recur : bool) (errs : list error) (times : option FileTimes)
    (first : bool) (line name : list ascii) (perm size : Z) :
  let dir := path_Join path name in
  let made := Node Directory (Z.land perm perm_bits) []
                (match times with Some t => t | None => zero_times end) in
  iamRecursive opts = true ->
  parseSubj line = (perm, size, name, None) ->
  fs w !! dir = None -> denied w = [] -> w_room (stdout w) = None ->
  r_data (stdin w) = frame "D" line ++ frame "E" [] -> NL ∉ line ->
  r_fail (stdin w) = None ->
  sink_loop opts (5 + fuel) w path recur errs times first
  = Some (acc_or_nil errs,
          emit (set_fs (rest_of_input w []) (<[dir := made]> (fs w))) [NUL; NUL]).
Proof.
  intros dir made Hrec Hparse Hnew Hden Hroom Hin Hnl Hfail.
  change (5 + fuel)%nat with (S (S (S (S (S fuel))))).
  rewrite (sink_loop_dir opts _ w path recur errs times first line (frame "E" []) Hin Hnl).
  rewrite sinkDir_S, Hrec, Hparse. cbn [negb]. cbn zeta. fold dir.
  set (w0 := rest_of_input w (frame "E" [])).
  set (w1 := set_fs w0 (<[dir := Node Directory (created_mode w0 (Z.lor perm S_IRWXU)) []
                                    zero_times]> (fs w0))).
  assert (Hprep : prepareDir opts w0 dir perm = ((true, None), w1)).
  { unfold prepareDir, Stat, Mkdir. rewrite !(refuses_none w0 _ Hden).
    replace (fs w0 !! dir) with (@None node) by (symmetry; exact Hnew). reflexivity. }
  rewrite Hprep.
  assert (Hdir1 : fs w1 !! dir
                  = Some (Node Directory (created_mode w0 (Z.lor perm S_IRWXU)) [] zero_times))
    by (subst w1; world_simpl; apply lookup_insert_eq).
  rewrite sink_S.
  replace (if targetDir opts then _ else None) with (@None (option error * world)).
  2:{ destruct (targetDir opts); [ | reflexivity ].
      unfold Stat. rewrite (refuses_none w1 _ Hden), Hdir1. reflexivity. }
  rewrite out_Print_room by (apply room_for_all; exact Hroom).
  rewrite (sink_loop_end opts _ (emit w1 [NUL]) dir [] None true []) by reflexivity.
  rewrite out_Print_room by (apply room_for_all; subst w1 w0; world_simpl; rewrite Hroom;
                             reflexivity).
  rewrite sink_loop_eof by (try reflexivity; exact Hfail).
  cbn [acc_or_nil isFatal opt_list].
  set (w2 := emit (rest_of_input (emit w1 [NUL]) []) [NUL]).
  assert (Hfin : sinkDir_finish w2 dir perm true times []
                 = (None, set_fs w2 (<[dir := made]> (fs w)))).
  { unfold sinkDir_finish, Utimes, Chmod.
    assert (Hden2 : denied w2 = []) by exact Hden.
    assert (Hfs2 : fs w2 = fs w1) by reflexivity.
    subst made. destruct times as [t|].
    - rewrite (refuses_none w2 _ Hden2), Hfs2, Hdir1. cbn [pend n_kind n_mode n_data].
      rewrite refuses_none by exact Hden. world_simpl. rewrite lookup_insert_eq.
      cbn [pend n_kind n_mode n_data n_times acc_or_nil].
      unfold set_fs. world_simpl. subst w1. world_simpl.
      rewrite !insert_insert_eq. reflexivity.
    - rewrite (refuses_none w2 _ Hden2), Hfs2, Hdir1.
      cbn [pend n_kind n_mode n_data n_times acc_or_nil].
      unfold set_fs. world_simpl. subst w1. world_simpl.
      rewrite !insert_insert_eq. reflexivity. }
  rewrite Hfin. rewrite app_nil_r.
  rewrite sink_loop_eof by (try reflexivity; exact Hfail).
  f_equal. f_equal. subst w2 w1 w0.
  unfold emit, rest_of_input, set_fs, set_stdin, set_stdout. world_simpl.
  rewrite Hroom, <- app_assoc. reflexivity.
Qed.

Lemma sink_makes_directory_witness :
  let w := world_of only_t (frame "D" (lit "0555 0 sub") ++ frame "E" []) in
  sink_loop (lib := stdlib) recursive 5 w (lit "t") false [] None false
  = Some (None,
          emit (set_fs (rest_of_input w [])
                  (<[lit "t/sub" := Node Directory 365 [] zero_times]> (fs w)))
            [NUL; NUL]).
Proof.
  intros w.
  apply (sink_makes_directory (lib := stdlib) recursive 0 w (lit "t") false [] None false
           (lit "0555 0 sub") (lit "sub") 365 0).
  - reflexivity.
  - reflexivity.
  - reflexivity.
  - reflexivity.
  - reflexivity.
  - reflexivity.
  - apply (bool_decide_unpack _). vm_compute. exact I.
  - reflexivity.
Defined.

(** ** The source *)

Lemma ack_reply (w : world) (kind : ascii) (line rest : list ascii) :
  NL ∉ line -> kind <> NUL ->
  r_data (stdin w) = kind :: line ++ NL :: rest ->
  ack w = (Some (reply_error kind line), rest_of_input w rest).
Proof.
  intros Hnl Hkind H.
  assert (Hk : ascii_eqb kind NUL = false).
  { unfold ascii_eqb. apply Ascii.eqb_neq. exact Hkind. }
  unfold ack. destruct (read_frame w kind line rest H Hnl) as [-> Hl].
  rewrite Hk, Hl. unfold reply_error.
  destruct (ascii_eqb kind SOH); [ reflexivity | ].
  destruct (ascii_eqb kind STX); reflexivity.
Qed.

(** [source] sends nothing before the peer has answered with a zero
    byte: any other first reply, a soft error included, is returned as
    it is, no path is opened and nothing is written. *)
Theorem source_waits_for_handshake {lib : GoLib} (opts : options)
    (sendDir : world -> list ascii -> node -> option error * world)
    (w : world) (paths : list (list ascii)) (kind : ascii) (line rest : list ascii) :
  NL ∉ line -> kind <> NUL ->
  r_data (stdin w) = kind :: line ++ NL :: rest ->
  source opts sendDir w paths = (Some (reply_error kind line), rest_of_input w rest)
  /\ stdout (rest_of_input w rest) = stdout w
  /\ fs (rest_of_input w rest) = fs w.
Proof.
  intros Hnl Hkind Hin. split; [ | split; reflexivity ].
  unfold source. rewrite (ack_reply w kind line rest Hnl Hkind Hin). reflexivity.
Qed.

Lemma source_waits_for_handshake_witness :
  let w := world_of {[ lit "a" := file_node 420 (lit "Hi!") ]}
             ([SOH] ++ lit "busy" ++ [NL]) in
  source (lib := stdlib) plain (fun w _ _ => (None, w)) w [lit "a"]
  = (Some (Plain (lit "busy")), rest_of_input w [])
  /\ stdout (rest_of_input w []) = stdout w
  /\ fs (rest_of_input w []) = fs w.
Proof.
  intros w.
  apply (source_waits_for_handshake (lib := stdlib) plain (fun w _ _ => (None, w)) w
           [lit "a"] SOH (lit "busy") []).
  - apply (bool_decide_unpack _). vm_compute. exact I.
  - discriminate.
  - reflexivity.
Defined.

Lemma source_loop_shape {lib : GoLib} (opts : options)
    (sendDir : world -> list ascii -> node -> option error * world)
    (paths : list (list ascii)) :
  forall (w : world) (sendErrs : list error),
  Forall (fun e => isFatal (Some e) = false) sendErrs ->
  let r := fst (source_loop opts sendDir w paths sendErrs) in
  (r = None /\ sendErrs = [])
  \/ isFatal r = true
  \/ exists errs, r = Some (AccError (sendErrs ++ errs))
                  /\ sendErrs ++ errs <> []
                  /\ Forall (fun e => isFatal (Some e) = false) (sendErrs ++ errs).
Proof.
  induction paths as [|p paths IH]; intros w sendErrs Hsoft; cbn [source_loop].
  - cbn [fst]. destruct sendErrs as [|e errs].
    + left. split; reflexivity.
    + right. right. exists []. rewrite app_nil_r.
      split; [ reflexivity | split; [ discriminate | exact Hsoft ] ].
  - destruct (send opts sendDir w p) as [err w1] eqn:Hsend.
    destruct (isFatal err) eqn:Hfatal.
    + right. left. exact Hfatal.
    + assert (Hsoft1 : Forall (fun e => isFatal (Some e) = false) (sendErrs ++ opt_list err)).
      { apply Forall_app. split; [ exact Hsoft | ].
        destruct err as [e|]; cbn [opt_list]; [ | constructor ].
        constructor; [ exact Hfatal | constructor ]. }
      destruct (IH w1 (sendErrs ++ opt_list err) Hsoft1) as [[Hr Hnil] | [Hr | (errs & Hr & Hne & Hall)]].
      * apply app_eq_nil in Hnil as [-> Hopt]. left. split; [ exact Hr | reflexivity ].
      * right. left. exact Hr.
      * right. right. exists (opt_list err ++ errs). rewrite app_assoc.
        split; [ exact Hr | split; assumption ].
Qed.

(** What [source] returns is nil, a fatal error, the peer's answer to
    the handshake, or an [AccError] that holds at least one error and
    no fatal one: a fatal error of [send] ends the loop and is never
    put among the collected errors. *)
Theorem source_never_collects_fatal {lib : GoLib} (opts : options)
    (sendDir : world -> list ascii -> node -> option error * world)
    (w : world) (paths : list (list ascii)) :
  let r := fst (source opts sendDir w paths) in
  r = None
  \/ isFatal r = true
  \/ (r = fst (ack w) /\ snd (source opts sendDir w paths) = snd (ack w))
  \/ exists errs, r = Some (AccError errs) /\ errs <> []
                  /\ Forall (fun e => isFatal (Some e) = false) errs.
Proof.
  unfold source. destruct (ack w) as [[err|] w1].
  - right. right. left. split; reflexivity.
  - destruct (source_loop_shape opts sendDir paths w1 [] (List.Forall_nil _))
      as [[Hr _] | [Hr | (errs & Hr & Hne & Hall)]].
    + left. exact Hr.
    + right. left. exact Hr.
    + right. right. right. exists errs. repeat split; assumption.
Qed.

Lemma source_loop_files {lib : GoLib} (opts : options)
    (sendDir : world -> list ascii -> node -> option error * world)
    (paths : list (list ascii)) :
  forall (w : world) (rest : list ascii),
  Forall (fun p => exists st, fs w !! p = Some st /\ IsRegular st = true) paths ->
  denied w = [] -> w_room (stdout w) = None -> read_limit w = None ->
  r_data (stdin w)
  = replicate ((if preserveAttrs opts then 3 else 2) * length paths)%nat NUL ++ rest ->
  source_loop opts sendDir w paths []
  = (None, rest_of_input (emit w (sent_files opts (fs w) paths)) rest).
Proof.
  induction paths as [|p paths IH]; intros w rest Hall Hden Hroom Hlim Hin.
  - cbn [source_loop sent_files flat_map acc_or_nil]. rewrite emit_nil.
    rewrite Nat.mul_0_r in Hin. rewrite rest_of_input_same by exact Hin. reflexivity.
  - apply Forall_cons in Hall as [(st & Hst & Hreg) Hall].
    set (k := (if preserveAttrs opts then 3 else 2)%nat) in *.
    cbn [length] in Hin.
    replace (k * S (length paths))%nat with (k + k * length paths)%nat in Hin by lia.
    rewrite replicate_add, <- app_assoc in Hin.
    cbn [source_loop].
    rewrite (send_file_frames opts sendDir w p st _ (refuses_none w _ Hden)
               (refuses_none w _ Hden) Hst Hreg Hroom Hlim Hin).
    cbn [isFatal opt_list app].
    rewrite (IH _ rest); [ | exact Hall | exact Hden
                           | world_simpl; rewrite Hroom; reflexivity | exact Hlim
                           | reflexivity ].
    rewrite emit_rest_of_input, rest_of_input_twice, emit_emit.
    cbn [sent_files flat_map]. world_simpl. rewrite Hst. reflexivity.
Qed.

(** [source] over regular files that read without error, with a peer
    that acknowledges everything: after the handshake the files go out
    one after the other in the order of the arguments, each as its
    frames, nothing in between and nothing after the last; the result
    is nil. *)
Theorem source_sends_files_in_order {lib : GoLib} (opts : options)
    (sendDir : world -> list ascii -> node -> option error * world)
    (w : world) (paths : list (list ascii)) (rest : list ascii) :
  Forall (fun p => exists st, fs w !! p = Some st /\ IsRegular st = true) paths ->
  denied w = [] -> w_room (stdout w) = None -> read_limit w = None ->
  r_data (stdin w)
  = NUL :: replicate ((if preserveAttrs opts then 3 else 2) * length paths)%nat NUL ++ rest ->
  source opts sendDir w paths
  = (None, rest_of_input (emit w (sent_files opts (fs w) paths)) rest).
Proof.
  intros Hall Hden Hroom Hlim Hin.
  unfold source. rewrite (ack_zero w _ Hin).
  rewrite (source_loop_files opts sendDir paths _ rest); try assumption; reflexivity.
Qed.

Lemma source_sends_files_in_order_witness :
  let w := world_of {[ lit "a" := file_node 420 (lit "Hi!"); lit "b" := file_node 384 [] ]}
             (replicate 5 NUL) in
  source (lib := stdlib) plain (fun w _ _ => (None, w)) w [lit "b"; lit "a"]
  = (None,
     rest_of_input
       (emit w (lit "C0600 0 b" ++ [NL; NUL] ++ lit "C0644 3 a" ++ [NL] ++ lit "Hi!" ++ [NUL]))
       []).
Proof.
  intros w.
  apply (source_sends_files_in_order (lib := stdlib) plain (fun w _ _ => (None, w)) w
           [lit "b"; lit "a"] []).
  - repeat constructor.
    + exists (file_node 384 []). split; reflexivity.
    + exists (file_node 420 (lit "Hi!")). split; reflexivity.
  - reflexivity.
  - reflexivity.
  - reflexivity.
  - reflexivity.
Defined.

(** ** A file from the source to the sink *)

Lemma file_header_frame {lib : GoLib} (st : node) (fname : list ascii) :
  file_header st fname = frame "C" (subj_line st fname).
Proof.
  unfold file_header, frame, subj_line. cbn [lit list_ascii_of_string app].
  repeat (rewrite <- app_assoc || rewrite <- app_comm_cons). reflexivity.
Qed.

Lemma times_line_frame (st : node) : times_line st = frame "T" (times_body st).
Proof.
  unfold times_line, frame, times_body. cbn [lit list_ascii_of_string app].
  repeat (rewrite <- app_assoc || rewrite <- app_comm_cons). reflexivity.
Qed.

Lemma sink_loop_times {lib : GoLib} (opts : options) (fuel : nat)
    (w : world) (path : list ascii) (recur : bool) (errs : list error)
    (times : option FileTimes) (first : bool) (line rest : list ascii)
    (msec musec asec ausec : Z) :
  Sscanf_times line = TimesScan 4 None msec musec asec ausec ->
  r_data (stdin w) = frame "T" line ++ rest -> NL ∉ line ->
  has_room w 1 ->
  sink_loop opts (S fuel) w path recur errs times first
  = sink_loop opts fuel (emit (rest_of_input w rest) [NUL]) path recur errs
      (Some (Build_FileTimes (Build_Timeval asec ausec) (Build_Timeval msec musec))) false.
Proof.
  intros Hscan Hin Hnl Hroom.
  unfold frame in Hin. simpl in Hin. rewrite <- app_assoc in Hin. simpl in Hin.
  destruct (read_frame w "T" line rest Hin Hnl) as [Hb Hl].
  cbn [sink_loop]. rewrite Hb, Hl.
  change (ascii_eqb "T" SOH) with false. change (ascii_eqb "T" STX) with false.
  change (ascii_eqb "T" "E") with false. change (ascii_eqb "T" "T") with true.
  cbn match. rewrite Hscan. cbn [ts_err ts_n ts_atime_sec ts_atime_usec ts_mtime_sec
                                   ts_mtime_usec].
  change (negb (4 =? 4)) with false. cbn match.
  rewrite out_Print_room by exact Hroom. reflexivity.
Qed.

Lemma parseSubj_scanned {lib : GoLib} (line name : list ascii) (perm size : Z) :
  Sscanf_subj line = SubjScan 3 None perm size name ->
  name <> lit ".." -> "/"%char ∉ name ->
  parseSubj line = (toStdPerm perm, size, name, None).
Proof.
  intros Hscan Hdots Hslash. unfold parseSubj. rewrite Hscan.
  cbn [ss_err ss_n ss_perm ss_size ss_name]. change (negb (3 =? 3)) with false. cbn match.
  unfold bytes_eqb. rewrite bool_decide_eq_false_2 by exact Hdots.
  replace (ContainsRune name "/") with false; [ reflexivity | ].
  symmetry. apply not_true_is_false. intros Hc. apply Hslash.
  unfold ContainsRune in Hc. apply existsb_exists in Hc as (c & Hin & Hc).
  unfold ascii_eqb in Hc. apply Ascii.eqb_eq in Hc. subst c.
  apply list_elem_of_In. exact Hin.
Qed.

Lemma std_bits_within_perm_bits (m : Z) :
  Z.land (Z.land m std_bits) perm_bits = Z.land m std_bits.
Proof.
  unfold perm_bits. apply Z.bits_inj'. intros n Hn.
  rewrite !Z.land_spec, Z.lor_spec.
  destruct (Z.testbit m n), (Z.testbit std_bits n); reflexivity.
Qed.

(** The sink on the frames of one file, where the library reads back
    the lines it printed and nothing fails on the receiving side. *)
Lemma sink_takes_file_frames {lib : GoLib} (so ko : options) (wd : world)
    (fname path target : list ascii) (st : node) (exists_ : bool) (fuel : nat) :
  let perm := Z.land (n_mode st) std_bits in
  let st0 := default (Node Regular (created_mode wd (Z.lor perm S_IWUSR)) [] zero_times)
               (fs wd !! target) in
  let mode := if preserveAttrs ko || negb exists_ then perm else n_mode st0 in
  let tm := if preserveAttrs so then sent_times st else n_times st0 in
  Sscanf_subj (subj_line st fname)
  = SubjScan 3 None (toPosixPerm (n_mode st)) (Size st) (base_name fname) ->
  NL ∉ subj_line st fname ->
  (preserveAttrs so = true ->
   Sscanf_times (times_body st)
   = TimesScan 4 None (Sec (Mtime (n_times st))) 0 (Sec (Atime (n_times st))) 0
   /\ (NL ∉ times_body st)) ->
  base_name fname <> lit ".." -> "/"%char ∉ base_name fname ->
  targetDir ko = false ->
  sinkFile_target wd path (base_name fname) = (exists_, target) ->
  (forall nd, fs wd !! target = Some nd -> n_kind nd = Regular) ->
  denied wd = [] -> disk_room wd = None -> w_room (stdout wd) = None ->
  stdin wd = Reader (file_frames so st fname) None ->
  sink ko (4 + fuel) wd path false
  = Some (None,
          emit (stored wd target (Node Regular mode (n_data st) tm) [])
            (replicate (if preserveAttrs so then 4 else 3) NUL)).
Proof.
  intros perm st0 mode tm Hsubj Hnl Htimes Hdots Hslash Htd Htarget Hreg Hden Hdisk Hroom Hin.
  assert (Hparse : parseSubj (subj_line st fname) = (perm, Size st, base_name fname, None)).
  { rewrite (parseSubj_scanned _ _ _ _ Hsubj Hdots Hslash), toStdPerm_toPosixPerm.
    reflexivity. }
  assert (Hfile : forall (w : world) (times : option FileTimes),
            fs w = fs wd -> denied w = [] -> disk_room w = None -> umask w = umask wd ->
            w_room (stdout w) = None -> r_data (stdin w) = n_data st ++ [NUL] ->
            sinkFile ko w path (subj_line st fname) times
            = (None,
               emit (stored w target
                       (Node Regular mode (n_data st)
                          (match times with Some t => t | None => n_times st0 end)) [])
                 [NUL; NUL])).
  { intros w times Hfs Hden' Hdisk' Hum Hroom' Hin'.
    rewrite (sinkFile_clean ko w path (subj_line st fname) times perm (Size st)
               (base_name fname) target exists_ (n_data st) [] Hparse).
    - subst mode st0 perm. unfold created_mode. rewrite Hfs, Hum, std_bits_within_perm_bits.
      reflexivity.
    - unfold sinkFile_target, Stat, refuses. rewrite Hfs, Hden'.
      unfold sinkFile_target, Stat, refuses in Htarget. rewrite Hden in Htarget. exact Htarget.
    - rewrite Hfs. exact Hreg.
    - exact Hden'.
    - exact Hdisk'.
    - exact Hroom'.
    - reflexivity.
    - exact Hin'. }
  change (4 + fuel)%nat with (S (S (S (S fuel)))).
  rewrite sink_S, Htd. rewrite out_Print_room by (apply room_for_all; exact Hroom).
  assert (Hfail : r_fail (stdin wd) = None) by (rewrite Hin; reflexivity).
  assert (Hdata : r_data (stdin wd) = file_frames so st fname) by (rewrite Hin; reflexivity).
  unfold file_frames in Hdata. subst tm.
  destruct (preserveAttrs so) eqn:Hp.
  - destruct (Htimes eq_refl) as [Hscan Hnlt].
    rewrite times_line_frame, file_header_frame in Hdata.
    rewrite (sink_loop_times ko _ (emit wd [NUL]) path false [] None true (times_body st)
               (frame "C" (subj_line st fname) ++ n_data st ++ [NUL]) _ _ _ _ Hscan Hdata Hnlt)
      by (apply room_for_all; world_simpl; rewrite Hroom; reflexivity).
    rewrite (sink_loop_file ko _ _ path false [] _ false (subj_line st fname)
               (n_data st ++ [NUL])) by (reflexivity || exact Hnl).
    rewrite Hfile; [ | reflexivity | exact Hden | exact Hdisk | reflexivity
                     | world_simpl; rewrite Hroom; reflexivity | reflexivity ].
    cbn [isFatal opt_list app].
    rewrite sink_loop_eof by (try reflexivity; exact Hfail).
    cbn [acc_or_nil]. f_equal. f_equal.
    unfold emit, stored, rest_of_input, set_stdin, set_stdout, set_disk, sent_times.
    world_simpl. rewrite Hroom. cbn [replicate app]. rewrite <- !app_assoc. reflexivity.
  - cbn [app] in Hdata. rewrite file_header_frame in Hdata.
    rewrite (sink_loop_file ko _ (emit wd [NUL]) path false [] None true (subj_line st fname)
               (n_data st ++ [NUL])) by (exact Hdata || exact Hnl).
    rewrite Hfile; [ | reflexivity | exact Hden | exact Hdisk | reflexivity
                     | world_simpl; rewrite Hroom; reflexivity | reflexivity ].
    cbn [isFatal opt_list app].
    rewrite sink_loop_eof by (try reflexivity; exact Hfail).
    cbn [acc_or_nil]. f_equal. f_equal.
    unfold emit, stored, rest_of_input, set_stdin, set_stdout, set_disk.
    world_simpl. rewrite Hroom. cbn [replicate app]. rewrite <- !app_assoc. reflexivity.
Qed.

(** One regular file from [source] to [sink], each side reading what
    the other writes.  The library reads back the lines it printed, the
    name is one the sink accepts, and nothing fails on either side.
    Then both sides return nil, what the source writes is exactly what
    the sink reads and the other way round, and on the receiving side
    the file holds the content of the file sent.  Its mode is the mode
    sent, cut down to the permission, setuid and setgid bits, when the
    sink has [-p] or [Stat] of its target failed, and the mode the
    target had otherwise; its times are the whole seconds of the times
    sent when the source has [-p], and are left alone otherwise. *)
Theorem file_round_trip {lib : GoLib} (so ko : options)
    (sendDir : world -> list ascii -> node -> option error * world)
    (ws wd : world) (fname path target : list ascii) (st : node) (exists_ : bool)
    (fuel : nat) :
  let wire := file_frames so st fname in
  let replies := replicate (if preserveAttrs so then 4 else 3)%nat NUL in
  let perm := Z.land (n_mode st) std_bits in
  let st0 := default (Node Regular (created_mode wd (Z.lor perm S_IWUSR)) [] zero_times)
               (fs wd !! target) in
  let mode := if preserveAttrs ko || negb exists_ then perm else n_mode st0 in
  let tm := if preserveAttrs so then sent_times st else n_times st0 in
  fs ws !! fname = Some st -> IsRegular st = true ->
  denied ws = [] -> read_limit ws = None -> stdout ws = Writer [] None ->
  r_data (stdin ws) = replies ->
  Sscanf_subj (subj_line st fname)
  = SubjScan 3 None (toPosixPerm (n_mode st)) (Size st) (base_name fname) ->
  NL ∉ subj_line st fname ->
  (preserveAttrs so = true ->
   Sscanf_times (times_body st)
   = TimesScan 4 None (Sec (Mtime (n_times st))) 0 (Sec (Atime (n_times st))) 0
   /\ (NL ∉ times_body st)) ->
  base_name fname <> lit ".." -> "/"%char ∉ base_name fname ->
  targetDir ko = false ->
  sinkFile_target wd path (base_name fname) = (exists_, target) ->
  (forall nd, fs wd !! target = Some nd -> n_kind nd = Regular) ->
  denied wd = [] -> disk_room wd = None -> stdout wd = Writer [] None ->
  stdin wd = Reader wire None ->
  exists ws' wd',
    source so sendDir ws [fname] = (None, ws')
    /\ w_data (stdout ws') = wire /\ r_data (stdin ws') = []
    /\ sink ko (4 + fuel) wd path false = Some (None, wd')
    /\ w_data (stdout wd') = replies /\ r_data (stdin wd') = []
    /\ fs wd' = <[target := Node Regular mode (n_data st) tm]> (fs wd).
Proof.
  intros wire replies perm st0 mode tm Hst Hreg Hdens Hlim Houts Hins
         Hsubj Hnl Htimes Hdots Hslash Htd Htarget Hregd Hdend Hdisk Houtd Hind.
  assert (Hrooms : w_room (stdout ws) = None) by (rewrite Houts; reflexivity).
  assert (Hroomd : w_room (stdout wd) = None) by (rewrite Houtd; reflexivity).
  eexists _, _. split; [ | split; [ | split; [ | split; [ | split; [ | split ] ] ] ] ].
  - unfold source. rewrite (ack_zero ws (replicate (if preserveAttrs so then 3 else 2) NUL)).
    + apply (source_loop_files so sendDir [fname] _ []).
      * constructor; [ | constructor ]. exists st. split; assumption.
      * exact Hdens.
      * exact Hrooms.
      * exact Hlim.
      * cbn [length rest_of_input set_stdin stdin r_data].
        rewrite Nat.mul_1_r, app_nil_r. reflexivity.
    + rewrite Hins. subst replies. destruct (preserveAttrs so); reflexivity.
  - world_simpl. rewrite Houts. cbn [w_data sent_files flat_map app].
    rewrite Hst, app_nil_r. reflexivity.
  - reflexivity.
  - apply (sink_takes_file_frames so ko wd fname path target st exists_ fuel); assumption.
  - world_simpl. rewrite Houtd. reflexivity.
  - reflexivity.
  - reflexivity.
Qed.

Lemma file_round_trip_witness :
  let ws := World {[ lit "dir/hello.txt" := file_node 8389101 (lit "Hi!") ]}
              (Reader [NUL; NUL; NUL] None) (Writer [] None) 18 None None [] in
  let wd := world_of ∅ (lit "C4755 3 hello.txt" ++ [NL] ++ lit "Hi!" ++ [NUL]) in
  exists ws' wd',
    source (lib := stdlib) plain (fun w _ _ => (None, w)) ws [lit "dir/hello.txt"] = (None, ws')
    /\ w_data (stdout ws') = lit "C4755 3 hello.txt" ++ [NL] ++ lit "Hi!" ++ [NUL]
    /\ r_data (stdin ws') = []
    /\ sink (lib := stdlib) plain 4 wd (lit "copy") false = Some (None, wd')
    /\ w_data (stdout wd') = [NUL; NUL; NUL] /\ r_data (stdin wd') = []
    /\ fs wd' = <[lit "copy" := Node Regular 8389101 (lit "Hi!") zero_times]> (fs wd).
Proof.
  intros ws wd.
  apply (file_round_trip (lib := stdlib) plain plain (fun w _ _ => (None, w)) ws wd
           (lit "dir/hello.txt") (lit "copy") (lit "copy")
           (file_node 8389101 (lit "Hi!")) false 0).
  - reflexivity.
  - reflexivity.
  - reflexivity.
  - reflexivity.
  - reflexivity.
  - reflexivity.
  - reflexivity.
  - apply (bool_decide_unpack _). vm_compute. exact I.
  - discriminate.
  - discriminate.
  - apply (bool_decide_unpack _). vm_compute. exact I.
  - reflexivity.
  - reflexivity.
  - intros nd Hnd. subst wd. cbn [fs world_of] in Hnd. rewrite lookup_empty in Hnd.
    discriminate.
  - reflexivity.
  - reflexivity.
  - reflexivity.
  - reflexivity.
Defined.

(** ** What the sink never does to the file system *)

Lemma keeps_refl (m : gmap (list ascii) node) : keeps m m.
Proof. intros name nd H. eauto. Qed.

Lemma keeps_trans (a b c : gmap (list ascii) node) : keeps a b -> keeps b c -> keeps a c.
Proof.
  intros Hab Hbc name nd H.
  destruct (Hab name nd H) as (nd1 & H1 & K1).
  destruct (Hbc name nd1 H1) as (nd2 & H2 & K2).
  exists nd2. split; [ exact H2 | congruence ].
Qed.

Lemma keeps_eq (a b : gmap (list ascii) node) : b = a -> keeps a b.
Proof. intros ->. apply keeps_refl. Qed.

Lemma keeps_insert_new (m : gmap (list ascii) node) (k : list ascii) (v : node) :
  m !! k = None -> keeps m (<[k := v]> m).
Proof.
  intros Hk name nd H. exists nd. split; [ | reflexivity ].
  rewrite lookup_insert_ne; [ exact H | ]. intros ->. congruence.
Qed.

Lemma keeps_insert_same (m : gmap (list ascii) node) (k : list ascii) (old v : node) :
  m !! k = Some old -> n_kind v = n_kind old -> keeps m (<[k := v]> m).
Proof.
  intros Hk Hv name nd H. destruct (decide (name = k)) as [->|Hne].
  - exists v. split; [ apply lookup_insert_eq | congruence ].
  - exists nd. split; [ rewrite lookup_insert_ne by congruence; exact H | reflexivity ].
Qed.

Lemma OpenFile_keeps (w : world) (name : list ascii) (perm : Z) :
  keeps (fs w) (fs (snd (OpenFile w name perm))).
Proof.
  unfold OpenFile. destruct (refuses w OpOpen); [ apply keeps_refl | ].
  destruct (fs w !! name) as [st|] eqn:Hst.
  - destruct (IsDir st); apply keeps_refl.
  - apply keeps_insert_new, Hst.
Qed.

Lemma Truncate_keeps (w : world) (name : list ascii) (size : Z) :
  keeps (fs w) (fs (snd (Truncate w name size))).
Proof.
  unfold Truncate. destruct (refuses w OpTruncate); [ apply keeps_refl | ].
  destruct (fs w !! name) as [st|] eqn:Hst; [ | apply keeps_refl ].
  destruct ((size <? 0) || negb (IsRegular st)); [ apply keeps_refl | ].
  eapply keeps_insert_same; [ exact Hst | reflexivity ].
Qed.

Lemma Chmod_keeps (w : world) (name : list ascii) (perm : Z) :
  keeps (fs w) (fs (snd (Chmod w name perm))).
Proof.
  unfold Chmod. destruct (refuses w OpChmod); [ apply keeps_refl | ].
  destruct (fs w !! name) as [st|] eqn:Hst; [ | apply keeps_refl ].
  eapply keeps_insert_same; [ exact Hst | reflexivity ].
Qed.

Lemma Utimes_keeps (w : world) (name : list ascii) (t : FileTimes) :
  keeps (fs w) (fs (snd (Utimes w name t))).
Proof.
  unfold Utimes. destruct (refuses w OpUtimes); [ apply keeps_refl | ].
  destruct (fs w !! name) as [st|] eqn:Hst; [ | apply keeps_refl ].
  eapply keeps_insert_same; [ exact Hst | reflexivity ].
Qed.

Lemma Mkdir_keeps (w : world) (name : list ascii) (perm : Z) :
  keeps (fs w) (fs (snd (Mkdir w name perm))).
Proof.
  unfold Mkdir. destruct (refuses w OpMkdir); [ apply keeps_refl | ].
  destruct (fs w !! name) as [st|] eqn:Hst; [ apply keeps_refl | ].
  apply keeps_insert_new, Hst.
Qed.

Lemma file_Write_keeps (name : list ascii) (off : nat) (bs : list ascii) (w : world) :
  keeps (fs w) (fs (snd (file_Write name off bs w))).
Proof.
  unfold file_Write. destruct (fs w !! name) as [st|] eqn:Hst; [ | apply keeps_refl ].
  destruct (n_kind st) eqn:Hk; try apply keeps_refl;
    (eapply keeps_insert_same; [ exact Hst | cbn [n_kind]; congruence ]).
Qed.

Lemma ack_keeps (w : world) : keeps (fs w) (fs (snd (ack w))).
Proof. apply keeps_eq, ack_fs. Qed.

Lemma out_Print_keeps (s : list ascii) (w : world) :
  keeps (fs w) (fs (snd (out_Print s w))).
Proof. apply keeps_eq, out_Print_fs. Qed.

Lemma sendError_keeps (w : world) (err : error) : keeps (fs w) (fs (snd (sendError w err))).
Proof. apply keeps_eq, sendError_fs. Qed.

Lemma teeError_keeps (w : world) (err : error) : keeps (fs w) (fs (snd (teeError w err))).
Proof. apply keeps_eq, teeError_fs. Qed.

Lemma copy_in_to_discard_keeps (w : world) (n : Z) :
  keeps (fs w) (fs (snd (copy_in_to_discard w n))).
Proof. rewrite copy_in_to_discard_spec. apply keeps_refl. Qed.

Lemma copy_in_to_file_keeps_entries (w : world) (name : list ascii) (size : Z) :
  keeps (fs w) (fs (snd (copy_in_to_file w name size))).
Proof.
  unfold copy_in_to_file.
  match goal with
  | |- context [io_Copy_loop ?rd ?wr ?fuel ?z ?s0] =>
      pose proof (io_Copy_loop_inv rd wr
                    (fun st : Z * (nat * world) => keeps (fs w) (fs (snd (snd st))))) as Hinv;
      assert (Hgoal := fun H1 H2 => Hinv H1 H2 fuel z s0);
      destruct (io_Copy_loop rd wr fuel z s0) as [r [N [off w']]]
  end.
  cbn [snd] in *. apply Hgoal; clear Hgoal Hinv.
  - intros n [N0 [off0 w0]] H. cbn [snd] in H.
    unfold LimitReader. cbn [fst snd].
    destruct (N0 <=? 0); [ exact H | ].
    unfold in_reader, in_Read. cbn [snd].
    destruct (r_data (stdin w0)) as [|c d]; exact H.
  - intros bs [N0 [off0 w0]] H. cbn [snd] in H. unfold file_writer.
    pose proof (file_Write_keeps name off0 bs w0) as Hw.
    destruct (file_Write name off0 bs w0) as [[nw ew] w1]. cbn [snd] in *.
    eapply keeps_trans; eassumption.
  - apply keeps_refl.
Qed.

Ltac learn_keeps x :=
  lazymatch x with
  | ack ?w => pose proof (ack_keeps w)
  | out_Print ?s ?w => pose proof (out_Print_keeps s w)
  | sendError ?w ?e => pose proof (sendError_keeps w e)
  | teeError ?w ?e => pose proof (teeError_keeps w e)
  | Truncate ?w ?n ?s => pose proof (Truncate_keeps w n s)
  | Chmod ?w ?n ?p => pose proof (Chmod_keeps w n p)
  | Utimes ?w ?n ?t => pose proof (Utimes_keeps w n t)
  | Mkdir ?w ?n ?p => pose proof (Mkdir_keeps w n p)
  | OpenFile ?w ?n ?p => pose proof (OpenFile_keeps w n p)
  | copy_in_to_file ?w ?n ?s => pose proof (copy_in_to_file_keeps_entries w n s)
  | copy_in_to_discard ?w ?n => pose proof (copy_in_to_discard_keeps w n)
  | _ => idtac
  end.

Ltac keeps_step :=
  match goal with
  | |- context [match ?x with _ => _ end] =>
      lazymatch x with
      | context [match _ with _ => _ end] => fail
      | _ => learn_keeps x; destruct x; cbn [fst snd] in *
      end
  end.

(** From the facts gathered along a path to the goal. *)
Ltac keeps_chain :=
  first [ apply keeps_refl
        | eassumption
        | match goal with
          | H : keeps ?a ?b |- keeps ?a ?c =>
              apply (keeps_trans a b c H); clear H; keeps_chain
          end ].

Section Keeps.
Context {lib : GoLib} (opts : options).

Lemma sinkFile_finish_keeps (w : world) (name : list ascii) (perm size : Z)
    (exists_ : bool) (st : node) (times : option FileTimes) (pending : list error) :
  keeps (fs w) (fs (snd (sinkFile_finish opts w name perm size exists_ st times pending))).
Proof.
  unfold sinkFile_finish, pend, Sync. repeat keeps_step; keeps_chain.
Qed.

Lemma sinkFile_keeps (w : world) (name line : list ascii) (times : option FileTimes) :
  keeps (fs w) (fs (snd (sinkFile opts w name line times))).
Proof.
  unfold sinkFile, sinkFile_target, sinkFile_open, sinkFile_payload, Stat, Fstat.
  repeat keeps_step;
    first [ keeps_chain
          | match goal with
            | |- keeps _ (fs (snd (teeError ?w0 ?e))) =>
                pose proof (teeError_keeps w0 e); keeps_chain
            | |- keeps _ (fs (snd (sinkFile_finish _ ?w0 ?n ?p ?s ?x ?st0 ?t ?pe))) =>
                pose proof (sinkFile_finish_keeps w0 n p s x st0 t pe); keeps_chain
            end ].
Qed.

Lemma prepareDir_keeps (w : world) (name : list ascii) (perm : Z) :
  keeps (fs w) (fs (snd (prepareDir opts w name perm))).
Proof.
  unfold prepareDir, Stat. repeat keeps_step; keeps_chain.
Qed.

Lemma sinkDir_finish_keeps (w : world) (name : list ascii) (perm : Z) (resetPerm : bool)
    (times : option FileTimes) (errs : list error) :
  keeps (fs w) (fs (snd (sinkDir_finish w name perm resetPerm times errs))).
Proof.
  unfold sinkDir_finish, pend. repeat keeps_step; keeps_chain.
Qed.

Lemma in_ReadByte_fs (w : world) : fs (snd (in_ReadByte w)) = fs w.
Proof. unfold in_ReadByte. destruct (r_data (stdin w)); reflexivity. Qed.

Lemma readLine_fs (w : world) : fs (snd (readLine w)) = fs w.
Proof.
  unfold readLine. destruct (until_newline [] (r_data (stdin w))) as [[l rest]|]; reflexivity.
Qed.

Lemma sink_keeps_all (fuel : nat) :
  (forall w path recur r w',
     sink opts fuel w path recur = Some (r, w') -> keeps (fs w) (fs w'))
  /\ (forall w path recur errs times first r w',
        sink_loop opts fuel w path recur errs times first = Some (r, w') ->
        keeps (fs w) (fs w'))
  /\ (forall w parent line times r w',
        sinkDir opts fuel w parent line times = Some (r, w') -> keeps (fs w) (fs w')).
Proof.
  induction fuel as [|fuel (IHsink & IHloop & IHdir)].
  { repeat split; intros; discriminate. }
  assert (Htee : forall (w0 w : world) (e : error) r w',
            keeps (fs w) (fs w0) -> Some (teeError w0 e) = Some (r, w') ->
            keeps (fs w) (fs w')).
  { intros w0 w e r w' Hk H. pose proof (teeError_keeps w0 e) as Ht.
    destruct (teeError w0 e) as [r0 w1]. cbn [snd] in Ht. inversion H; subst.
    eapply keeps_trans; eassumption. }
  assert (Hret : forall (r0 : option error) (w0 w : world) r w',
            keeps (fs w) (fs w0) -> Some (r0, w0) = Some (r, w') -> keeps (fs w) (fs w')).
  { intros r0 w0 w r w' Hk H. inversion H; subst. exact Hk. }
  split; [ | split ].
  - intros w path recur r w'. rewrite sink_S.
    assert (Hgo : match out_Print [NUL] w with
                  | (Some err, w0) => Some (Some (FatalError (Error err)), w0)
                  | (None, w0) => sink_loop opts fuel w0 path recur [] None true
                  end = Some (r, w') -> keeps (fs w) (fs w')).
    { pose proof (out_Print_keeps [NUL] w) as Ho.
      destruct (out_Print [NUL] w) as [[e|] w0]; cbn [snd] in Ho.
      - apply Hret, Ho.
      - intros H. eapply keeps_trans; [ exact Ho | eapply IHloop, H ]. }
    destruct (targetDir opts); lazy beta match zeta; [ | exact Hgo ].
    destruct (Stat w path) as [e|st]; lazy beta match zeta;
      [ apply Htee, keeps_refl | ].
    destruct (negb (IsDir st)); lazy beta match zeta; [ apply Htee, keeps_refl | exact Hgo ].
  - intros w path recur errs times first r w'. cbn [sink_loop].
    pose proof (in_ReadByte_fs w) as Hb.
    destruct (in_ReadByte w) as [[e|prefix] w1]; cbn [snd] in Hb.
    { destruct e; apply Hret, keeps_eq, Hb. }
    pose proof (readLine_fs w1) as Hl.
    destruct (readLine w1) as [[e|line] w2]; cbn [snd] in Hl;
      [ apply Hret, keeps_eq; congruence | ].
    assert (H2 : keeps (fs w) (fs w2)) by (apply keeps_eq; congruence).
    assert (Hnext : forall w3 errs' times',
              keeps (fs w2) (fs w3) ->
              sink_loop opts fuel w3 path recur errs' times' false = Some (r, w') ->
              keeps (fs w) (fs w')).
    { intros w3 errs' times' Hk H.
      eapply keeps_trans; [ exact H2 | ]. eapply keeps_trans; [ exact Hk | ].
      eapply IHloop, H. }
    assert (Hack : forall times',
              match out_Print [NUL] w2 with
              | (Some err, w0) => Some (Some (FatalError (Error err)), w0)
              | (None, w0) => sink_loop opts fuel w0 path recur errs times' false
              end = Some (r, w') -> keeps (fs w) (fs w')).
    { intros times'. pose proof (out_Print_keeps [NUL] w2) as Ho.
      destruct (out_Print [NUL] w2) as [[e|] w0]; cbn [snd] in Ho.
      - apply Hret. eapply keeps_trans; eassumption.
      - apply Hnext, Ho. }
    destruct (ascii_eqb prefix SOH); [ apply Hnext, keeps_refl | ].
    destruct (ascii_eqb prefix STX); [ apply Hret, H2 | ].
    destruct (ascii_eqb prefix "E").
    { destruct (negb recur); [ apply Htee, H2 | apply Hack ]. }
    destruct (ascii_eqb prefix "T").
    { destruct (ts_err (Sscanf_times line)); [ apply Htee, H2 | ].
      destruct (negb (ts_n (Sscanf_times line) =? 4)); [ apply Htee, H2 | apply Hack ]. }
    destruct (ascii_eqb prefix "D").
    { match goal with
      | |- context [match ?X with Some _ => _ | None => _ end] =>
          change X with (sinkDir opts fuel w2 path line times)
      end.
      destruct (sinkDir opts fuel w2 path line times) as [[r3 w3]|] eqn:Hd;
        [ | discriminate ].
      pose proof (IHdir _ _ _ _ _ _ Hd) as Hk3.
      destruct (isFatal r3); [ apply Hret; eapply keeps_trans; eassumption
                             | apply Hnext, Hk3 ]. }
    destruct (ascii_eqb prefix "C").
    { pose proof (sinkFile_keeps w2 path line times) as Hf.
      destruct (sinkFile opts w2 path line times) as [r3 w3]. cbn [snd] in Hf.
      destruct (isFatal r3); [ apply Hret; eapply keeps_trans; eassumption
                             | apply Hnext, Hf ]. }
    apply Htee, H2.
  - intros w parent line times r w'. rewrite sinkDir_S.
    destruct (negb (iamRecursive opts)); [ apply Htee, keeps_refl | ].
    destruct (parseSubj line) as [[[perm size] name] [err|]]; [ apply Htee, keeps_refl | ].
    lazy beta match zeta.
    pose proof (prepareDir_keeps w (path_Join parent name) perm) as Hp.
    destruct (prepareDir opts w (path_Join parent name) perm) as [[resetPerm [err|]] w1];
      cbn [snd] in Hp; [ apply Htee, Hp | ].
    destruct (sink opts fuel w1 (path_Join parent name) true) as [[r2 w2]|] eqn:Hs;
      [ | discriminate ].
    pose proof (IHsink _ _ _ _ _ Hs) as Hk2.
    destruct (isFatal r2); [ apply Hret; eapply keeps_trans; eassumption | ].
    pose proof (sinkDir_finish_keeps w2 (path_Join parent name) perm resetPerm times
                  (opt_list r2)) as Hfin.
    destruct (sinkDir_finish w2 (path_Join parent name) perm resetPerm times (opt_list r2))
      as [r' w3].
    cbn [snd] in Hfin. intros H. inversion H; subst.
    eapply keeps_trans; [ exact Hp | ]. eapply keeps_trans; eassumption.
Qed.

End Keeps.

(** Whatever the input, and whatever the environment refuses, [sink]
    removes nothing: every entry the file system held before is there
    afterwards, and of the same kind; no file is turned into a
    directory, no directory into a file. *)
Theorem sink_keeps_entries {lib : GoLib} (opts : options) (fuel : nat) (w w' : world)
    (path : list ascii) (recur : bool) (r : option error)
    (name : list ascii) (nd : node) :
  sink opts fuel w path recur = Some (r, w') ->
  fs w !! name = Some nd ->
  exists nd', fs w' !! name = Some nd' /\ n_kind nd' = n_kind nd.
Proof.
  intros Hrun Hnd.
  exact (proj1 (sink_keeps_all opts fuel) w path recur r w' Hrun name nd Hnd).
Qed.

Lemma sink_keeps_entries_witness :
  let w := world_of {[ lit "t" := dir_node 493; lit "t/sub" := file_node 420 (lit "old") ]}
             (frame "D" (lit "0755 0 sub") ++ frame "C" (lit "0644 2 sub") ++ lit "hi"
              ++ [NUL]) in
  let run := sink (lib := stdlib) recursive 9 w (lit "t") false in
  exists nd', fs_of run !! lit "t/sub" = Some nd'
              /\ n_kind nd' = n_kind (file_node 420 (lit "old")).
Proof.
  intros w run.
  apply (sink_keeps_entries (lib := stdlib) recursive 9 w
           (match run with Some (_, w') => w' | None => w end) (lit "t") false
           (match run with Some (r, _) => r | None => None end)
           (lit "t/sub") (file_node 420 (lit "old"))).
  - vm_compute. reflexivity.
  - reflexivity.
Defined.

(** ** Termination *)

Lemma sink_returns_witness :
  let w := world_of only_t (frame "D" (lit "0755 0 d") ++ frame "E" []
                            ++ frame "C" (lit "0644 0 f") ++ [NUL]) in
  exists r w', sink (lib := stdlib) recursive 80 w (lit "t") false = Some (r, w').
Proof.
  intros w.
  apply (sink_returns (lib := stdlib) recursive w (lit "t") false 80).
  vm_compute. lia.
Defined.
